(** * Zoo simulator: the day-advance engine and the entity rules

    A shallow embedding of [zoo_simulator.cpp].  Every C++ class becomes a
    module holding a record and its member functions under their own names;
    the menu loops of [Zoo] become one function per menu entry, taking the
    values that [getValidInput] / [getline] hand back.

    Conventions
    - [int] and [size_t] values are modelled in [Z].  Signed overflow is
      undefined behaviour in C++ and is outside the model; the one
      conversion the code writes out, [static_cast<size_t>(capacity)], is
      modelled with its wrap-around.
    - [double] is IEEE 754 binary64, round to nearest even ([SpecFloat]).
    - [std::string] is a sequence of bytes ([string]).
    - [rand()] reads a tape of non-negative numbers at a cursor; the
      [std::random_device] / [std::mt19937] pair of [refreshMarket] reads a
      second tape.  [Animal::nextId] and the two cursors are process-wide
      state; since a process owns exactly one [Zoo], they are carried in the
      record of the aggregate. *)

From Stdlib Require Import ZArith List String Ascii Bool Lia Permutation.
From Stdlib Require Import Floats.SpecFloat.
Import ListNotations.
Local Open Scope string_scope.
Local Open Scope list_scope.
Local Open Scope Z_scope.

(** ** [double] *)

Module Double.
Definition t := spec_float.
Definition prec : Z := 53.
Definition emax : Z := 1024.

(** Conversion [int -> double]. *)
Definition of_int (z : Z) : t := binary_normalize prec emax z 0 false.

Definition add : t -> t -> t := SFadd prec emax.
Definition sub : t -> t -> t := SFsub prec emax.
Definition mul : t -> t -> t := SFmul prec emax.
Definition div : t -> t -> t := SFdiv prec emax.
Definition ltb : t -> t -> bool := SFltb.
Definition leb : t -> t -> bool := SFleb.
(** [x >= y] *)
Definition geb (x y : t) : bool := SFleb y x.

(** [static_cast<int>(x)]: truncation toward zero.  The conversion is
    undefined for NaN, the infinities and values outside [int]; the model
    gives 0 for the first two and the mathematical value otherwise. *)
Definition to_int (x : t) : Z :=
  match x with
  | S754_finite s m e =>
      let mag := if 0 <=? e then Zpos m * 2 ^ e else Zpos m / 2 ^ (- e) in
      if s then - mag else mag
  | _ => 0
  end.

(** The literal [0.005]: the binary64 number nearest to 5/1000, which is
    what the correctly rounded quotient yields. *)
Definition lit_0_005 : t := div (of_int 5) (of_int 1000).
End Double.

Declare Scope double_scope.
Delimit Scope double_scope with D.
Infix "+" := Double.add : double_scope.
Infix "-" := Double.sub : double_scope.
Infix "*" := Double.mul : double_scope.
Infix "/" := Double.div : double_scope.
Infix "<?" := Double.ltb : double_scope.
Infix ">=?" := Double.geb (at level 70) : double_scope.

(** ** Enumerations *)

Inductive AnimalType := HERBIVORE | CARNIVORE.
Inductive Climate := TROPICAL | TEMPERATE | ARCTIC.
Inductive Gender := MALE | FEMALE.
Inductive WorkerType := DIRECTOR | VETERINARIAN | CLEANER | FEEDER.

Definition AnimalType_eqb (x y : AnimalType) : bool :=
  match x, y with
  | HERBIVORE, HERBIVORE | CARNIVORE, CARNIVORE => true
  | _, _ => false
  end.

Definition Climate_eqb (x y : Climate) : bool :=
  match x, y with
  | TROPICAL, TROPICAL | TEMPERATE, TEMPERATE | ARCTIC, ARCTIC => true
  | _, _ => false
  end.

Definition Gender_eqb (x y : Gender) : bool :=
  match x, y with
  | MALE, MALE | FEMALE, FEMALE => true
  | _, _ => false
  end.

Definition WorkerType_eqb (x y : WorkerType) : bool :=
  match x, y with
  | DIRECTOR, DIRECTOR | VETERINARIAN, VETERINARIAN
  | CLEANER, CLEANER | FEEDER, FEEDER => true
  | _, _ => false
  end.

(** ** Exceptions: a function that may [throw runtime_error] *)

Inductive result (A : Type) : Type :=
| Ok (value : A)
| Throw (what : string).
Arguments Ok {A} value.
Arguments Throw {A} what.

(** ** Random sources *)

Record Rng := { tape : nat -> nat; pos : nat }.

(** One call of [rand()] (or one draw of the shuffle engine). *)
Definition draw (g : Rng) : Z * Rng :=
  (Z.of_nat (tape g (pos g)), {| tape := tape g; pos := S (pos g) |}).

(** [Zoo::random(min, max)]; [%] is the truncating remainder. *)
Definition random (min max : Z) (g : Rng) : Z * Rng :=
  let '(r, g') := draw g in (min + Z.rem r (max - min + 1), g').

(** ** Vector helpers *)

(** [v.erase(v.begin() + i)] *)
Definition erase_at {A} (i : nat) (v : list A) : list A :=
  firstn i v ++ skipn (S i) v.

(** [v[i] = x] *)
Fixpoint assign_at {A} (i : nat) (x : A) (v : list A) : list A :=
  match v, i with
  | [], _ => []
  | _ :: rest, O => x :: rest
  | y :: rest, S i' => y :: assign_at i' x rest
  end.

(** [std::swap(v[i], v[j])] *)
Definition swap_at {A} (i j : nat) (v : list A) : list A :=
  match nth_error v i, nth_error v j with
  | Some x, Some y => assign_at i y (assign_at j x v)
  | _, _ => v
  end.

(** [std::shuffle(first, last, g)].  The standard fixes only that the result
    is a permutation chosen by the engine; the model is the exchange loop
    [for i = 1 .. n-1: swap(v[i], v[j])] with [j] drawn in [0, i]. *)
Fixpoint shuffle_loop {A} (steps i : nat) (v : list A) (g : Rng) : list A * Rng :=
  match steps with
  | O => (v, g)
  | S steps' =>
      let '(r, g') := draw g in
      shuffle_loop steps' (S i) (swap_at i (Z.to_nat r mod S i)%nat v) g'
  end.

Definition shuffle {A} (v : list A) (g : Rng) : list A * Rng :=
  shuffle_loop (List.length v - 1) 1 v g.

(** [s.substr(pos, n)] and [s.substr(pos)] for [pos <= s.length()]. *)
Fixpoint take (n : nat) (s : string) : string :=
  match n, s with
  | S n', String c s' => String c (take n' s')
  | _, _ => EmptyString
  end.

Fixpoint drop (n : nat) (s : string) : string :=
  match n, s with
  | S n', String _ s' => drop n' s'
  | _, _ => s
  end.

(** ** class Loan *)

Module Loan.
Record t := {
  principal : Double.t;
  days : Z;
  dailyInterestRate : Double.t;
  dailyRepayment : Double.t;
  daysLeft : Z
}.

(** [Loan(p, d, rate)] *)
Definition make (p : Double.t) (d : Z) (rate : Double.t) : result t :=
  if d <=? 0 then Throw "Срок кредита должен быть больше 0."
  else
    let totalInterest := (p * rate * Double.of_int d)%D in
    let totalRepayment := (p + totalInterest)%D in
    Ok {| principal := p; days := d; dailyInterestRate := rate;
          dailyRepayment := (totalRepayment / Double.of_int d)%D;
          daysLeft := d |}.

(** The default argument [rate = 0.005]. *)
Definition make_default (p : Double.t) (d : Z) : result t :=
  make p d Double.lit_0_005.

Definition getRemainingDebt (l : t) : Double.t :=
  (dailyRepayment l * Double.of_int (daysLeft l))%D.

Definition set_daysLeft (n : Z) (l : t) : t :=
  {| principal := principal l; days := days l;
     dailyInterestRate := dailyInterestRate l;
     dailyRepayment := dailyRepayment l; daysLeft := n |}.
End Loan.

(** ** class Animal *)

Module Animal.
Record t := {
  species : string;
  displayName : string;
  ageDays : Z;
  weight : Double.t;
  preferredClimate : Climate;
  price : Z;
  type : AnimalType;
  enclosureId : Z;
  daysSincePurchase : Z;
  gender : Gender;
  isBornInZoo : bool;
  parents : string * string;
  isSick : bool;
  uniqueId : Z
}.

(** The constructor with its defaults ([born = false], [encId = -1],
    [daysPurch = 0], [par = {None, None}], [sick = false]); [id] is the
    value of [nextId] that the constructor consumes. *)
Definition make (sp name : string) (age : Z) (w : Double.t) (c : Climate)
    (p : Z) (ty : AnimalType) (g : Gender) (id : Z) : t :=
  {| species := sp; displayName := name; ageDays := age; weight := w;
     preferredClimate := c; price := p; type := ty; enclosureId := -1;
     daysSincePurchase := 0; gender := g; isBornInZoo := false;
     parents := ("None", "None"); isSick := false; uniqueId := id |}.

Definition setEnclosureId (id : Z) (a : t) : t :=
  {| species := species a; displayName := displayName a;
     ageDays := ageDays a; weight := weight a;
     preferredClimate := preferredClimate a; price := price a;
     type := type a; enclosureId := id;
     daysSincePurchase := daysSincePurchase a; gender := gender a;
     isBornInZoo := isBornInZoo a; parents := parents a;
     isSick := isSick a; uniqueId := uniqueId a |}.

Definition incrementDaysSincePurchase (a : t) : t :=
  {| species := species a; displayName := displayName a;
     ageDays := ageDays a; weight := weight a;
     preferredClimate := preferredClimate a; price := price a;
     type := type a; enclosureId := enclosureId a;
     daysSincePurchase := daysSincePurchase a + 1; gender := gender a;
     isBornInZoo := isBornInZoo a; parents := parents a;
     isSick := isSick a; uniqueId := uniqueId a |}.

Definition incrementAgeDays (a : t) : t :=
  {| species := species a; displayName := displayName a;
     ageDays := ageDays a + 1; weight := weight a;
     preferredClimate := preferredClimate a; price := price a;
     type := type a; enclosureId := enclosureId a;
     daysSincePurchase := daysSincePurchase a; gender := gender a;
     isBornInZoo := isBornInZoo a; parents := parents a;
     isSick := isSick a; uniqueId := uniqueId a |}.

Definition setDisplayName (name : string) (a : t) : t :=
  {| species := species a; displayName := name;
     ageDays := ageDays a; weight := weight a;
     preferredClimate := preferredClimate a; price := price a;
     type := type a; enclosureId := enclosureId a;
     daysSincePurchase := daysSincePurchase a; gender := gender a;
     isBornInZoo := isBornInZoo a; parents := parents a;
     isSick := isSick a; uniqueId := uniqueId a |}.

Definition setSick (sick : bool) (a : t) : t :=
  {| species := species a; displayName := displayName a;
     ageDays := ageDays a; weight := weight a;
     preferredClimate := preferredClimate a; price := price a;
     type := type a; enclosureId := enclosureId a;
     daysSincePurchase := daysSincePurchase a; gender := gender a;
     isBornInZoo := isBornInZoo a; parents := parents a;
     isSick := sick; uniqueId := uniqueId a |}.

Definition newborn_suffix : string := "_Новорождённый".

Definition breeding_error : string :=
  "Невозможно размножить: должны быть разных видов, противоположного пола, старше 5 дней и в одном вольере.".

(** [operator+].  [id] is the current [nextId] and [g] the state of
    [rand()]; both are consumed only when the newborn is constructed. *)
Definition operator_plus (a other : t) (id : Z) (g : Rng) : result (t * Z * Rng) :=
  if negb (enclosureId a =? enclosureId other)
     || Gender_eqb (gender a) (gender other)
     || (ageDays a <=? 5) || (ageDays other <=? 5)
  then Throw breeding_error
  else
    let newSpecies :=
      (take (String.length (species a) / 2)%nat (species a)
       ++ drop (String.length (species other) / 2)%nat (species other))%string in
    let newName := (newSpecies ++ newborn_suffix)%string in
    let '(r, g') := draw g in
    let newGender := if Z.rem r 2 =? 0 then MALE else FEMALE in
    let newWeight := ((weight a + weight other) / Double.of_int 4)%D in
    let newPrice := Z.quot (price a + price other) 2 in
    Ok ({| species := newSpecies; displayName := newName; ageDays := 0;
           weight := newWeight; preferredClimate := preferredClimate a;
           price := newPrice; type := type a; enclosureId := enclosureId a;
           daysSincePurchase := 0; gender := newGender;
           isBornInZoo := true;
           parents := (displayName a, displayName other);
           isSick := false; uniqueId := id |}, id + 1, g').
End Animal.

(** ** class Enclosure *)

Module Enclosure.
Record t := {
  id : Z;
  capacity : Z;
  animalType : AnimalType;
  climate : Climate;
  dailyCost : Z;
  animals : list Animal.t
}.

Definition make (i cap : Z) (ty : AnimalType) (c : Climate) (cost : Z) : t :=
  {| id := i; capacity := cap; animalType := ty; climate := c;
     dailyCost := cost; animals := [] |}.

Definition set_animals (l : list Animal.t) (e : t) : t :=
  {| id := id e; capacity := capacity e; animalType := animalType e;
     climate := climate e; dailyCost := dailyCost e; animals := l |}.

Definition getAnimalCount (e : t) : Z := Z.of_nat (List.length (animals e)).

(** [static_cast<size_t>(capacity)] on a 64-bit [size_t]. *)
Definition to_size_t (n : Z) : Z := n mod 2 ^ 64.

Definition canAddAnimal (e : t) (animal : Animal.t) : bool :=
  (getAnimalCount e <? to_size_t (capacity e))
  && AnimalType_eqb (Animal.type animal) (animalType e)
  && Climate_eqb (Animal.preferredClimate animal) (climate e).

Definition addAnimal (animal : Animal.t) (e : t) : t :=
  set_animals (animals e ++ [animal]) e.

(** erase / remove_if idiom *)
Definition removeAnimal (uniqueId : Z) (e : t) : t :=
  set_animals
    (filter (fun a => negb (Animal.uniqueId a =? uniqueId)) (animals e)) e.

Fixpoint update_first (updated : Animal.t) (l : list Animal.t) : list Animal.t :=
  match l with
  | [] => []
  | animal :: rest =>
      if Animal.uniqueId animal =? Animal.uniqueId updated
      then updated :: rest
      else animal :: update_first updated rest
  end.

Definition updateAnimal (updatedAnimal : Animal.t) (e : t) : t :=
  set_animals (update_first updatedAnimal (animals e)) e.
End Enclosure.

(** ** class Worker *)

Module Worker.
Record t := {
  name : string;
  type : WorkerType;
  salary : Z;
  assignedEnclosures : list Z;
  daysAssigned : Z;
  daysWorked : Z;
  maxAnimals : Z
}.

(** The constructor; [daysAss] and [daysW] take their default 0 at every
    call site of the program. *)
Definition make (n : string) (ty : WorkerType) (sal maxA : Z) (encs : list Z) : t :=
  {| name := n; type := ty; salary := sal; assignedEnclosures := encs;
     daysAssigned := 0; daysWorked := 0; maxAnimals := maxA |}.

Definition getSalaryForType (ty : WorkerType) : Z :=
  match ty with
  | DIRECTOR => 60
  | VETERINARIAN => 50
  | CLEANER => 30
  | FEEDER => 40
  end.

Definition set_assignedEnclosures (encs : list Z) (w : t) : t :=
  {| name := name w; type := type w; salary := salary w;
     assignedEnclosures := encs; daysAssigned := daysAssigned w;
     daysWorked := daysWorked w; maxAnimals := maxAnimals w |}.

Definition has_enclosure (encId : Z) (w : t) : bool :=
  existsb (Z.eqb encId) (assignedEnclosures w).

Definition assignEnclosure (encId : Z) (w : t) : t :=
  if has_enclosure encId w then w
  else set_assignedEnclosures (assignedEnclosures w ++ [encId]) w.

Definition clearAssignedEnclosures (w : t) : t :=
  set_assignedEnclosures [] w.

Definition setDaysAssigned (d : Z) (w : t) : t :=
  {| name := name w; type := type w; salary := salary w;
     assignedEnclosures := assignedEnclosures w; daysAssigned := d;
     daysWorked := daysWorked w; maxAnimals := maxAnimals w |}.

Definition decrementDaysAssigned (w : t) : t :=
  if 0 <? daysAssigned w then setDaysAssigned (daysAssigned w - 1) w else w.

Definition incrementDaysWorked (w : t) : t :=
  {| name := name w; type := type w; salary := salary w;
     assignedEnclosures := assignedEnclosures w;
     daysAssigned := daysAssigned w;
     daysWorked := daysWorked w + 1; maxAnimals := maxAnimals w |}.
End Worker.
(** ** class Zoo *)

Module Zoo.
Record t := {
  name : string;
  money : Double.t;
  food : Z;
  popularity : Double.t;
  animals : list Animal.t;
  enclosures : list Enclosure.t;
  workers : list Worker.t;
  loans : list Loan.t;
  day : Z;
  visitors : Z;
  totalAnimals : Z;
  specialVisitorType : string;
  specialVisitorCount : Z;
  marketAnimals : list Animal.t;
  animalsBoughtToday : Z;
  nextId : Z;
  crand : Rng;
  mt : Rng
}.

(** Field assignment. *)
Definition set_money (x : Double.t) (z : t) : t :=
  {| name := name z; money := x; food := food z;
     popularity := popularity z; animals := animals z;
     enclosures := enclosures z; workers := workers z; loans := loans z;
     day := day z; visitors := visitors z; totalAnimals := totalAnimals z;
     specialVisitorType := specialVisitorType z;
     specialVisitorCount := specialVisitorCount z;
     marketAnimals := marketAnimals z;
     animalsBoughtToday := animalsBoughtToday z; nextId := nextId z;
     crand := crand z; mt := mt z |}.

Definition set_food (x : Z) (z : t) : t :=
  {| name := name z; money := money z; food := x;
     popularity := popularity z; animals := animals z;
     enclosures := enclosures z; workers := workers z; loans := loans z;
     day := day z; visitors := visitors z; totalAnimals := totalAnimals z;
     specialVisitorType := specialVisitorType z;
     specialVisitorCount := specialVisitorCount z;
     marketAnimals := marketAnimals z;
     animalsBoughtToday := animalsBoughtToday z; nextId := nextId z;
     crand := crand z; mt := mt z |}.

Definition set_popularity (x : Double.t) (z : t) : t :=
  {| name := name z; money := money z; food := food z; popularity := x;
     animals := animals z; enclosures := enclosures z;
     workers := workers z; loans := loans z; day := day z;
     visitors := visitors z; totalAnimals := totalAnimals z;
     specialVisitorType := specialVisitorType z;
     specialVisitorCount := specialVisitorCount z;
     marketAnimals := marketAnimals z;
     animalsBoughtToday := animalsBoughtToday z; nextId := nextId z;
     crand := crand z; mt := mt z |}.

Definition set_animals (x : list Animal.t) (z : t) : t :=
  {| name := name z; money := money z; food := food z;
     popularity := popularity z; animals := x; enclosures := enclosures z;
     workers := workers z; loans := loans z; day := day z;
     visitors := visitors z; totalAnimals := totalAnimals z;
     specialVisitorType := specialVisitorType z;
     specialVisitorCount := specialVisitorCount z;
     marketAnimals := marketAnimals z;
     animalsBoughtToday := animalsBoughtToday z; nextId := nextId z;
     crand := crand z; mt := mt z |}.

Definition set_enclosures (x : list Enclosure.t) (z : t) : t :=
  {| name := name z; money := money z; food := food z;
     popularity := popularity z; animals := animals z; enclosures := x;
     workers := workers z; loans := loans z; day := day z;
     visitors := visitors z; totalAnimals := totalAnimals z;
     specialVisitorType := specialVisitorType z;
     specialVisitorCount := specialVisitorCount z;
     marketAnimals := marketAnimals z;
     animalsBoughtToday := animalsBoughtToday z; nextId := nextId z;
     crand := crand z; mt := mt z |}.

Definition set_workers (x : list Worker.t) (z : t) : t :=
  {| name := name z; money := money z; food := food z;
     popularity := popularity z; animals := animals z;
     enclosures := enclosures z; workers := x; loans := loans z;
     day := day z; visitors := visitors z; totalAnimals := totalAnimals z;
     specialVisitorType := specialVisitorType z;
     specialVisitorCount := specialVisitorCount z;
     marketAnimals := marketAnimals z;
     animalsBoughtToday := animalsBoughtToday z; nextId := nextId z;
     crand := crand z; mt := mt z |}.

Definition set_loans (x : list Loan.t) (z : t) : t :=
  {| name := name z; money := money z; food := food z;
     popularity := popularity z; animals := animals z;
     enclosures := enclosures z; workers := workers z; loans := x;
     day := day z; visitors := visitors z; totalAnimals := totalAnimals z;
     specialVisitorType := specialVisitorType z;
     specialVisitorCount := specialVisitorCount z;
     marketAnimals := marketAnimals z;
     animalsBoughtToday := animalsBoughtToday z; nextId := nextId z;
     crand := crand z; mt := mt z |}.

Definition set_day (x : Z) (z : t) : t :=
  {| name := name z; money := money z; food := food z;
     popularity := popularity z; animals := animals z;
     enclosures := enclosures z; workers := workers z; loans := loans z;
     day := x; visitors := visitors z; totalAnimals := totalAnimals z;
     specialVisitorType := specialVisitorType z;
     specialVisitorCount := specialVisitorCount z;
     marketAnimals := marketAnimals z;
     animalsBoughtToday := animalsBoughtToday z; nextId := nextId z;
     crand := crand z; mt := mt z |}.

Definition set_visitors (x : Z) (z : t) : t :=
  {| name := name z; money := money z; food := food z;
     popularity := popularity z; animals := animals z;
     enclosures := enclosures z; workers := workers z; loans := loans z;
     day := day z; visitors := x; totalAnimals := totalAnimals z;
     specialVisitorType := specialVisitorType z;
     specialVisitorCount := specialVisitorCount z;
     marketAnimals := marketAnimals z;
     animalsBoughtToday := animalsBoughtToday z; nextId := nextId z;
     crand := crand z; mt := mt z |}.

Definition set_totalAnimals (x : Z) (z : t) : t :=
  {| name := name z; money := money z; food := food z;
     popularity := popularity z; animals := animals z;
     enclosures := enclosures z; workers := workers z; loans := loans z;
     day := day z; visitors := visitors z; totalAnimals := x;
     specialVisitorType := specialVisitorType z;
     specialVisitorCount := specialVisitorCount z;
     marketAnimals := marketAnimals z;
     animalsBoughtToday := animalsBoughtToday z; nextId := nextId z;
     crand := crand z; mt := mt z |}.

Definition set_specialVisitorType (x : string) (z : t) : t :=
  {| name := name z; money := money z; food := food z;
     popularity := popularity z; animals := animals z;
     enclosures := enclosures z; workers := workers z; loans := loans z;
     day := day z; visitors := visitors z; totalAnimals := totalAnimals z;
     specialVisitorType := x; specialVisitorCount := specialVisitorCount z;
     marketAnimals := marketAnimals z;
     animalsBoughtToday := animalsBoughtToday z; nextId := nextId z;
     crand := crand z; mt := mt z |}.

Definition set_specialVisitorCount (x : Z) (z : t) : t :=
  {| name := name z; money := money z; food := food z;
     popularity := popularity z; animals := animals z;
     enclosures := enclosures z; workers := workers z; loans := loans z;
     day := day z; visitors := visitors z; totalAnimals := totalAnimals z;
     specialVisitorType := specialVisitorType z; specialVisitorCount := x;
     marketAnimals := marketAnimals z;
     animalsBoughtToday := animalsBoughtToday z; nextId := nextId z;
     crand := crand z; mt := mt z |}.

Definition set_marketAnimals (x : list Animal.t) (z : t) : t :=
  {| name := name z; money := money z; food := food z;
     popularity := popularity z; animals := animals z;
     enclosures := enclosures z; workers := workers z; loans := loans z;
     day := day z; visitors := visitors z; totalAnimals := totalAnimals z;
     specialVisitorType := specialVisitorType z;
     specialVisitorCount := specialVisitorCount z; marketAnimals := x;
     animalsBoughtToday := animalsBoughtToday z; nextId := nextId z;
     crand := crand z; mt := mt z |}.

Definition set_animalsBoughtToday (x : Z) (z : t) : t :=
  {| name := name z; money := money z; food := food z;
     popularity := popularity z; animals := animals z;
     enclosures := enclosures z; workers := workers z; loans := loans z;
     day := day z; visitors := visitors z; totalAnimals := totalAnimals z;
     specialVisitorType := specialVisitorType z;
     specialVisitorCount := specialVisitorCount z;
     marketAnimals := marketAnimals z; animalsBoughtToday := x;
     nextId := nextId z; crand := crand z; mt := mt z |}.

Definition set_nextId (x : Z) (z : t) : t :=
  {| name := name z; money := money z; food := food z;
     popularity := popularity z; animals := animals z;
     enclosures := enclosures z; workers := workers z; loans := loans z;
     day := day z; visitors := visitors z; totalAnimals := totalAnimals z;
     specialVisitorType := specialVisitorType z;
     specialVisitorCount := specialVisitorCount z;
     marketAnimals := marketAnimals z;
     animalsBoughtToday := animalsBoughtToday z; nextId := x;
     crand := crand z; mt := mt z |}.

Definition set_crand (x : Rng) (z : t) : t :=
  {| name := name z; money := money z; food := food z;
     popularity := popularity z; animals := animals z;
     enclosures := enclosures z; workers := workers z; loans := loans z;
     day := day z; visitors := visitors z; totalAnimals := totalAnimals z;
     specialVisitorType := specialVisitorType z;
     specialVisitorCount := specialVisitorCount z;
     marketAnimals := marketAnimals z;
     animalsBoughtToday := animalsBoughtToday z; nextId := nextId z;
     crand := x; mt := mt z |}.

Definition set_mt (x : Rng) (z : t) : t :=
  {| name := name z; money := money z; food := food z;
     popularity := popularity z; animals := animals z;
     enclosures := enclosures z; workers := workers z; loans := loans z;
     day := day z; visitors := visitors z; totalAnimals := totalAnimals z;
     specialVisitorType := specialVisitorType z;
     specialVisitorCount := specialVisitorCount z;
     marketAnimals := marketAnimals z;
     animalsBoughtToday := animalsBoughtToday z; nextId := nextId z;
     crand := crand z; mt := x |}.

(** *** The market *)

(** The master catalog of [getAvailableAnimals]: species (also the display
    name), age, weight, climate, price, diet. *)
Definition catalog : list (string * Z * Z * Climate * Z * AnimalType) :=
  [ ("Олень", 10, 200, TEMPERATE, 150, HERBIVORE);
    ("Слон", 15, 6000, TROPICAL, 350, HERBIVORE);
    ("Жираф", 12, 1800, TROPICAL, 300, HERBIVORE);
    ("Зебра", 8, 400, TROPICAL, 200, HERBIVORE);
    ("Кролик", 3, 5, TEMPERATE, 100, HERBIVORE);
    ("Лев", 10, 300, TROPICAL, 400, CARNIVORE);
    ("Волк", 7, 150, TEMPERATE, 250, CARNIVORE);
    ("Белый медведь", 14, 800, ARCTIC, 450, CARNIVORE);
    ("Тигр", 9, 350, TROPICAL, 350, CARNIVORE);
    ("Лисица", 5, 100, TEMPERATE, 200, CARNIVORE) ].

(** The elements of the braced list are built left to right: each one
    calls [rand()] for the sex and then takes the next identity. *)
Fixpoint instantiate (rows : list (string * Z * Z * Climate * Z * AnimalType))
    (id : Z) (g : Rng) : list Animal.t * Z * Rng :=
  match rows with
  | [] => ([], id, g)
  | (sp, age, w, c, p, ty) :: rest =>
      let '(r, g1) := draw g in
      let a := Animal.make sp sp age (Double.of_int w) c p ty
                 (if Z.rem r 2 =? 0 then FEMALE else MALE) id in
      let '(l, id', g') := instantiate rest (id + 1) g1 in
      (a :: l, id', g')
  end.

Definition getAvailableAnimals (id : Z) (g : Rng) : list Animal.t * Z * Rng :=
  instantiate catalog id g.

(** [v[i]] read into a vector; an index past the end is undefined
    behaviour and yields nothing here. *)
Definition at_index {A} (v : list A) (i : nat) : list A :=
  match nth_error v i with
  | Some x => [x]
  | None => []
  end.

Definition refreshMarket (z : t) : t :=
  let '(available, id', g) := getAvailableAnimals (nextId z) (crand z) in
  let indices := seq 0 (List.length available) in
  let '(indices, m) := shuffle indices (mt z) in
  let n := Z.to_nat (Z.min 10 (Z.of_nat (List.length available))) in
  let market :=
    flat_map (fun i => flat_map (at_index available) (at_index indices i))
             (seq 0 n) in
  set_mt m (set_crand g (set_nextId id' (set_marketAnimals market z))).

(** *** The constructor *)

Definition initial_workers : list Worker.t :=
  [ Worker.make "К.З" DIRECTOR (Worker.getSalaryForType DIRECTOR) 0 [];
    Worker.make "тринити" CLEANER (Worker.getSalaryForType CLEANER) 0 [1];
    Worker.make "морф" VETERINARIAN (Worker.getSalaryForType VETERINARIAN) 20 [];
    Worker.make "диференс" FEEDER (Worker.getSalaryForType FEEDER) 0 [2] ].

(** [Zoo(n)], run in a process whose [rand()] and shuffle engine will
    deliver the two tapes; [Animal::nextId] starts at 1. *)
Definition make (n : string) (rand_tape mt_tape : nat -> nat) : t :=
  refreshMarket
    {| name := n; money := Double.of_int 1488; food := 100;
       popularity := Double.of_int 50; animals := [];
       enclosures := [Enclosure.make 1 5 HERBIVORE TEMPERATE 10];
       workers := initial_workers; loans := []; day := 1; visitors := 0;
       totalAnimals := 0; specialVisitorType := "None";
       specialVisitorCount := 0; marketAnimals := [];
       animalsBoughtToday := 0; nextId := 1;
       crand := {| tape := rand_tape; pos := 0 |};
       mt := {| tape := mt_tape; pos := 0 |} |}.

(** *** Enclosure lookups *)

(** [for (auto& enc : enclosures) if (enc.getId() == encId) { f(enc); break; }] *)
Fixpoint on_enclosure (encId : Z) (f : Enclosure.t -> Enclosure.t)
    (encs : list Enclosure.t) : list Enclosure.t :=
  match encs with
  | [] => []
  | enc :: rest =>
      if Enclosure.id enc =? encId then f enc :: rest
      else enc :: on_enclosure encId f rest
  end.

Definition known_enclosure (encId : Z) (encs : list Enclosure.t) : bool :=
  existsb (fun enc => Enclosure.id enc =? encId) encs.

(** [enclosures.back().getId()], the upper bound of the prompts for an
    enclosure identity. *)
Definition back_id (encs : list Enclosure.t) : Z :=
  match rev encs with
  | enc :: _ => Enclosure.id enc
  | [] => 0
  end.

(** *** manageAnimals *)

(** The placing loop of a purchase: the first enclosure with the chosen
    identity that can take the animal receives it. *)
Fixpoint place (encId : Z) (selected : Animal.t) (encs : list Enclosure.t)
    : option (list Enclosure.t) :=
  match encs with
  | [] => None
  | enc :: rest =>
      if (Enclosure.id enc =? encId) && Enclosure.canAddAnimal enc selected
      then Some (Enclosure.addAnimal (Animal.setEnclosureId encId selected) enc :: rest)
      else option_map (cons enc) (place encId selected rest)
  end.

(** Entry 1, with [animalChoice] and [encId] as typed. *)
Definition purchase (animalChoice encId : Z) (z : t) : t :=
  if (10 <? day z) && (1 <=? animalsBoughtToday z) then z
  else
    match marketAnimals z with
    | [] => z
    | _ =>
      if (1 <=? animalChoice)
         && (animalChoice <=? Z.of_nat (List.length (marketAnimals z)))
      then
        match nth_error (marketAnimals z) (Z.to_nat (animalChoice - 1)) with
        | None => z
        | Some selected =>
          if (money z >=? Double.of_int (Animal.price selected))%D then
            if existsb (fun enc => Enclosure.canAddAnimal enc selected)
                       (enclosures z)
            then
              match place encId selected (enclosures z) with
              | None => z
              | Some encs =>
                  let selected := Animal.setEnclosureId encId selected in
                  set_marketAnimals
                    (erase_at (Z.to_nat (animalChoice - 1)) (marketAnimals z))
                    (set_animalsBoughtToday (animalsBoughtToday z + 1)
                      (set_totalAnimals (totalAnimals z + 1)
                        (set_money
                          (money z - Double.of_int (Animal.price selected))%D
                          (set_animals (animals z ++ [selected])
                            (set_enclosures encs z)))))
              end
            else z
          else z
        end
      else z
    end.

(** Entry 2. *)
Definition sell (sellChoice : Z) (z : t) : t :=
  match animals z with
  | [] => z
  | _ =>
    if (1 <=? sellChoice) && (sellChoice <=? Z.of_nat (List.length (animals z)))
    then
      match nth_error (animals z) (Z.to_nat (sellChoice - 1)) with
      | None => z
      | Some sold =>
          set_totalAnimals (totalAnimals z - 1)
            (set_animals (erase_at (Z.to_nat (sellChoice - 1)) (animals z))
              (set_enclosures
                (on_enclosure (Animal.enclosureId sold)
                   (Enclosure.removeAnimal (Animal.uniqueId sold))
                   (enclosures z))
                (set_money
                  (money z + Double.of_int (Z.quot (Animal.price sold) 2))%D
                  z)))
      end
    else z
  end.

(** Entry 4. *)
Definition rename (renameChoice : Z) (newName : string) (z : t) : t :=
  match animals z with
  | [] => z
  | _ =>
    if (1 <=? renameChoice)
       && (renameChoice <=? Z.of_nat (List.length (animals z)))
    then
      match nth_error (animals z) (Z.to_nat (renameChoice - 1)) with
      | None => z
      | Some a =>
          if (newName =? "")%string then z
          else
            let a := Animal.setDisplayName newName a in
            set_enclosures
              (on_enclosure (Animal.enclosureId a) (Enclosure.updateAnimal a)
                 (enclosures z))
              (set_animals
                (assign_at (Z.to_nat (renameChoice - 1)) a (animals z)) z)
      end
    else z
  end.

(** Entry 5. *)
Definition refresh_for_fee (z : t) : t :=
  if (money z >=? Double.of_int 50)%D
  then refreshMarket (set_money (money z - Double.of_int 50)%D z)
  else z.

(** *** manageWorkers *)

(** The feeder prompt: at most two rounds, 0 ends the dialogue. *)
Fixpoint hire_feeder (rounds : nat) (inputs : list Z)
    (encs : list Enclosure.t) (w : Worker.t) : Worker.t :=
  match rounds, inputs with
  | S rounds', encId :: more =>
      if encId =? 0 then w
      else hire_feeder rounds' more encs
             (if known_enclosure encId encs
              then Worker.assignEnclosure encId w else w)
  | _, _ => w
  end.

(** The veterinarian prompt: repeated until 0 is typed. *)
Fixpoint hire_veterinarian (inputs : list Z) (encs : list Enclosure.t)
    (totalAnimalsAssigned : Z) (w : Worker.t) : Worker.t :=
  match inputs with
  | [] => w
  | encId :: more =>
      if encId =? 0 then w
      else
        match find (fun enc => Enclosure.id enc =? encId) encs with
        | Some enc =>
            let animalCount := Enclosure.getAnimalCount enc in
            if 20 <? totalAnimalsAssigned + animalCount
            then hire_veterinarian more encs totalAnimalsAssigned w
            else hire_veterinarian more encs
                   (totalAnimalsAssigned + animalCount)
                   (Worker.assignEnclosure encId w)
        | None => hire_veterinarian more encs totalAnimalsAssigned w
        end
  end.

(** Entry 1; [inputs] are the enclosure identities typed afterwards. *)
Definition hire (n : string) (posChoice : Z) (inputs : list Z) (z : t) : t :=
  let '(position, maxAnimals) :=
    match posChoice with
    | 1 => (VETERINARIAN, 20)
    | 2 => (CLEANER, 0)
    | 3 => (FEEDER, 0)
    | _ => (CLEANER, 0)
    end in
  let newWorker :=
    Worker.make n position (Worker.getSalaryForType position) maxAnimals [] in
  let newWorker :=
    match enclosures z with
    | [] => newWorker
    | _ =>
      match position with
      | CLEANER =>
          match inputs with
          | encId :: _ =>
              if known_enclosure encId (enclosures z)
              then Worker.assignEnclosure encId newWorker else newWorker
          | [] => newWorker
          end
      | FEEDER => hire_feeder 2 inputs (enclosures z) newWorker
      | VETERINARIAN => hire_veterinarian inputs (enclosures z) 0 newWorker
      | DIRECTOR => newWorker
      end
    end in
  set_workers (workers z ++ [newWorker]) z.

(** Entry 3. *)
Definition fire (fireChoice : Z) (z : t) : t :=
  if Z.of_nat (List.length (workers z)) <=? 1 then z
  else if (1 <=? fireChoice)
          && (fireChoice <=? Z.of_nat (List.length (workers z)))
  then
    match nth_error (workers z) (Z.to_nat (fireChoice - 1)) with
    | None => z
    | Some w =>
        if WorkerType_eqb (Worker.type w) DIRECTOR then z
        else set_workers (erase_at (Z.to_nat (fireChoice - 1)) (workers z)) z
    end
  else z.

Definition INT_MAX : Z := 2147483647.

(** Entry 4.  The capacity test for a veterinarian only prints a message:
    its [continue] resumes the inner loop over the enclosures, after which
    the assignment goes ahead, so the test leaves no trace in the state. *)
Definition assign (workerChoice encId daysAssigned : Z) (z : t) : t :=
  match workers z, enclosures z with
  | [], _ | _, [] => z
  | _, _ =>
    if workerChoice =? 0 then z
    else if (workerChoice <? 1)
            || (Z.of_nat (List.length (workers z)) <? workerChoice) then z
    else
      match nth_error (workers z) (Z.to_nat (workerChoice - 1)) with
      | None => z
      | Some selectedWorker =>
        if WorkerType_eqb (Worker.type selectedWorker) DIRECTOR then z
        else if encId =? 0 then z
        else if negb (known_enclosure encId (enclosures z)) then z
        else if Worker.has_enclosure encId selectedWorker then z
        else
          let maxEnclosures :=
            match Worker.type selectedWorker with
            | CLEANER => 1
            | FEEDER => 2
            | _ => INT_MAX
            end in
          if maxEnclosures
             <=? Z.of_nat (List.length (Worker.assignedEnclosures selectedWorker))
          then z
          else
            set_workers
              (assign_at (Z.to_nat (workerChoice - 1))
                 (Worker.setDaysAssigned daysAssigned
                    (Worker.assignEnclosure encId selectedWorker))
                 (workers z)) z
      end
  end.

(** *** managePurchases *)

(** Entry 1.  [food += foodAmount] is an addition of [int]s; it is the
    addition of [Z] as long as the stock stays within the range of [int],
    which is what the statements about the stock assume. *)
Definition buyFood (foodAmount : Z) (z : t) : t :=
  if (money z >=? Double.of_int (foodAmount * 2))%D
  then set_money (money z - Double.of_int (foodAmount * 2))%D
         (set_food (food z + foodAmount) z)
  else z.

Definition advertise (adSpend : Z) (z : t) : t :=
  if (money z >=? Double.of_int adSpend)%D
  then set_money (money z - Double.of_int adSpend)%D
         (set_popularity
            (popularity z + Double.of_int (Z.quot adSpend 200 * 5))%D z)
  else z.

(** Entry 3.  A throwing [Loan] constructor would leave the menu through
    an exception nobody catches; the prompt only hands back terms in
    [1, 20], for which it does not throw. *)
Definition borrow (amount days : Z) (z : t) : t :=
  match Loan.make_default (Double.of_int amount) days with
  | Ok loan =>
      set_money (money z + Double.of_int amount)%D
        (set_loans (loans z ++ [loan]) z)
  | Throw _ => z
  end.

(** *** manageEnclosures *)

Definition build (capacity typeChoice climateChoice : Z) (z : t) : t :=
  let animalType := if typeChoice =? 1 then HERBIVORE else CARNIVORE in
  let climate :=
    match climateChoice with
    | 1 => TROPICAL
    | 2 => TEMPERATE
    | 3 => ARCTIC
    | _ => TEMPERATE
    end in
  let cost := capacity * 50 in
  if (money z >=? Double.of_int cost)%D then
    let newId :=
      match enclosures z with
      | [] => 1
      | _ => back_id (enclosures z) + 1
      end in
    set_money (money z - Double.of_int cost)%D
      (set_enclosures
         (enclosures z
          ++ [Enclosure.make newId capacity animalType climate (capacity * 2)])
         z)
  else z.

(** *** manageBreeding *)

Definition breed (first second : Z) (z : t) : t :=
  if Z.of_nat (List.length (animals z)) <? 2 then z
  else if first =? 0 then z
  else if second =? 0 then z
  else if first =? second then z
  else
    match nth_error (animals z) (Z.to_nat (first - 1)),
          nth_error (animals z) (Z.to_nat (second - 1)) with
    | Some a, Some b =>
        if negb (Animal.enclosureId a =? Animal.enclosureId b) then z
        else if negb (existsb
                        (fun enc => (Enclosure.id enc =? Animal.enclosureId a)
                                    && Enclosure.canAddAnimal enc a)
                        (enclosures z))
        then z
        else
          match Animal.operator_plus a b (nextId z) (crand z) with
          | Ok (newborn, id', g) =>
              set_totalAnimals (totalAnimals z + 1)
                (set_animals (animals z ++ [newborn])
                  (set_enclosures
                    (on_enclosure (Animal.enclosureId newborn)
                       (Enclosure.addAnimal newborn) (enclosures z))
                    (set_crand g (set_nextId id' z))))
          | Throw _ => z
          end
    | _, _ => z
    end.

(** *** nextDay *)

(** What both death branches do to the dead animal [it]: erase it from the
    first enclosure with its identity and count it out.  Leaving it out of
    the rebuilt registry is the caller's [animals.erase(it)]. *)
Definition bury (it : Animal.t) (z : t) : t :=
  set_totalAnimals (totalAnimals z - 1)
    (set_enclosures
       (on_enclosure (Animal.enclosureId it)
          (Enclosure.removeAnimal (Animal.uniqueId it)) (enclosures z)) z).

Definition keep (it : Animal.t) (z : t) : t :=
  set_animals (animals z ++ [it]) z.

(** The two erase-while-iterating loops run over the registry as it was
    when the loop started; [animals z] holds the part already visited and
    kept.  Nothing in their bodies reads the registry. *)

(** One iteration of the ageing loop. *)
Definition age_visit (z : t) (it : Animal.t) : t :=
  let it := Animal.incrementAgeDays (Animal.incrementDaysSincePurchase it) in
  if 30 <? Animal.ageDays it then
    let '(roll, g) := random 0 99 (crand z) in
    let z := set_crand g z in
    if roll <? Animal.ageDays it then bury it z else keep it z
  else keep it z.

Definition age_all (z : t) : t :=
  fold_left age_visit (animals z) (set_animals [] z).

(** One iteration of the loop over the workers. *)
Definition worker_day (worker : Worker.t) : Worker.t :=
  let worker := Worker.decrementDaysAssigned (Worker.incrementDaysWorked worker) in
  if Worker.daysAssigned worker =? 0
  then Worker.clearAssignedEnclosures worker else worker.

Definition work_all (z : t) : t := set_workers (map worker_day (workers z)) z.

(** One iteration of the sickness loop. *)
Definition sicken_visit (z : t) (animal : Animal.t) : t :=
  if Animal.isSick animal then keep animal z
  else
    let '(roll, g) := random 0 99 (crand z) in
    keep (if roll <? 10 then Animal.setSick true animal else animal)
         (set_crand g z).

Definition sicken_all (z : t) : t :=
  fold_left sicken_visit (animals z) (set_animals [] z).

(** The inner loop of a veterinarian over the registry. *)
Fixpoint treat (worker : Worker.t) (treated : Z) (todo : list Animal.t)
    (encs : list Enclosure.t) : list Animal.t * list Enclosure.t :=
  match todo with
  | [] => ([], encs)
  | animal :: rest =>
      if Animal.isSick animal && (treated <? Worker.maxAnimals worker)
         && Worker.has_enclosure (Animal.enclosureId animal) worker
      then
        let animal := Animal.setSick false animal in
        let '(done, encs') :=
          treat worker (treated + 1) rest
            (on_enclosure (Animal.enclosureId animal)
               (Enclosure.updateAnimal animal) encs) in
        (animal :: done, encs')
      else
        let '(done, encs') := treat worker treated rest encs in
        (animal :: done, encs')
  end.

Definition heal_visit (z : t) (worker : Worker.t) : t :=
  if WorkerType_eqb (Worker.type worker) VETERINARIAN
     && (0 <? Worker.daysAssigned worker)
  then
    let '(done, encs) := treat worker 0 (animals z) (enclosures z) in
    set_enclosures encs (set_animals done z)
  else z.

Definition heal_all (z : t) : t := fold_left heal_visit (workers z) z.

Definition foodNeeded (l : list Animal.t) : Z :=
  fold_left
    (fun n animal =>
       n + (if AnimalType_eqb (Animal.type animal) HERBIVORE then 1 else 2))
    l 0.

(** One iteration of the starvation loop. *)
Definition starve_visit (z : t) (it : Animal.t) : t :=
  let '(roll, g) := random 0 99 (crand z) in
  let z := set_crand g z in
  if roll <? 30 then bury it z else keep it z.

Definition feed_all (z : t) : t :=
  let needed := foodNeeded (animals z) in
  if needed <=? food z then set_food (food z - needed) z
  else fold_left starve_visit (animals z) (set_animals [] z).

Definition sickCount (l : list Animal.t) : Z :=
  Z.of_nat (List.length (filter Animal.isSick l)).

Definition drift (z : t) : t :=
  let '(r, g) := random (-10) 10 (crand z) in
  let p := (popularity z
            * (Double.of_int 1 + Double.of_int r / Double.of_int 100))%D in
  let p := (p - Double.of_int (sickCount (animals z)))%D in
  let p := if (p <? Double.of_int 0)%D then Double.of_int 0 else p in
  set_popularity p (set_crand g z).

Definition count_visitors (z : t) : t :=
  set_visitors (Double.to_int (popularity z)) z.

Definition special_guests (z : t) : t :=
  let '(specialRoll, g) := random 0 99 (crand z) in
  let z := set_crand g z in
  if specialRoll <? 20 then
    set_specialVisitorCount 0 (set_specialVisitorType "None" z)
  else if specialRoll <? 30 then
    let '(n, g) := random 1 2 (crand z) in
    set_popularity (popularity z + Double.of_int (n * 10))%D
      (set_specialVisitorCount n
         (set_specialVisitorType "Celebrity" (set_crand g z)))
  else if specialRoll <? 50 then
    let '(n, g) := random 1 3 (crand z) in
    set_popularity (popularity z + Double.of_int (n * 5))%D
      (set_specialVisitorCount n
         (set_specialVisitorType "Photographer" (set_crand g z)))
  else z.

Definition collect_revenue (z : t) : t :=
  set_money (money z + Double.of_int (visitors z * totalAnimals z))%D z.

Definition pay_salaries (z : t) : t :=
  set_money
    (fold_left (fun m worker => (m - Double.of_int (Worker.salary worker))%D)
       (workers z) (money z)) z.

Definition pay_upkeep (z : t) : t :=
  set_money
    (fold_left (fun m enc => (m - Double.of_int (Enclosure.dailyCost enc))%D)
       (enclosures z) (money z)) z.

(** One iteration of the loop over the loans: cash so far, the loan after. *)
Definition loan_visit (m : Double.t) (loan : Loan.t) : Double.t * Loan.t :=
  if 0 <? Loan.daysLeft loan
  then ((m - Loan.dailyRepayment loan)%D,
        Loan.set_daysLeft (Loan.daysLeft loan - 1) loan)
  else (m, loan).

Fixpoint repay (m : Double.t) (todo : list Loan.t) : Double.t * list Loan.t :=
  match todo with
  | [] => (m, [])
  | loan :: rest =>
      let '(m1, loan') := loan_visit m loan in
      let '(m2, done) := repay m1 rest in
      (m2, loan' :: done)
  end.

Definition serve_loans (z : t) : t :=
  let '(m, served) := repay (money z) (loans z) in
  set_loans (filter (fun loan => negb (Loan.daysLeft loan <=? 0)) served)
    (set_money m z).

Definition begin_day (z : t) : t :=
  set_specialVisitorCount 0
    (set_specialVisitorType "None"
       (refreshMarket (set_animalsBoughtToday 0 (set_day (day z + 1) z)))).

(** The body of [nextDay], cut at the two loops that erase animals. *)
Definition after_ageing (z : t) : t := heal_all (sicken_all (work_all z)).

Definition before_loans (z : t) : t :=
  pay_upkeep
    (pay_salaries
      (collect_revenue (special_guests (count_visitors (drift z))))).

Definition after_feeding (z : t) : t := serve_loans (before_loans z).

Definition nextDay (z : t) : t :=
  after_feeding (feed_all (after_ageing (age_all (begin_day z)))).
End Zoo.

(** ** The menus as a transition system *)

Inductive Action :=
| Purchase (animalChoice encId : Z)
| Sell (sellChoice : Z)
| Rename (renameChoice : Z) (newName : string)
| RefreshMarket
| Hire (name : string) (posChoice : Z) (inputs : list Z)
| Fire (fireChoice : Z)
| Assign (workerChoice encId daysAssigned : Z)
| BuyFood (foodAmount : Z)
| Advertise (adSpend : Z)
| Borrow (amount days : Z)
| Build (capacity typeChoice climateChoice : Z)
| Breed (first second : Z)
| NextDay.

Definition run (a : Action) (z : Zoo.t) : Zoo.t :=
  match a with
  | Purchase animalChoice encId => Zoo.purchase animalChoice encId z
  | Sell sellChoice => Zoo.sell sellChoice z
  | Rename renameChoice newName => Zoo.rename renameChoice newName z
  | RefreshMarket => Zoo.refresh_for_fee z
  | Hire n posChoice inputs => Zoo.hire n posChoice inputs z
  | Fire fireChoice => Zoo.fire fireChoice z
  | Assign workerChoice encId daysAssigned =>
      Zoo.assign workerChoice encId daysAssigned z
  | BuyFood foodAmount => Zoo.buyFood foodAmount z
  | Advertise adSpend => Zoo.advertise adSpend z
  | Borrow amount days => Zoo.borrow amount days z
  | Build capacity typeChoice climateChoice =>
      Zoo.build capacity typeChoice climateChoice z
  | Breed first second => Zoo.breed first second z
  | NextDay => Zoo.nextDay z
  end.

(** [getValidInput(prompt, minVal, maxVal)] only returns values in range. *)
Definition in_range (minVal maxVal value : Z) : bool :=
  (minVal <=? value) && (value <=? maxVal).

(** The values the prompts of each menu entry can hand back in state [z]. *)
Definition valid_input (z : Zoo.t) (a : Action) : bool :=
  let animalsSize := Z.of_nat (List.length (Zoo.animals z)) in
  let backId := Zoo.back_id (Zoo.enclosures z) in
  match a with
  | Purchase animalChoice encId =>
      in_range 0 (Z.of_nat (List.length (Zoo.marketAnimals z))) animalChoice
      && in_range 1 backId encId
  | Sell sellChoice => in_range 0 animalsSize sellChoice
  | Rename renameChoice _ => in_range 0 animalsSize renameChoice
  | RefreshMarket => true
  | Hire n posChoice inputs =>
      negb (n =? "")%string && in_range 1 3 posChoice
      && forallb (in_range (if posChoice =? 2 then 1 else 0) backId) inputs
  | Fire fireChoice =>
      in_range 0 (Z.of_nat (List.length (Zoo.workers z))) fireChoice
  | Assign workerChoice encId daysAssigned =>
      in_range 0 (Z.of_nat (List.length (Zoo.workers z))) workerChoice
      && in_range 0 backId encId && in_range 1 365 daysAssigned
  | BuyFood foodAmount => in_range 0 10000 foodAmount
  | Advertise adSpend => in_range 0 10000 adSpend
  | Borrow amount days => in_range 1 1000000 amount && in_range 1 20 days
  | Build capacity typeChoice climateChoice =>
      in_range 1 100 capacity && in_range 1 2 typeChoice
      && in_range 1 3 climateChoice
  | Breed first second =>
      in_range 0 animalsSize first && in_range 0 animalsSize second
  | NextDay => true
  end.

(** The states a game can be in: [playGame] starts from the constructor and
    applies menu entries (it also stops after day 20 or on negative cash,
    which only removes states). *)
Inductive reachable : Zoo.t -> Prop :=
| reach_make (n : string) (rand_tape mt_tape : nat -> nat) :
    reachable (Zoo.make n rand_tape mt_tape)
| reach_run (z : Zoo.t) (a : Action) :
    reachable z -> valid_input z a = true -> reachable (run a z).

(** ** Vocabulary of the statements *)

(** The pairs [operator+] refuses. *)
Definition ineligible (a b : Animal.t) : Prop :=
  Animal.enclosureId a <> Animal.enclosureId b
  \/ Animal.gender a = Animal.gender b
  \/ Animal.ageDays a <= 5
  \/ Animal.ageDays b <= 5.


(** An animal suits an enclosure. *)
Definition fits (a : Animal.t) (e : Enclosure.t) : Prop :=
  Animal.type a = Enclosure.animalType e
  /\ Animal.preferredClimate a = Enclosure.climate e.

(** The invariant of one enclosure: every resident suits it and the
    residents do not outnumber the capacity. *)
Definition enclosure_ok (e : Enclosure.t) : Prop :=
  Forall (fun a => fits a e) (Enclosure.animals e)
  /\ Enclosure.getAnimalCount e <= Enclosure.capacity e.

Definition placement_invariant (z : Zoo.t) : Prop :=
  Forall enclosure_ok (Zoo.enclosures z).

(** Enclosure identities grow along the vector. *)
Fixpoint ascending (ids : list Z) : Prop :=
  match ids with
  | [] => True
  | i :: rest => Forall (fun j => i < j) rest /\ ascending rest
  end.

Definition ids_ascending (encs : list Enclosure.t) : Prop :=
  ascending (map Enclosure.id encs).

(** What never changes in an enclosure. *)
Definition static (e : Enclosure.t) : Z * Z * AnimalType * Climate :=
  (Enclosure.id e, Enclosure.capacity e, Enclosure.animalType e,
   Enclosure.climate e).

(** Every animal of the registry refers to an enclosure that exists and
    that it suits. *)
Definition registry_fits (l : list Animal.t) (encs : list Enclosure.t) : Prop :=
  forall a, In a l ->
    exists e, In e encs /\ Enclosure.id e = Animal.enclosureId a /\ fits a e.

Definition placed (encs : list Enclosure.t) (l : list Animal.t) : Prop :=
  Forall enclosure_ok encs /\ ids_ascending encs /\ registry_fits l encs.

(** Identity and price of an animal. *)
Definition tag (a : Animal.t) : Z * Z := (Animal.uniqueId a, Animal.price a).

(** Identities are pairwise distinct and below the next identity; prices
    are not negative. *)
Definition fresh_tags (tags : list (Z * Z)) (next : Z) : Prop :=
  NoDup (map fst tags)
  /\ Forall (fun t => fst t < next /\ 0 <= snd t) tags.

Definition identified (l market : list Animal.t) (next : Z) : Prop :=
  fresh_tags (map tag (l ++ market)) next.

Definition loans_active (loans : list Loan.t) : Prop :=
  Forall (fun loan => 0 < Loan.daysLeft loan) loans.

(** The invariant of the aggregate, on the fields it reads. *)
Definition Inv_on (encs : list Enclosure.t) (l market : list Animal.t)
    (next : Z) (loans : list Loan.t) : Prop :=
  placed encs l /\ identified l market next /\ loans_active loans.

Definition Inv (z : Zoo.t) : Prop :=
  Inv_on (Zoo.enclosures z) (Zoo.animals z) (Zoo.marketAnimals z)
    (Zoo.nextId z) (Zoo.loans z).

(** Two records of the same animal: they differ at most in name, age, days
    since purchase and sickness. *)
Definition kin (a' a : Animal.t) : Prop :=
  tag a' = tag a
  /\ Animal.type a' = Animal.type a
  /\ Animal.preferredClimate a' = Animal.preferredClimate a
  /\ Animal.enclosureId a' = Animal.enclosureId a.

(** The loans left of [loans] after [n] days: those with more than [n] days
    to run, each with [n] days less. *)
Definition amortise (n : nat) (loans : list Loan.t) : list Loan.t :=
  map (fun loan => Loan.set_daysLeft (Loan.daysLeft loan - Z.of_nat n) loan)
    (filter (fun loan => Z.of_nat n <? Loan.daysLeft loan) loans).

(** An animal one day older, as the ageing loop leaves it. *)
Definition grow (it : Animal.t) : Animal.t :=
  Animal.incrementAgeDays (Animal.incrementDaysSincePurchase it).

(** The identities of a list of animals. *)
Definition ids (l : list Animal.t) : list Z := map Animal.uniqueId l.

(** The enclosure the loops with [break] reach for identity [i]. *)
Definition enclosure_of (i : Z) (encs : list Enclosure.t) : option Enclosure.t :=
  find (fun e => Enclosure.id e =? i) encs.

(** The random state after [n] further draws. *)
Definition advance (n : nat) (g : Rng) : Rng :=
  {| tape := tape g; pos := (pos g + n)%nat |}.

(** The offers all carry an identity already handed out. *)
Definition market_numbered (z : Zoo.t) : Prop :=
  Forall (fun a => Animal.uniqueId a < Zoo.nextId z) (Zoo.marketAnimals z).

(** Species and price of a row of the catalog. *)
Definition row_species (row : string * Z * Z * Climate * Z * AnimalType) : string :=
  let '(sp, _, _, _, _, _) := row in sp.

Definition row_price (row : string * Z * Z * Climate * Z * AnimalType) : Z :=
  let '(_, _, _, _, p, _) := row in p.

(** The invariant of the erasing loops: it holds of the registry made of
    the part kept so far and the part still to visit. *)
Definition Inv_visiting (z : Zoo.t) (todo : list Animal.t) : Prop :=
  Inv_on (Zoo.enclosures z) (Zoo.animals z ++ todo) (Zoo.marketAnimals z)
    (Zoo.nextId z) (Zoo.loans z).

(** The roll of the [i]-th animal the starvation loop visits, the loop
    starting with [rand()] in state [g]. *)
Definition starve_roll (g : Rng) (i : nat) : Z :=
  Z.rem (Z.of_nat (tape g (pos g + i)%nat)) 100.

(** The animals of [l] with their rolls. *)
Definition rolled (g : Rng) (l : list Animal.t) : list (Animal.t * Z) :=
  combine l (map (starve_roll g) (seq 0 (List.length l))).

(** Those whose roll is below 30, and the others. *)
Definition starved (g : Rng) (l : list Animal.t) : list Animal.t :=
  map fst (filter (fun p => snd p <? 30) (rolled g l)).

Definition spared (g : Rng) (l : list Animal.t) : list Animal.t :=
  map fst (filter (fun p => negb (snd p <? 30)) (rolled g l)).

(** Erasing dead animals from their enclosures, one after the other. *)
Definition detach_all (dead : list Animal.t) (encs : list Enclosure.t)
    : list Enclosure.t :=
  fold_left
    (fun encs it =>
       Zoo.on_enclosure (Animal.enclosureId it)
         (Enclosure.removeAnimal (Animal.uniqueId it)) encs)
    dead encs.

Definition herbivores (l : list Animal.t) : list Animal.t :=
  filter (fun a => AnimalType_eqb (Animal.type a) HERBIVORE) l.

Definition carnivores (l : list Animal.t) : list Animal.t :=
  filter (fun a => negb (AnimalType_eqb (Animal.type a) HERBIVORE)) l.

(** ** Scenarios *)

(** A deer bought on the first day, twenty day-advances later. *)
Definition deer_day_21 : Zoo.t :=
  Nat.iter 20 Zoo.nextDay
    (Zoo.purchase 2 1 (Zoo.make "Z" (fun _ => 0%nat) (fun _ => 0%nat))).

Definition old_deer : Animal.t :=
  Eval vm_compute in
    hd (Animal.make "" "" 0 (Double.of_int 0) TEMPERATE 0 HERBIVORE MALE 0)
       (Zoo.animals deer_day_21).

(** Two herbivores after fifty day-advances: the food is used up. *)
Definition hungry_zoo : Zoo.t :=
  Nat.iter 50 Zoo.nextDay
    (Zoo.purchase 2 1
       (Zoo.purchase 6 1
          (Zoo.make "Z" (fun k => if Nat.ltb k 777 then 99%nat else 0%nat)
             (fun _ => 0%nat)))).
(** ** Vocabulary of the workforce *)

(** The worker that entry 1 of [manageWorkers] pushes onto the staff, as
    [Zoo.hire] builds it. *)
Definition recruit (n : string) (posChoice : Z) (inputs : list Z)
    (encs : list Enclosure.t) : Worker.t :=
  let '(position, maxAnimals) :=
    match posChoice with
    | 1 => (VETERINARIAN, 20)
    | 2 => (CLEANER, 0)
    | 3 => (FEEDER, 0)
    | _ => (CLEANER, 0)
    end in
  let newWorker :=
    Worker.make n position (Worker.getSalaryForType position) maxAnimals [] in
  match encs with
  | [] => newWorker
  | _ =>
    match position with
    | CLEANER =>
        match inputs with
        | encId :: _ =>
            if Zoo.known_enclosure encId encs
            then Worker.assignEnclosure encId newWorker else newWorker
        | [] => newWorker
        end
    | FEEDER => Zoo.hire_feeder 2 inputs encs newWorker
    | VETERINARIAN => Zoo.hire_veterinarian inputs encs 0 newWorker
    | DIRECTOR => newWorker
    end
  end.

(** The most enclosures entry 4 of [manageWorkers] lets a worker hold. *)
Definition maxEnclosures (ty : WorkerType) : Z :=
  match ty with
  | CLEANER => 1
  | FEEDER => 2
  | _ => Zoo.INT_MAX
  end.

(** How one menu entry can change the staff. *)
Inductive staff_step (encs : list Enclosure.t)
  : list Worker.t -> list Worker.t -> Prop :=
| staff_same ws : staff_step encs ws ws
| staff_hire ws n posChoice inputs :
    staff_step encs ws (ws ++ [recruit n posChoice inputs encs])
| staff_fire ws k w :
    nth_error ws k = Some w -> Worker.type w <> DIRECTOR ->
    (2 <= List.length ws)%nat ->
    staff_step encs ws (erase_at k ws)
| staff_assign ws k w encId daysAssigned :
    nth_error ws k = Some w -> Worker.type w <> DIRECTOR ->
    Worker.has_enclosure encId w = false ->
    Zoo.known_enclosure encId encs = true ->
    Z.of_nat (List.length (Worker.assignedEnclosures w))
    < maxEnclosures (Worker.type w) ->
    1 <= daysAssigned <= 365 ->
    staff_step encs ws
      (assign_at k
         (Worker.setDaysAssigned daysAssigned (Worker.assignEnclosure encId w))
         ws)
| staff_day ws : staff_step encs ws (map Zoo.worker_day ws).

(** The rules of the roster: the director comes first and is the only
    one. *)
Definition directed (ws : list Worker.t) : Prop :=
  exists d rest,
    ws = d :: rest /\ Worker.type d = DIRECTOR
    /\ Forall (fun w => Worker.type w <> DIRECTOR) rest.

(** The terms of a post: pay and, for a veterinarian, the daily number of
    treatments. *)
Definition on_terms (w : Worker.t) : Prop :=
  Worker.salary w = Worker.getSalaryForType (Worker.type w)
  /\ Worker.maxAnimals w
     = (if WorkerType_eqb (Worker.type w) VETERINARIAN then 20 else 0).

(** The duties a worker can hold: no enclosure twice, a cleaner at most
    one, a feeder at most two; the days left of the duty are within the
    prompt's range. *)
Definition within_caps (w : Worker.t) : Prop :=
  NoDup (Worker.assignedEnclosures w)
  /\ (Worker.type w = CLEANER ->
      (List.length (Worker.assignedEnclosures w) <= 1)%nat)
  /\ (Worker.type w = FEEDER ->
      (List.length (Worker.assignedEnclosures w) <= 2)%nat)
  /\ 0 <= Worker.daysAssigned w <= 365.

(** The animals living in the enclosures a worker holds. *)
Definition headcount (encs : list Enclosure.t) (assigned : list Z) : Z :=
  fold_right Z.add 0
    (map (fun i =>
            match enclosure_of i encs with
            | Some e => Enclosure.getAnimalCount e
            | None => 0
            end)
       assigned).

(** What is settled when a worker is hired or assigned, the enclosures
    apart. *)
Definition post (w : Worker.t) : string * WorkerType * Z * Z * Z * Z :=
  (Worker.name w, Worker.type w, Worker.salary w, Worker.daysAssigned w,
   Worker.daysWorked w, Worker.maxAnimals w).

(** ** Vocabulary of the three records of the animals *)

(** Where the enclosures say the animals live: enclosure identity and
    animal identity of every resident, enclosure after enclosure. *)
Definition residents (encs : list Enclosure.t) : list (Z * Z) :=
  flat_map
    (fun e => map (fun a => (Enclosure.id e, Animal.uniqueId a))
                (Enclosure.animals e))
    encs.

(** Where the registry says they live. *)
Definition registered (l : list Animal.t) : list (Z * Z) :=
  map (fun a => (Animal.enclosureId a, Animal.uniqueId a)) l.

(** The counter, the registry and the enclosures agree. *)
Definition consistent_on (encs : list Enclosure.t) (l : list Animal.t)
    (total : Z) : Prop :=
  total = Z.of_nat (List.length l)
  /\ Permutation (residents encs) (registered l).

Definition consistent (z : Zoo.t) : Prop :=
  consistent_on (Zoo.enclosures z) (Zoo.animals z) (Zoo.totalAnimals z).

(** The same during the loops that erase animals. *)
Definition consistent_visiting (z : Zoo.t) (todo : list Animal.t) : Prop :=
  Inv_visiting z todo
  /\ consistent_on (Zoo.enclosures z) (Zoo.animals z ++ todo)
       (Zoo.totalAnimals z).

(** A zoo that has bought the deer on offer, and the deer. *)
Definition deer_zoo : Zoo.t :=
  run (Purchase 2 1) (Zoo.make "Z" (fun _ => 0%nat) (fun _ => 0%nat)).

Definition young_deer : Animal.t :=
  Eval vm_compute in
    hd (Animal.make "" "" 0 (Double.of_int 0) TEMPERATE 0 HERBIVORE MALE 0)
       (Zoo.animals deer_zoo).

(** ** Vocabulary of the calendar and the game loop *)

(** The special guests on display: kind and number. *)
Definition guests (z : Zoo.t) : string * Z :=
  (Zoo.specialVisitorType z, Zoo.specialVisitorCount z).

(** The three things the guest roll of a day can leave. *)
Definition guests_ok (g : string * Z) : Prop :=
  g = ("None", 0)
  \/ (fst g = "Celebrity" /\ 1 <= snd g <= 2)
  \/ (fst g = "Photographer" /\ 1 <= snd g <= 3).

(** [getValidInput(prompt, minVal, maxVal)].  [attempts] are the values the
    successive [cin >> value] extract, [None] where the extraction fails;
    after each attempt the rest of the line is discarded.  The result is
    the value handed back and the input left; [None] when the input ends
    with the prompt still repeating. *)
Fixpoint getValidInput (minVal maxVal : Z) (attempts : list (option Z))
    : option (Z * list (option Z)) :=
  match attempts with
  | [] => None
  | Some value :: rest =>
      if (minVal <=? value) && (value <=? maxVal) then Some (value, rest)
      else getValidInput minVal maxVal rest
  | None :: rest => getValidInput minVal maxVal rest
  end.

(** How [playGame] ends: out of money after a day advance, past the last
    day, or (the script being used up) still at the menu. *)
Inductive Outcome :=
| Bankrupt (z : Zoo.t)
| Completed (z : Zoo.t)
| AtMenu (z : Zoo.t).

Definition maxDays : Z := 20.

(** [playGame], the menu entries chosen being [script].  The test of the
    [while] is made at the main menu only, which is where the day can
    change; the test for negative cash follows a day advance. *)
Fixpoint playGame (script : list Action) (z : Zoo.t) : Outcome :=
  if Zoo.day z <=? maxDays then
    match script with
    | [] => AtMenu z
    | NextDay :: rest =>
        let z' := Zoo.nextDay z in
        if (Zoo.money z' <? Double.of_int 0)%D then Bankrupt z'
        else playGame rest z'
    | a :: rest => playGame rest (run a z)
    end
  else Completed z.

(** The number of day advances in a script. *)
Definition advances (script : list Action) : Z :=
  Z.of_nat
    (List.length
       (filter (fun a => match a with NextDay => true | _ => false end) script)).

(** An attempt the prompt rejects. *)
Definition rejected (minVal maxVal : Z) (attempt : option Z) : Prop :=
  match attempt with
  | Some value => in_range minVal maxVal value = false
  | None => True
  end.

(** Running a script of menu entries. *)
Definition play (script : list Action) (z : Zoo.t) : Zoo.t :=
  fold_left (fun s a => run a s) script z.

(** ** Vocabulary of the enclosures as built *)

(** What is fixed when an enclosure is built: identity, capacity, diet,
    climate and daily cost. *)
Definition deed (e : Enclosure.t) : Z * Z * AnimalType * Climate * Z :=
  (Enclosure.id e, Enclosure.capacity e, Enclosure.animalType e,
   Enclosure.climate e, Enclosure.dailyCost e).

Definition deeds (z : Zoo.t) : list (Z * Z * AnimalType * Climate * Z) :=
  map deed (Zoo.enclosures z).

(** The enclosures are numbered 1, 2, 3, ... in the order of the vector. *)
Definition numbered (encs : list Enclosure.t) : Prop :=
  map Enclosure.id encs
  = map Z.of_nat (seq 1 (List.length encs)).

(** The sizes the building prompt allows, and the upkeep that goes with
    them. *)
Definition as_built (e : Enclosure.t) : Prop :=
  1 <= Enclosure.capacity e <= 100
  /\ Enclosure.dailyCost e = 2 * Enclosure.capacity e
  /\ Enclosure.to_size_t (Enclosure.capacity e) = Enclosure.capacity e.

(** ** Vocabulary of the registry over a day *)

(** A registry that lost animals at most: every entry is an entry of the
    old one, at its address, and there are no more of them. *)
Definition dwindled (l' l : list Animal.t) : Prop :=
  incl (registered l') (registered l)
  /\ (List.length l' <= List.length l)%nat.

(** ** Vocabulary of the opening day *)

(** A state with the opening position of the constructor in cash, food,
    popularity, enclosures, staff and loans, whatever the registry holds:
    the counter of animals is within the capacity of the one enclosure
    and no animal is sick. *)
Definition opening (z : Zoo.t) : Prop :=
  Zoo.money z = Double.of_int 1488
  /\ Zoo.food z = 100
  /\ Zoo.popularity z = Double.of_int 50
  /\ map deed (Zoo.enclosures z) = [(1, 5, HERBIVORE, TEMPERATE, 10)]
  /\ Zoo.workers z = Zoo.initial_workers
  /\ Zoo.loans z = []
  /\ 0 <= Zoo.totalAnimals z <= 5
  /\ Zoo.sickCount (Zoo.animals z) = 0.

(** The opening position with a deer in the enclosure. *)
Definition deer_opening : Zoo.t :=
  Zoo.set_money (Double.of_int 1488)
    (Zoo.purchase 2 1 (Zoo.make "Z" (fun _ => 60%nat) (fun _ => 0%nat))).

(** ** Vocabulary of the food orders *)

(** Every entry of a script is one the prompts can hand back in the state
    it is chosen in. *)
Fixpoint valid_play (script : list Action) (z : Zoo.t) : bool :=
  match script with
  | [] => true
  | a :: rest => valid_input z a && valid_play rest (run a z)
  end.

(** The food ordered in a script, whether or not the zoo could pay. *)
Definition food_ordered (script : list Action) : Z :=
  fold_right
    (fun a n => match a with BuyFood foodAmount => foodAmount + n | _ => n end)
    0 script.

(** * Properties *)

(** ** Loops and frames *)

Lemma fold_left_frame {A S B} (proj : S -> B) (f : S -> A -> S) :
  (forall s a, proj (f s a) = proj s) ->
  forall l s, proj (fold_left f l s) = proj s.
Proof.
  intros Hf l; induction l as [|a l IH]; intros s; simpl; [reflexivity|].
  rewrite IH; apply Hf.
Qed.

Lemma fold_left_invariant {A S} (f : S -> A -> S) (J : S -> list A -> Prop) :
  (forall s a rest, J s (a :: rest) -> J (f s a) rest) ->
  forall l s, J s l -> J (fold_left f l s) [].
Proof.
  intros Hf l; induction l as [|a l IH]; intros s Hs; simpl; [exact Hs|].
  apply IH, Hf, Hs.
Qed.

(** Case analysis on every draw and test of a loop body. *)
Ltac branches :=
  repeat match goal with
         | |- context [let '(_, _) := ?x in _] => destruct x
         | |- context [if ?b then _ else _] => destruct b
         end.

(** Reading a field through an assignment to another field.  The equation
    is proved with the assigned state abstracted, so that no step of a
    proof ever compares two large states. *)
Ltac through_set :=
  match goal with
  | |- context [?p (?s ?x ?e)] =>
      lazymatch type of e with Zoo.t => idtac end;
      lazymatch type of (s x e) with Zoo.t => idtac end;
      let H := fresh in
      assert (H : forall e', p (s x e') = p e') by (intro; reflexivity);
      rewrite (H e); clear H
  end.

Ltac frame_of_visit :=
  intros;
  unfold Zoo.age_visit, Zoo.sicken_visit, Zoo.starve_visit, Zoo.heal_visit,
    Zoo.bury, Zoo.keep;
  branches; reflexivity.

Section Frames.
Context {B : Type} (proj : Zoo.t -> B).

(** A projection that does not look at the registry, the enclosures, the
    counter of animals or the state of [rand()]. *)
Hypothesis proj_animals : forall l z, proj (Zoo.set_animals l z) = proj z.
Hypothesis proj_enclosures : forall l z, proj (Zoo.set_enclosures l z) = proj z.
Hypothesis proj_total : forall n z, proj (Zoo.set_totalAnimals n z) = proj z.
Hypothesis proj_crand : forall g z, proj (Zoo.set_crand g z) = proj z.

Lemma frame_bury it z : proj (Zoo.bury it z) = proj z.
Proof. unfold Zoo.bury. now rewrite proj_total, proj_enclosures. Qed.

Lemma frame_keep it z : proj (Zoo.keep it z) = proj z.
Proof. unfold Zoo.keep. apply proj_animals. Qed.

Lemma frame_age_visit z it : proj (Zoo.age_visit z it) = proj z.
Proof.
  unfold Zoo.age_visit. branches;
    rewrite ?frame_bury, ?frame_keep, ?proj_crand; reflexivity.
Qed.

Lemma frame_age_all z : proj (Zoo.age_all z) = proj z.
Proof.
  unfold Zoo.age_all.
  rewrite (fold_left_frame proj _ frame_age_visit). apply proj_animals.
Qed.

Lemma frame_sicken_visit z a : proj (Zoo.sicken_visit z a) = proj z.
Proof.
  unfold Zoo.sicken_visit. branches;
    rewrite ?frame_keep, ?proj_crand; reflexivity.
Qed.

Lemma frame_sicken_all z : proj (Zoo.sicken_all z) = proj z.
Proof.
  unfold Zoo.sicken_all.
  rewrite (fold_left_frame proj _ frame_sicken_visit). apply proj_animals.
Qed.

Lemma frame_heal_visit z w : proj (Zoo.heal_visit z w) = proj z.
Proof.
  unfold Zoo.heal_visit. branches;
    rewrite ?proj_enclosures, ?proj_animals; reflexivity.
Qed.

Lemma frame_heal_all z : proj (Zoo.heal_all z) = proj z.
Proof. unfold Zoo.heal_all. apply (fold_left_frame proj _ frame_heal_visit). Qed.

Lemma frame_starve_visit z it : proj (Zoo.starve_visit z it) = proj z.
Proof.
  unfold Zoo.starve_visit. branches;
    rewrite ?frame_bury, ?frame_keep, ?proj_crand; reflexivity.
Qed.

Lemma frame_starving z l :
  proj (fold_left Zoo.starve_visit l z) = proj z.
Proof. apply (fold_left_frame proj _ frame_starve_visit). Qed.
End Frames.

Lemma workers_refreshMarket z :
  Zoo.workers (Zoo.refreshMarket z) = Zoo.workers z.
Proof. unfold Zoo.refreshMarket. branches. reflexivity. Qed.

Lemma loans_refreshMarket z : Zoo.loans (Zoo.refreshMarket z) = Zoo.loans z.
Proof. unfold Zoo.refreshMarket. branches. reflexivity. Qed.

Lemma workers_feed_all z : Zoo.workers (Zoo.feed_all z) = Zoo.workers z.
Proof.
  unfold Zoo.feed_all. destruct (_ <=? _); [reflexivity|].
  now rewrite (frame_starving Zoo.workers).
Qed.

Lemma loans_feed_all z : Zoo.loans (Zoo.feed_all z) = Zoo.loans z.
Proof.
  unfold Zoo.feed_all. destruct (_ <=? _); [reflexivity|].
  now rewrite (frame_starving Zoo.loans).
Qed.

Lemma workers_special_guests z :
  Zoo.workers (Zoo.special_guests z) = Zoo.workers z.
Proof. unfold Zoo.special_guests. branches; reflexivity. Qed.

Lemma loans_special_guests z :
  Zoo.loans (Zoo.special_guests z) = Zoo.loans z.
Proof. unfold Zoo.special_guests. branches; reflexivity. Qed.

Lemma workers_drift z : Zoo.workers (Zoo.drift z) = Zoo.workers z.
Proof. unfold Zoo.drift. branches; reflexivity. Qed.

Lemma loans_drift z : Zoo.loans (Zoo.drift z) = Zoo.loans z.
Proof. unfold Zoo.drift. branches; reflexivity. Qed.

Lemma workers_after_feeding z :
  Zoo.workers (Zoo.after_feeding z) = Zoo.workers z.
Proof.
  unfold Zoo.after_feeding, Zoo.serve_loans, Zoo.before_loans.
  destruct (Zoo.repay _ _).
  unfold Zoo.pay_upkeep, Zoo.pay_salaries, Zoo.collect_revenue,
    Zoo.count_visitors.
  repeat first
    [ rewrite workers_special_guests | rewrite workers_drift | through_set ].
  reflexivity.
Qed.

Lemma workers_after_ageing z :
  Zoo.workers (Zoo.after_ageing z) = map Zoo.worker_day (Zoo.workers z).
Proof.
  unfold Zoo.after_ageing.
  rewrite (frame_heal_all Zoo.workers), (frame_sicken_all Zoo.workers);
    reflexivity.
Qed.

Lemma workers_nextDay z :
  Zoo.workers (Zoo.nextDay z) = map Zoo.worker_day (Zoo.workers z).
Proof.
  unfold Zoo.nextDay.
  rewrite workers_after_feeding, workers_feed_all, workers_after_ageing.
  rewrite (frame_age_all Zoo.workers) by reflexivity.
  unfold Zoo.begin_day, Zoo.work_all. repeat through_set.
  rewrite workers_refreshMarket. reflexivity.
Qed.

(** ** The workers' day *)

(** C8 (as amended).  In every day-advance each worker is replaced, in
    place, by its image under the loop body: days-worked grows by exactly 1,
    the assignment duration drops by 1 only when it was positive, and the
    enclosure assignments are emptied exactly when the duration is 0 after
    that step - whether this decrement brought it to 0 or it was 0 already.
    No worker is removed. *)
Theorem worker_day_effect :
  forall z,
    Zoo.workers (Zoo.nextDay z) = map Zoo.worker_day (Zoo.workers z)
    /\ List.length (Zoo.workers (Zoo.nextDay z)) = List.length (Zoo.workers z)
    /\ forall w,
         let w' := Zoo.worker_day w in
         Worker.daysWorked w' = Worker.daysWorked w + 1
         /\ Worker.daysAssigned w'
            = (if 0 <? Worker.daysAssigned w
               then Worker.daysAssigned w - 1 else Worker.daysAssigned w)
         /\ Worker.assignedEnclosures w'
            = (if Worker.daysAssigned w' =? 0
               then [] else Worker.assignedEnclosures w)
         /\ Worker.name w' = Worker.name w
         /\ Worker.type w' = Worker.type w
         /\ Worker.salary w' = Worker.salary w
         /\ Worker.maxAnimals w' = Worker.maxAnimals w.
Proof.
  intros z. split; [apply workers_nextDay|].
  split; [rewrite workers_nextDay; apply length_map|].
  intros w w'. subst w'.
  unfold Zoo.worker_day, Worker.decrementDaysAssigned,
    Worker.incrementDaysWorked, Worker.clearAssignedEnclosures,
    Worker.setDaysAssigned, Worker.set_assignedEnclosures.
  destruct w as [n ty sal encs da dw ma]; cbn.
  destruct (0 <? da); cbn.
  - destruct (da - 1 =? 0) eqn:Hz; cbn; rewrite ?Hz; repeat split; reflexivity.
  - destruct (da =? 0) eqn:Hz; cbn; rewrite ?Hz; repeat split; reflexivity.
Qed.

(** C8 as stated fails: the cleaner the constructor creates holds enclosure 1
    with a duration of 0; the first day-advance does not decrement that
    duration (it is not positive), yet it empties the assignments. *)
Lemma worker_day_counterexample :
  let z := Zoo.make "Z" (fun _ => 0%nat) (fun _ => 0%nat) in
  let w := Worker.make "тринити" CLEANER 30 0 [1] in
  nth_error (Zoo.workers z) 1 = Some w
  /\ Worker.daysAssigned w = 0
  /\ Worker.daysAssigned (Zoo.worker_day w) = Worker.daysAssigned w
  /\ Worker.assignedEnclosures w = [1]
  /\ nth_error (Zoo.workers (Zoo.nextDay z)) 1 = Some (Zoo.worker_day w)
  /\ Worker.assignedEnclosures (Zoo.worker_day w) = []
  /\ ~ (forall w0, In w0 (Zoo.workers z) ->
          Worker.assignedEnclosures w0 <> [] ->
          Worker.assignedEnclosures (Zoo.worker_day w0) = [] ->
          0 < Worker.daysAssigned w0
          /\ Worker.daysAssigned (Zoo.worker_day w0) = 0).
Proof.
  cbv zeta. repeat split; try (vm_compute; reflexivity).
  intros H.
  destruct (H (Worker.make "тринити" CLEANER 30 0 [1])) as [Hpos _].
  - vm_compute. right; left; reflexivity.
  - discriminate.
  - reflexivity.
  - vm_compute in Hpos. discriminate.
Qed.

(** ** Breeding: refusal *)

Lemma Gender_eqb_eq x y : Gender_eqb x y = true <-> x = y.
Proof. destruct x, y; simpl; split; congruence. Qed.

Lemma AnimalType_eqb_eq x y : AnimalType_eqb x y = true <-> x = y.
Proof. destruct x, y; simpl; split; congruence. Qed.

Lemma Climate_eqb_eq x y : Climate_eqb x y = true <-> x = y.
Proof. destruct x, y; simpl; split; congruence. Qed.

Lemma operator_plus_guard a b :
  negb (Animal.enclosureId a =? Animal.enclosureId b)
  || Gender_eqb (Animal.gender a) (Animal.gender b)
  || (Animal.ageDays a <=? 5) || (Animal.ageDays b <=? 5) = true
  <-> ineligible a b.
Proof.
  unfold ineligible.
  rewrite !orb_true_iff, negb_true_iff, Z.eqb_neq, Gender_eqb_eq, !Z.leb_le.
  tauto.
Qed.

Lemma operator_plus_throws a b id g :
  (exists what, Animal.operator_plus a b id g = Throw what) <-> ineligible a b.
Proof.
  rewrite <- operator_plus_guard. unfold Animal.operator_plus.
  destruct (_ || _ || _ || _).
  - split; [reflexivity | eauto].
  - destruct (draw g). split; [intros [what H]; discriminate | discriminate].
Qed.

(** C5.  [operator+] throws exactly for a pair in different enclosures, of
    the same sex, or with a parent of age at most 5; and a breeding request
    whose pair is refused returns the very state it was given: registry,
    enclosures, counter of animals, next identity and [rand()] state. *)
Theorem breed_refusal :
  (forall a b id g,
      (exists what, Animal.operator_plus a b id g = Throw what)
      <-> ineligible a b)
  /\ (forall z first second a b,
         nth_error (Zoo.animals z) (Z.to_nat (first - 1)) = Some a ->
         nth_error (Zoo.animals z) (Z.to_nat (second - 1)) = Some b ->
         ineligible a b ->
         Zoo.breed first second z = z).
Proof.
  split; [apply operator_plus_throws|].
  intros z first second a b Ha Hb Hbad.
  unfold Zoo.breed. rewrite Ha, Hb.
  destruct (operator_plus_throws a b (Zoo.nextId z) (Zoo.crand z)) as [_ Hthrow].
  destruct (Hthrow Hbad) as [what ->].
  branches; reflexivity.
Qed.

Lemma breed_refusal_witness :
  let z := Zoo.purchase 5 1
             (Zoo.purchase 2 1 (Zoo.make "Z" (fun _ => 0%nat) (fun _ => 0%nat))) in
  Zoo.breed 1 2 z = z.
Proof.
  cbv zeta.
  eapply (proj2 breed_refusal); [reflexivity | reflexivity |].
  right; left. reflexivity.
Defined.

(** ** Vectors *)

Lemma erase_at_split {A} (v : list A) i x :
  nth_error v i = Some x ->
  exists l1 l2, v = l1 ++ x :: l2 /\ erase_at i v = l1 ++ l2
                /\ List.length l1 = i.
Proof.
  intros H. destruct (nth_error_split v i H) as (l1 & l2 & -> & Hlen).
  exists l1, l2. split; [reflexivity|]. split; [|exact Hlen].
  unfold erase_at. subst i.
  rewrite firstn_app, firstn_all, Nat.sub_diag, app_nil_r.
  replace (S (List.length l1)) with (List.length l1 + 1)%nat by lia.
  rewrite skipn_app, skipn_all2 by lia.
  replace (List.length l1 + 1 - List.length l1)%nat with 1%nat by lia.
  reflexivity.
Qed.

Lemma assign_at_split {A} (v : list A) i x y :
  nth_error v i = Some x ->
  exists l1 l2, v = l1 ++ x :: l2 /\ assign_at i y v = l1 ++ y :: l2.
Proof.
  revert i; induction v as [|h v IH]; intros [|i] H; simpl in H; try discriminate.
  - injection H as ->. exists [], v. split; reflexivity.
  - destruct (IH i H) as (l1 & l2 & -> & E).
    exists (h :: l1), l2. simpl. rewrite E. split; reflexivity.
Qed.

Lemma assign_at_length {A} i (x : A) v :
  List.length (assign_at i x v) = List.length v.
Proof.
  revert i; induction v as [|h v IH]; intros [|i]; simpl; auto.
Qed.

Lemma assign_at_perm {A} (v : list A) j x y :
  nth_error v j = Some y -> Permutation (x :: v) (y :: assign_at j x v).
Proof.
  revert j; induction v as [|h v IH]; intros [|j] H; simpl in H; try discriminate.
  - injection H as ->. simpl. apply perm_swap.
  - simpl. rewrite perm_swap. rewrite (IH j H). apply perm_swap.
Qed.

Lemma swap_at_perm {A} i j (v : list A) : Permutation (swap_at i j v) v.
Proof.
  unfold swap_at.
  destruct (nth_error v i) as [x|] eqn:Hi; [|reflexivity].
  destruct (nth_error v j) as [y|] eqn:Hj; [|reflexivity].
  revert i j Hi Hj; induction v as [|h v IH]; intros [|i] [|j] Hi Hj;
    simpl in *; try discriminate.
  - injection Hi as ->; injection Hj as ->. reflexivity.
  - injection Hi as ->. symmetry. apply assign_at_perm, Hj.
  - injection Hj as ->. symmetry. apply assign_at_perm, Hi.
  - apply perm_skip, IH; assumption.
Qed.

Lemma shuffle_loop_perm {A} steps i (v : list A) g :
  Permutation (fst (shuffle_loop steps i v g)) v.
Proof.
  revert i v g; induction steps as [|steps IH]; intros i v g; simpl.
  - reflexivity.
  - rewrite IH. apply swap_at_perm.
Qed.

Lemma shuffle_perm {A} (v : list A) g : Permutation (fst (shuffle v g)) v.
Proof. apply shuffle_loop_perm. Qed.

Lemma flat_map_at_index_seq {A} (v : list A) :
  flat_map (Zoo.at_index v) (seq 0 (List.length v)) = v.
Proof.
  induction v as [|h v IH]; [reflexivity|].
  simpl. f_equal. rewrite <- seq_shift, flat_map_concat_map, map_map.
  rewrite <- flat_map_concat_map. exact IH.
Qed.

Lemma flat_map_flat_map {A B C} (f : B -> list C) (g : A -> list B) l :
  flat_map (fun x => flat_map f (g x)) l = flat_map f (flat_map g l).
Proof.
  induction l as [|x l IH]; simpl; [reflexivity|].
  rewrite flat_map_app, IH. reflexivity.
Qed.

(** With every index offered, the picking loop of [refreshMarket] returns a
    rearrangement of the vector it picks from. *)
Lemma pick_all_perm {A} (v : list A) (indices : list nat) :
  Permutation indices (seq 0 (List.length v)) ->
  Permutation
    (flat_map (fun i => flat_map (Zoo.at_index v) (Zoo.at_index indices i))
       (seq 0 (List.length v)))
    v.
Proof.
  intros Hperm.
  rewrite flat_map_flat_map.
  assert (Hlen : List.length indices = List.length v).
  { rewrite (Permutation_length Hperm). apply length_seq. }
  rewrite <- Hlen at 1. rewrite flat_map_at_index_seq.
  rewrite (Permutation_flat_map (Zoo.at_index v) Hperm).
  rewrite flat_map_at_index_seq. reflexivity.
Qed.

(** ** Identities and prices *)

Lemma fresh_tags_perm T T' n :
  Permutation T T' -> fresh_tags T n -> fresh_tags T' n.
Proof.
  intros HP [Hnd Hall]. split.
  - eapply Permutation_NoDup; [apply Permutation_map, HP | exact Hnd].
  - eapply Permutation_Forall; eassumption.
Qed.

Lemma fresh_tags_tail t T n : fresh_tags (t :: T) n -> fresh_tags T n.
Proof.
  intros [Hnd Hall]. simpl in Hnd. split.
  - now inversion Hnd.
  - now inversion Hall.
Qed.

Lemma fresh_tags_keep T1 T2 n : fresh_tags (T1 ++ T2) n -> fresh_tags T1 n.
Proof.
  intros [Hnd Hall]. rewrite map_app in Hnd. split.
  - eapply NoDup_app_remove_r, Hnd.
  - apply Forall_app in Hall. tauto.
Qed.

Lemma fresh_tags_drop T1 t T2 n :
  fresh_tags (T1 ++ t :: T2) n -> fresh_tags (T1 ++ T2) n.
Proof.
  intros H. apply (fresh_tags_tail t).
  eapply fresh_tags_perm; [|exact H].
  symmetry. apply Permutation_middle.
Qed.

(** New tags numbered from the old bound on. *)
Lemma fresh_tags_extend T T' n n' :
  n <= n' ->
  fresh_tags T n ->
  NoDup (map fst T') ->
  Forall (fun t => n <= fst t < n' /\ 0 <= snd t) T' ->
  fresh_tags (T ++ T') n'.
Proof.
  intros Hle [Hnd Hall] Hnd' Hall'. split.
  - rewrite map_app. apply NoDup_app; [assumption..|].
    intros i Hi Hi'.
    apply in_map_iff in Hi as (t & <- & Ht).
    apply in_map_iff in Hi' as (t' & E & Ht').
    rewrite Forall_forall in Hall, Hall'.
    specialize (Hall _ Ht). specialize (Hall' _ Ht'). lia.
  - apply Forall_app. split.
    + eapply Forall_impl; [|exact Hall]. simpl. intros; lia.
    + eapply Forall_impl; [|exact Hall']. simpl. intros; lia.
Qed.

Lemma identified_market l market market' n n' :
  n <= n' ->
  identified l market n ->
  NoDup (map Animal.uniqueId market') ->
  Forall (fun a => n <= Animal.uniqueId a < n' /\ 0 <= Animal.price a) market' ->
  identified l market' n'.
Proof.
  unfold identified. intros Hle H Hnd Hall.
  rewrite map_app in *. apply fresh_tags_keep in H.
  apply (fresh_tags_extend _ _ n); try assumption.
  - rewrite map_map. exact Hnd.
  - apply Forall_map. exact Hall.
Qed.

(** ** The market *)

Lemma instantiate_spec rows :
  forall id g l id' g',
    Zoo.instantiate rows id g = (l, id', g') ->
    id' = id + Z.of_nat (List.length rows)
    /\ map Animal.uniqueId l
       = map (fun k => id + Z.of_nat k) (seq 0 (List.length rows))
    /\ map Animal.price l = map row_price rows
    /\ map Animal.species l = map row_species rows
    /\ tape g' = tape g
    /\ pos g' = (pos g + List.length rows)%nat.
Proof.
  induction rows as [|[[[[[sp age] w] c] p] ty] rows IH];
    intros id g l id' g' H; simpl in H.
  - injection H as <- <- <-. simpl. repeat split; lia.
  - destruct (Zoo.instantiate rows (id + 1) _) as [[l1 id1] g1] eqn:E.
    injection H as <- <- <-.
    destruct (IH _ _ _ _ _ E) as (-> & Hid & Hp & Hs & Ht & Hpos).
    simpl. rewrite Hid, Hp, Hs, Ht, Hpos. simpl.
    repeat split; try lia.
    + f_equal; [lia|]. rewrite <- seq_shift, map_map.
      apply map_ext. intros k. lia.
Qed.

Lemma NoDup_offsets id n :
  NoDup (map (fun k => id + Z.of_nat k) (seq 0 n)).
Proof.
  apply Finite.Injective_map_NoDup; [|apply seq_NoDup].
  intros x y. lia.
Qed.

(** What a refresh leaves: a rearrangement of a freshly instantiated
    catalog, numbered from the old [nextId] on. *)
Lemma refreshMarket_spec z :
  exists available g,
    Zoo.getAvailableAnimals (Zoo.nextId z) (Zoo.crand z)
    = (available, Zoo.nextId z + 10, g)
    /\ Permutation (Zoo.marketAnimals (Zoo.refreshMarket z)) available
    /\ Zoo.nextId (Zoo.refreshMarket z) = Zoo.nextId z + 10
    /\ Zoo.crand (Zoo.refreshMarket z) = g.
Proof.
  unfold Zoo.refreshMarket.
  destruct (Zoo.getAvailableAnimals _ _) as [[available id'] g] eqn:E.
  pose proof E as E'. unfold Zoo.getAvailableAnimals in E'.
  apply instantiate_spec in E' as (Hid & Hids & _).
  assert (Hlen : List.length available = 10%nat).
  { rewrite <- (length_map Animal.uniqueId), Hids, length_map, length_seq.
    reflexivity. }
  change (Z.of_nat (List.length Zoo.catalog)) with 10 in Hid. subst id'.
  exists available, g.
  pose proof (shuffle_perm (seq 0 (List.length available)) (Zoo.mt z)) as HP.
  destruct (shuffle _ _) as [indices m]. simpl in HP.
  split; [reflexivity|].
  cbn [Zoo.marketAnimals Zoo.nextId Zoo.crand Zoo.set_mt Zoo.set_crand
       Zoo.set_nextId Zoo.set_marketAnimals].
  split; [|split; reflexivity].
  replace (Z.to_nat (Z.min 10 (Z.of_nat (List.length available))))
    with (List.length available) by (rewrite Hlen; reflexivity).
  apply pick_all_perm, HP.
Qed.

(** ** Enclosures *)

Lemma in_same_key {A B} (f : A -> B) l x y :
  NoDup (map f l) -> In x l -> In y l -> f x = f y -> x = y.
Proof.
  induction l as [|h l IH]; simpl; intros Hnd Hx Hy E; [contradiction|].
  inversion Hnd as [|? ? Hnotin Hnd']; subst.
  destruct Hx as [->|Hx], Hy as [->|Hy]; auto.
  - exfalso. apply Hnotin. rewrite E. apply in_map, Hy.
  - exfalso. apply Hnotin. rewrite <- E. apply in_map, Hx.
Qed.

Lemma ascending_NoDup ids : ascending ids -> NoDup ids.
Proof.
  induction ids as [|i ids IH]; simpl; intros H; constructor.
  - destruct H as [H _]. intros Hin.
    rewrite Forall_forall in H. specialize (H _ Hin). lia.
  - apply IH, H.
Qed.

Lemma ascending_snoc ids i :
  ascending ids -> Forall (fun j => j < i) ids -> ascending (ids ++ [i]).
Proof.
  induction ids as [|j ids IH]; simpl; intros H Hall.
  - split; constructor.
  - destruct H as [Hj H]. inversion Hall; subst. split.
    + apply Forall_app. split; [assumption|]. constructor; [assumption|constructor].
    + apply IH; assumption.
Qed.

Lemma ascending_below_last ids i :
  ascending (ids ++ [i]) -> Forall (fun j => j < i) ids.
Proof.
  induction ids as [|j ids IH]; simpl; intros H; constructor.
  - destruct H as [H _]. apply Forall_app in H as [_ H]. now inversion H.
  - apply IH, H.
Qed.

Lemma back_id_snoc encs e : Zoo.back_id (encs ++ [e]) = Enclosure.id e.
Proof. unfold Zoo.back_id. rewrite rev_unit. reflexivity. Qed.

(** In an ascending vector the last identity is the highest one. *)
Lemma back_id_highest encs :
  ids_ascending encs ->
  Forall (fun e => Enclosure.id e <= Zoo.back_id encs) encs.
Proof.
  unfold ids_ascending.
  destruct encs as [|e0 encs0] using rev_ind; [constructor|]. clear IHencs0.
  intros H. rewrite back_id_snoc. rewrite map_app in H. simpl in H.
  apply ascending_below_last in H.
  apply Forall_app. split.
  - rewrite Forall_map in H. eapply Forall_impl; [|exact H]. simpl; intros; lia.
  - constructor; [lia|constructor].
Qed.

Lemma back_id_in encs :
  encs <> [] -> exists e, In e encs /\ Enclosure.id e = Zoo.back_id encs.
Proof.
  destruct encs as [|e0 encs0] using rev_ind; [congruence|]. intros _.
  exists e0. rewrite back_id_snoc. split; [|reflexivity].
  apply in_or_app. right. left. reflexivity.
Qed.

Lemma ids_of_static encs encs' :
  map static encs' = map static encs ->
  map Enclosure.id encs' = map Enclosure.id encs.
Proof.
  intros H.
  assert (E : forall l, map Enclosure.id l
                        = map (fun s => fst (fst (fst s))) (map static l)).
  { intros l. rewrite map_map. reflexivity. }
  rewrite (E encs'), (E encs), H. reflexivity.
Qed.

Lemma on_enclosure_static i f encs :
  (forall e, static (f e) = static e) ->
  map static (Zoo.on_enclosure i f encs) = map static encs.
Proof.
  intros Hf. induction encs as [|e encs IH]; simpl; [reflexivity|].
  destruct (_ =? _); simpl; [rewrite Hf | rewrite IH]; reflexivity.
Qed.

Lemma on_enclosure_Forall (P : Enclosure.t -> Prop) i f encs :
  Forall P encs ->
  (forall e, In e encs -> Enclosure.id e = i -> P e -> P (f e)) ->
  Forall P (Zoo.on_enclosure i f encs).
Proof.
  induction encs as [|e encs IH]; simpl; intros Hall Hf; [constructor|].
  inversion Hall; subst.
  destruct (Enclosure.id e =? i) eqn:E.
  - constructor; [|assumption]. apply Hf; auto. now apply Z.eqb_eq.
  - constructor; [assumption|]. apply IH; auto.
Qed.

Lemma on_enclosure_In i f encs e' :
  In e' (Zoo.on_enclosure i f encs) ->
  In e' encs \/ exists e, In e encs /\ Enclosure.id e = i /\ e' = f e.
Proof.
  induction encs as [|e encs IH]; simpl; intros H; [contradiction|].
  destruct (Enclosure.id e =? i) eqn:E.
  - destruct H as [<-|H]; [|auto].
    right. exists e. apply Z.eqb_eq in E. auto.
  - destruct H as [<-|H]; [auto|].
    destruct (IH H) as [?|(e0 & ? & ? & ?)]; [auto|].
    right. exists e0. auto.
Qed.

Lemma registry_fits_static l encs encs' :
  map static encs' = map static encs ->
  registry_fits l encs -> registry_fits l encs'.
Proof.
  intros Hst H a Ha. destruct (H a Ha) as (e & He & Hid & Hty & Hcl).
  assert (Hin : In (static e) (map static encs')).
  { rewrite Hst. apply in_map, He. }
  apply in_map_iff in Hin as (e' & E & He').
  exists e'. split; [assumption|].
  unfold static in E. injection E as E1 E2 E3 E4.
  unfold fits. rewrite E1, E3, E4. auto.
Qed.

Lemma registry_fits_like l l' encs :
  (forall a', In a' l' ->
     exists a, In a l /\ Animal.type a' = Animal.type a
               /\ Animal.preferredClimate a' = Animal.preferredClimate a
               /\ Animal.enclosureId a' = Animal.enclosureId a) ->
  registry_fits l encs -> registry_fits l' encs.
Proof.
  intros Hl H a' Ha'. destruct (Hl a' Ha') as (a & Ha & E1 & E2 & E3).
  destruct (H a Ha) as (e & He & Hid & Hty & Hcl).
  exists e. unfold fits. rewrite E1, E2, E3. auto.
Qed.

Lemma enclosure_ok_remove u e :
  enclosure_ok e -> enclosure_ok (Enclosure.removeAnimal u e).
Proof.
  intros [Hall Hcap]. split.
  - unfold Enclosure.removeAnimal. cbn.
    apply Forall_forall. intros a Ha. apply filter_In in Ha as [Ha _].
    rewrite Forall_forall in Hall. apply (Hall a Ha).
  - unfold Enclosure.removeAnimal, Enclosure.getAnimalCount in *. cbn.
    pose proof (filter_length_le
                  (fun a => negb (Animal.uniqueId a =? u)) (Enclosure.animals e)).
    lia.
Qed.

Lemma update_first_length a l :
  List.length (Enclosure.update_first a l) = List.length l.
Proof.
  induction l as [|h l IH]; simpl; [reflexivity|].
  destruct (_ =? _); simpl; [reflexivity | now rewrite IH].
Qed.

Lemma update_first_Forall (P : Animal.t -> Prop) a l :
  P a -> Forall P l -> Forall P (Enclosure.update_first a l).
Proof.
  intros Ha. induction l as [|h l IH]; simpl; intros H; [constructor|].
  inversion H; subst. destruct (_ =? _); constructor; auto.
Qed.

Lemma enclosure_ok_update a e :
  enclosure_ok e -> fits a e -> enclosure_ok (Enclosure.updateAnimal a e).
Proof.
  intros [Hall Hcap] Hfit. split.
  - unfold Enclosure.updateAnimal. cbn.
    apply (update_first_Forall (fun x => fits x e)); assumption.
  - unfold Enclosure.updateAnimal, Enclosure.getAnimalCount in *. cbn.
    rewrite update_first_length. exact Hcap.
Qed.

Lemma canAddAnimal_spec e a :
  Enclosure.canAddAnimal e a = true <->
  Enclosure.getAnimalCount e < Enclosure.to_size_t (Enclosure.capacity e)
  /\ fits a e.
Proof.
  unfold Enclosure.canAddAnimal, fits.
  rewrite !andb_true_iff, Z.ltb_lt, AnimalType_eqb_eq, Climate_eqb_eq. tauto.
Qed.

Lemma to_size_t_le n : 0 <= n -> Enclosure.to_size_t n <= n.
Proof. intros H. unfold Enclosure.to_size_t. apply Z.mod_le; lia. Qed.

Lemma enclosure_ok_add a a0 e :
  enclosure_ok e ->
  Enclosure.canAddAnimal e a0 = true ->
  Animal.type a = Animal.type a0 ->
  Animal.preferredClimate a = Animal.preferredClimate a0 ->
  enclosure_ok (Enclosure.addAnimal a e).
Proof.
  intros [Hall Hcap] Hcan Hty Hcl.
  apply canAddAnimal_spec in Hcan as [Hroom [Hfit1 Hfit2]].
  unfold Enclosure.getAnimalCount in *.
  assert (0 <= Enclosure.capacity e) by lia.
  pose proof (to_size_t_le _ H).
  split.
  - unfold Enclosure.addAnimal. cbn. apply Forall_app. split; [exact Hall|].
    constructor; [|constructor]. unfold fits. rewrite Hty, Hcl. auto.
  - unfold Enclosure.addAnimal, Enclosure.getAnimalCount.
    cbn [Enclosure.animals Enclosure.set_animals Enclosure.capacity].
    rewrite length_app. simpl List.length. lia.
Qed.

(** ** The invariant under the elementary edits *)

Lemma static_set_animals l e : static (Enclosure.set_animals l e) = static e.
Proof. reflexivity. Qed.

Lemma placed_unique encs l e e' :
  placed encs l -> In e encs -> In e' encs ->
  Enclosure.id e = Enclosure.id e' -> e = e'.
Proof.
  intros (_ & Hasc & _). apply in_same_key, ascending_NoDup, Hasc.
Qed.

Lemma placed_change f i encs l :
  placed encs l ->
  (forall e, static (f e) = static e) ->
  (forall e, In e encs -> Enclosure.id e = i -> enclosure_ok e -> enclosure_ok (f e)) ->
  placed (Zoo.on_enclosure i f encs) l.
Proof.
  intros (Hok & Hasc & Hfit) Hst Hf.
  pose proof (on_enclosure_static i f encs Hst) as E.
  split; [|split].
  - apply on_enclosure_Forall; assumption.
  - unfold ids_ascending. rewrite (ids_of_static _ _ E). exact Hasc.
  - eapply registry_fits_static; eassumption.
Qed.

Lemma placed_remove i u encs l :
  placed encs l ->
  placed (Zoo.on_enclosure i (Enclosure.removeAnimal u) encs) l.
Proof.
  intros H. apply placed_change; [exact H | reflexivity |].
  intros e _ _. apply enclosure_ok_remove.
Qed.

Lemma placed_update a encs l :
  placed encs l -> In a l ->
  placed (Zoo.on_enclosure (Animal.enclosureId a) (Enclosure.updateAnimal a) encs) l.
Proof.
  intros H Ha. apply placed_change; [exact H | reflexivity |].
  intros e He Hid Hok. apply enclosure_ok_update; [exact Hok|].
  destruct H as (Hoks & Hasc & Hfit).
  destruct (Hfit a Ha) as (e0 & He0 & Hid0 & Hfit0).
  assert (e = e0) as ->; [|exact Hfit0].
  apply (in_same_key Enclosure.id encs); auto using ascending_NoDup. congruence.
Qed.

Lemma placed_like encs l l' :
  (forall a', In a' l' ->
     exists a, In a l /\ Animal.type a' = Animal.type a
               /\ Animal.preferredClimate a' = Animal.preferredClimate a
               /\ Animal.enclosureId a' = Animal.enclosureId a) ->
  placed encs l -> placed encs l'.
Proof.
  intros Hl (Hok & Hasc & Hfit). split; [|split]; try assumption.
  eapply registry_fits_like; eassumption.
Qed.

Lemma placed_add i a a0 encs l :
  placed encs l ->
  (exists e, In e encs /\ Enclosure.id e = i /\ Enclosure.canAddAnimal e a0 = true) ->
  Animal.type a = Animal.type a0 ->
  Animal.preferredClimate a = Animal.preferredClimate a0 ->
  Animal.enclosureId a = i ->
  placed (Zoo.on_enclosure i (Enclosure.addAnimal a) encs) (l ++ [a]).
Proof.
  intros H (e0 & He0 & Hid0 & Hcan) Hty Hcl Henc.
  assert (Hnew : placed (Zoo.on_enclosure i (Enclosure.addAnimal a) encs) l).
  { apply placed_change; [exact H | reflexivity |].
    intros e He Hid Hok.
    assert (e = e0) as ->
        by (apply (placed_unique encs l); auto; congruence).
    eapply enclosure_ok_add; eassumption. }
  destruct Hnew as (Hok' & Hasc' & Hfit'). split; [|split]; try assumption.
  intros x Hx. apply in_app_or in Hx as [Hx|[<-|[]]]; [apply Hfit', Hx|].
  pose proof (on_enclosure_static i (Enclosure.addAnimal a) encs
                (fun e => eq_refl)) as E.
  assert (Hin : In (static e0) (map static (Zoo.on_enclosure i (Enclosure.addAnimal a) encs))).
  { rewrite E. apply in_map, He0. }
  apply in_map_iff in Hin as (e' & Est & He').
  exists e'. split; [assumption|].
  apply canAddAnimal_spec in Hcan as [_ [Hf1 Hf2]].
  unfold static in Est. injection Est as E1 E2 E3 E4.
  unfold fits. rewrite E1, E3, E4, Hty, Hcl, Henc. auto.
Qed.

Lemma place_In i s encs encs' :
  Zoo.place i s encs = Some encs' ->
  exists e, In e encs /\ Enclosure.id e = i /\ Enclosure.canAddAnimal e s = true.
Proof.
  revert encs'; induction encs as [|e encs IH]; simpl; intros encs' H;
    [discriminate|].
  destruct ((Enclosure.id e =? i) && Enclosure.canAddAnimal e s) eqn:E.
  - apply andb_true_iff in E as [E1 E2]. apply Z.eqb_eq in E1. eauto.
  - destruct (Zoo.place i s encs) as [encs''|]; [|discriminate].
    destruct (IH _ eq_refl) as (e0 & ? & ? & ?). eauto.
Qed.

Lemma place_on_enclosure i s encs encs' :
  NoDup (map Enclosure.id encs) ->
  Zoo.place i s encs = Some encs' ->
  encs' = Zoo.on_enclosure i
            (Enclosure.addAnimal (Animal.setEnclosureId i s)) encs.
Proof.
  revert encs'; induction encs as [|e encs IH]; simpl; intros encs' Hnd H;
    [discriminate|].
  inversion Hnd as [|? ? Hnotin Hnd']; subst.
  destruct (Enclosure.id e =? i) eqn:E1; simpl in H.
  - destruct (Enclosure.canAddAnimal e s); [congruence|].
    destruct (Zoo.place i s encs) as [encs''|] eqn:E; [|discriminate].
    destruct (place_In _ _ _ _ E) as (e0 & He0 & Hid0 & _).
    exfalso. apply Hnotin. apply Z.eqb_eq in E1. rewrite E1, <- Hid0.
    apply in_map, He0.
  - destruct (Zoo.place i s encs) as [encs''|] eqn:E; [|discriminate].
    simpl in H. injection H as <-. f_equal. apply IH; auto.
Qed.

Lemma kin_tags A it it' R market :
  tag it' = tag it ->
  map tag ((A ++ it' :: R) ++ market) = map tag ((A ++ it :: R) ++ market).
Proof. intros E. rewrite !map_app. simpl. rewrite E. reflexivity. Qed.

Lemma Inv_on_kin encs A it it' R market next loans :
  kin it' it ->
  Inv_on encs (A ++ it :: R) market next loans ->
  Inv_on encs (A ++ it' :: R) market next loans.
Proof.
  intros (Etag & Ety & Ecl & Eenc) (Hpl & Hid & Hl). split; [|split].
  - eapply placed_like; [|exact Hpl].
    intros a' Ha'. apply in_app_or in Ha' as [Ha'|[<-|Ha']].
    + exists a'. split; [apply in_or_app; auto | auto].
    + exists it. split; [apply in_elt | auto].
    + exists a'. split; [apply in_or_app; right; right; exact Ha' | auto].
  - unfold identified in *. rewrite (kin_tags _ it). exact Hid. exact Etag.
  - exact Hl.
Qed.

Lemma Inv_on_drop encs A it R market next loans :
  Inv_on encs (A ++ it :: R) market next loans ->
  Inv_on encs (A ++ R) market next loans.
Proof.
  intros (Hpl & Hid & Hl). split; [|split].
  - eapply placed_like; [|exact Hpl].
    intros a' Ha'. exists a'. split; [|auto].
    apply in_app_or in Ha' as [Ha'|Ha']; apply in_or_app; simpl; auto.
  - unfold identified in *. rewrite <- app_assoc in *. simpl in Hid.
    rewrite map_app in *. simpl in Hid. eapply fresh_tags_drop, Hid.
  - exact Hl.
Qed.

Lemma Inv_on_remove i u encs l market next loans :
  Inv_on encs l market next loans ->
  Inv_on (Zoo.on_enclosure i (Enclosure.removeAnimal u) encs) l market next loans.
Proof.
  intros (Hpl & Hid & Hl). split; [|split]; try assumption.
  apply placed_remove, Hpl.
Qed.

Lemma Inv_on_update a encs l market next loans :
  In a l ->
  Inv_on encs l market next loans ->
  Inv_on (Zoo.on_enclosure (Animal.enclosureId a) (Enclosure.updateAnimal a) encs)
    l market next loans.
Proof.
  intros Ha (Hpl & Hid & Hl). split; [|split]; try assumption.
  apply placed_update; assumption.
Qed.

(** ** The invariant through a day *)

Section LateFrames.
Context {B : Type} (proj : Zoo.t -> B).

(** A projection that does not look at what the bookkeeping at the end of
    the day writes. *)
Hypothesis proj_crand : forall g z, proj (Zoo.set_crand g z) = proj z.
Hypothesis proj_popularity : forall p z, proj (Zoo.set_popularity p z) = proj z.
Hypothesis proj_visitors : forall n z, proj (Zoo.set_visitors n z) = proj z.
Hypothesis proj_type : forall s z, proj (Zoo.set_specialVisitorType s z) = proj z.
Hypothesis proj_count : forall n z, proj (Zoo.set_specialVisitorCount n z) = proj z.
Hypothesis proj_money : forall m z, proj (Zoo.set_money m z) = proj z.

Lemma frame_drift z : proj (Zoo.drift z) = proj z.
Proof.
  unfold Zoo.drift. destruct (random _ _ _).
  now rewrite proj_popularity, proj_crand.
Qed.

Lemma frame_special_guests z : proj (Zoo.special_guests z) = proj z.
Proof.
  unfold Zoo.special_guests. branches;
    rewrite ?proj_popularity, ?proj_count, ?proj_type, ?proj_crand;
    reflexivity.
Qed.

Lemma frame_before_loans z : proj (Zoo.before_loans z) = proj z.
Proof.
  unfold Zoo.before_loans, Zoo.pay_upkeep, Zoo.pay_salaries,
    Zoo.collect_revenue, Zoo.count_visitors.
  now rewrite !proj_money, frame_special_guests, proj_visitors, frame_drift.
Qed.

Hypothesis proj_loans : forall l z, proj (Zoo.set_loans l z) = proj z.

Lemma frame_after_feeding z : proj (Zoo.after_feeding z) = proj z.
Proof.
  unfold Zoo.after_feeding, Zoo.serve_loans. destruct (Zoo.repay _ _).
  now rewrite proj_loans, proj_money, frame_before_loans.
Qed.
End LateFrames.

Lemma loans_active_purge served :
  loans_active (filter (fun loan => negb (Loan.daysLeft loan <=? 0)) served).
Proof.
  apply Forall_forall. intros loan H. apply filter_In in H as [_ H].
  apply negb_true_iff, Z.leb_gt in H. exact H.
Qed.

Lemma Inv_after_feeding z : Inv z -> Inv (Zoo.after_feeding z).
Proof.
  intros (Hpl & Hid & _). unfold Inv.
  rewrite (frame_after_feeding Zoo.enclosures), (frame_after_feeding Zoo.animals),
    (frame_after_feeding Zoo.marketAnimals), (frame_after_feeding Zoo.nextId)
    by reflexivity.
  split; [|split]; try assumption.
  unfold Zoo.after_feeding, Zoo.serve_loans. destruct (Zoo.repay _ _).
  repeat through_set. apply loans_active_purge.
Qed.

Lemma Inv_visiting_start z : Inv z -> Inv_visiting (Zoo.set_animals [] z) (Zoo.animals z).
Proof. intros H. exact H. Qed.

Lemma Inv_visiting_end z : Inv_visiting z [] -> Inv z.
Proof. unfold Inv_visiting, Inv. now rewrite app_nil_r. Qed.

Lemma Inv_visiting_keep z it it' rest :
  kin it' it -> Inv_visiting z (it :: rest) -> Inv_visiting (Zoo.keep it' z) rest.
Proof.
  unfold Inv_visiting, Zoo.keep. cbn. intros Hkin H.
  rewrite <- app_assoc. simpl. eapply Inv_on_kin; eassumption.
Qed.

Lemma Inv_visiting_bury z it it' rest :
  Inv_visiting z (it :: rest) -> Inv_visiting (Zoo.bury it' z) rest.
Proof.
  unfold Inv_visiting, Zoo.bury. cbn. intros H.
  apply Inv_on_remove. eapply Inv_on_drop, H.
Qed.

Lemma Inv_visiting_crand z g todo :
  Inv_visiting z todo -> Inv_visiting (Zoo.set_crand g z) todo.
Proof. intros H. exact H. Qed.

Lemma kin_refl a : kin a a.
Proof. repeat split. Qed.

Lemma kin_grow it :
  kin (Animal.incrementAgeDays (Animal.incrementDaysSincePurchase it)) it.
Proof. repeat split. Qed.

Lemma kin_setSick b a : kin (Animal.setSick b a) a.
Proof. repeat split. Qed.

Lemma kin_setDisplayName s a : kin (Animal.setDisplayName s a) a.
Proof. repeat split. Qed.

Lemma Inv_age_visit z it rest :
  Inv_visiting z (it :: rest) -> Inv_visiting (Zoo.age_visit z it) rest.
Proof.
  intros H. unfold Zoo.age_visit.
  destruct (30 <? _); [|eapply Inv_visiting_keep; eauto using kin_grow].
  destruct (random 0 99 _) as [roll g].
  destruct (roll <? _).
  - eapply Inv_visiting_bury, Inv_visiting_crand, H.
  - eapply Inv_visiting_keep; [apply kin_grow|]. apply Inv_visiting_crand, H.
Qed.

Lemma Inv_age_all z : Inv z -> Inv (Zoo.age_all z).
Proof.
  intros H. apply Inv_visiting_end. unfold Zoo.age_all.
  apply (fold_left_invariant Zoo.age_visit Inv_visiting).
  - intros s a rest. apply Inv_age_visit.
  - apply Inv_visiting_start, H.
Qed.

Lemma Inv_sicken_visit z it rest :
  Inv_visiting z (it :: rest) -> Inv_visiting (Zoo.sicken_visit z it) rest.
Proof.
  intros H. unfold Zoo.sicken_visit.
  destruct (Animal.isSick it); [eapply Inv_visiting_keep; eauto using kin_refl|].
  destruct (random 0 99 _) as [roll g].
  eapply Inv_visiting_keep; [|apply Inv_visiting_crand, H].
  destruct (roll <? 10); [apply kin_setSick | apply kin_refl].
Qed.

Lemma Inv_sicken_all z : Inv z -> Inv (Zoo.sicken_all z).
Proof.
  intros H. apply Inv_visiting_end. unfold Zoo.sicken_all.
  apply (fold_left_invariant Zoo.sicken_visit Inv_visiting).
  - intros s a rest. apply Inv_sicken_visit.
  - apply Inv_visiting_start, H.
Qed.

Lemma Inv_starve_visit z it rest :
  Inv_visiting z (it :: rest) -> Inv_visiting (Zoo.starve_visit z it) rest.
Proof.
  intros H. unfold Zoo.starve_visit.
  destruct (random 0 99 _) as [roll g].
  destruct (roll <? 30).
  - eapply Inv_visiting_bury, Inv_visiting_crand, H.
  - eapply Inv_visiting_keep; [apply kin_refl|]. apply Inv_visiting_crand, H.
Qed.

Lemma Inv_feed_all z : Inv z -> Inv (Zoo.feed_all z).
Proof.
  intros H. unfold Zoo.feed_all. destruct (_ <=? _); [exact H|].
  apply Inv_visiting_end.
  apply (fold_left_invariant Zoo.starve_visit Inv_visiting).
  - intros s a rest. apply Inv_starve_visit.
  - apply Inv_visiting_start, H.
Qed.

Lemma Inv_treat worker :
  forall todo treated kept encs market next loans,
    Inv_on encs (kept ++ todo) market next loans ->
    Inv_on (snd (Zoo.treat worker treated todo encs))
      (kept ++ fst (Zoo.treat worker treated todo encs)) market next loans.
Proof.
  induction todo as [|animal rest IH]; intros treated kept encs market next loans H.
  - exact H.
  - simpl. destruct (_ && _ && _).
    + set (healed := Animal.setSick false animal).
      specialize (IH (treated + 1) (kept ++ [healed])
                     (Zoo.on_enclosure (Animal.enclosureId healed)
                        (Enclosure.updateAnimal healed) encs)
                     market next loans).
      destruct (Zoo.treat worker (treated + 1) rest _) as [done encs'].
      simpl in *. rewrite <- !app_assoc in IH. apply IH.
      apply (Inv_on_update healed); [apply in_elt|].
      apply (Inv_on_kin _ _ animal); [apply kin_setSick | exact H].
    + specialize (IH treated (kept ++ [animal]) encs market next loans).
      destruct (Zoo.treat worker treated rest encs) as [done encs'].
      simpl in *. rewrite <- !app_assoc in IH. apply IH. exact H.
Qed.

Lemma Inv_heal_visit z worker : Inv z -> Inv (Zoo.heal_visit z worker).
Proof.
  intros H. unfold Zoo.heal_visit. destruct (_ && _); [|exact H].
  pose proof (Inv_treat worker (Zoo.animals z) 0 [] (Zoo.enclosures z)
                (Zoo.marketAnimals z) (Zoo.nextId z) (Zoo.loans z) H) as H'.
  destruct (Zoo.treat _ _ _ _) as [done encs]. exact H'.
Qed.

Lemma Inv_heal_all z : Inv z -> Inv (Zoo.heal_all z).
Proof.
  intros H. unfold Zoo.heal_all.
  apply (fold_left_invariant Zoo.heal_visit (fun s _ => Inv s)); [|exact H].
  intros s a _. apply Inv_heal_visit.
Qed.

Lemma catalog_prices : Forall (fun row => 0 <= row_price row) Zoo.catalog.
Proof. repeat constructor; simpl; lia. Qed.

Lemma Inv_refreshMarket z : Inv z -> Inv (Zoo.refreshMarket z).
Proof.
  intros (Hpl & Hid & Hl).
  destruct (refreshMarket_spec z) as (available & g & Eav & HP & Hnext & _).
  unfold Zoo.getAvailableAnimals in Eav.
  apply instantiate_spec in Eav as (_ & Hids & Hprices & _).
  assert (Hframe : Zoo.enclosures (Zoo.refreshMarket z) = Zoo.enclosures z
                   /\ Zoo.animals (Zoo.refreshMarket z) = Zoo.animals z
                   /\ Zoo.loans (Zoo.refreshMarket z) = Zoo.loans z).
  { unfold Zoo.refreshMarket. branches. repeat split. }
  destruct Hframe as (E1 & E2 & E3).
  unfold Inv. rewrite E1, E2, E3, Hnext.
  split; [|split]; try assumption.
  apply (identified_market _ (Zoo.marketAnimals z) _ (Zoo.nextId z)); try assumption.
  - lia.
  - eapply Permutation_NoDup; [symmetry; apply Permutation_map, HP|].
    rewrite Hids. apply NoDup_offsets.
  - eapply Permutation_Forall; [symmetry; exact HP|].
    apply Forall_forall. intros a Ha. split.
    + assert (Hin : In (Animal.uniqueId a) (map Animal.uniqueId available))
        by (apply in_map, Ha).
      rewrite Hids in Hin. apply in_map_iff in Hin as (k & <- & Hk).
      apply in_seq in Hk. simpl in Hk. lia.
    + assert (Hin : In (Animal.price a) (map Animal.price available))
        by (apply in_map, Ha).
      rewrite Hprices in Hin. apply in_map_iff in Hin as (row & <- & Hrow).
      pose proof catalog_prices as Hcat. rewrite Forall_forall in Hcat. auto.
Qed.

Lemma Inv_begin_day z : Inv z -> Inv (Zoo.begin_day z).
Proof.
  intros H. unfold Zoo.begin_day.
  apply (Inv_refreshMarket
           (Zoo.set_animalsBoughtToday 0 (Zoo.set_day (Zoo.day z + 1) z))) in H.
  unfold Inv in *. repeat through_set. exact H.
Qed.

Lemma Inv_after_ageing z : Inv z -> Inv (Zoo.after_ageing z).
Proof.
  intros H. unfold Zoo.after_ageing.
  apply Inv_heal_all, Inv_sicken_all. exact H.
Qed.

Lemma Inv_nextDay z : Inv z -> Inv (Zoo.nextDay z).
Proof.
  intros H. unfold Zoo.nextDay.
  apply Inv_after_feeding, Inv_feed_all, Inv_after_ageing, Inv_age_all,
    Inv_begin_day, H.
Qed.

(** ** The invariant through the menus *)

Lemma Inv_make n rand_tape mt_tape : Inv (Zoo.make n rand_tape mt_tape).
Proof.
  unfold Zoo.make. apply Inv_refreshMarket.
  split; [|split].
  - split; [|split].
    + repeat constructor. unfold Enclosure.getAnimalCount. simpl. lia.
    + repeat constructor.
    + intros a [].
  - split; constructor.
  - constructor.
Qed.

Lemma Inv_purchase animalChoice encId z :
  Inv z -> Inv (Zoo.purchase animalChoice encId z).
Proof.
  intros H. unfold Zoo.purchase.
  destruct (_ && _); [exact H|].
  destruct (Zoo.marketAnimals z) as [|m0 market0] eqn:Emarket; [exact H|].
  rewrite <- Emarket.
  destruct (_ && _); [|exact H].
  destruct (nth_error _ _) as [selected|] eqn:Esel; [|exact H].
  destruct (_ >=? _)%D; [|exact H].
  destruct (existsb _ _); [|exact H].
  destruct (Zoo.place _ _ _) as [encs|] eqn:Eplace; [|exact H].
  destruct H as (Hpl & Hid & Hl).
  pose proof Hpl as (_ & Hasc & _).
  apply place_on_enclosure in Eplace as Eencs; [|apply ascending_NoDup, Hasc].
  apply place_In in Eplace.
  destruct (erase_at_split _ _ _ Esel) as (l1 & l2 & Em & Eerase & _).
  unfold Inv. cbn. rewrite Eerase. split; [|split]; [| |exact Hl].
  - subst encs. eapply placed_add; try eassumption; reflexivity.
  - unfold identified in *. rewrite Em in Hid.
    eapply fresh_tags_perm; [|exact Hid].
    rewrite !map_app. simpl.
    change (tag (Animal.setEnclosureId encId selected)) with (tag selected).
    rewrite <- !app_assoc. apply Permutation_app_head. simpl.
    symmetry. apply Permutation_middle.
Qed.

Lemma Inv_sell sellChoice z : Inv z -> Inv (Zoo.sell sellChoice z).
Proof.
  intros H. unfold Zoo.sell.
  destruct (Zoo.animals z) as [|a0 animals0] eqn:Eanimals; [exact H|].
  rewrite <- Eanimals.
  destruct (_ && _); [|exact H].
  destruct (nth_error _ _) as [sold|] eqn:Esold; [|exact H].
  destruct (erase_at_split _ _ _ Esold) as (l1 & l2 & Ea & Eerase & _).
  unfold Inv in *. cbn. rewrite Eerase. rewrite Ea in H.
  apply Inv_on_remove. eapply Inv_on_drop, H.
Qed.

Lemma Inv_rename renameChoice newName z :
  Inv z -> Inv (Zoo.rename renameChoice newName z).
Proof.
  intros H. unfold Zoo.rename.
  destruct (Zoo.animals z) as [|a0 animals0] eqn:Eanimals; [exact H|].
  rewrite <- Eanimals.
  destruct (_ && _); [|exact H].
  destruct (nth_error _ _) as [a|] eqn:Ea; [|exact H].
  destruct (_ =? _)%string; [exact H|].
  destruct (assign_at_split _ _ _ (Animal.setDisplayName newName a) Ea)
    as (l1 & l2 & El & Eassign).
  unfold Inv in *. cbn. rewrite Eassign. rewrite El in H.
  apply (Inv_on_update (Animal.setDisplayName newName a)); [apply in_elt|].
  eapply Inv_on_kin; [apply kin_setDisplayName | exact H].
Qed.

Lemma Inv_refresh_for_fee z : Inv z -> Inv (Zoo.refresh_for_fee z).
Proof.
  intros H. unfold Zoo.refresh_for_fee. destruct (_ >=? _)%D; [|exact H].
  apply Inv_refreshMarket. exact H.
Qed.

Lemma Inv_hire n posChoice inputs z :
  Inv z -> Inv (Zoo.hire n posChoice inputs z).
Proof.
  intros H. unfold Zoo.hire.
  destruct (match posChoice with 1 => _ | _ => _ end). exact H.
Qed.

Lemma Inv_fire fireChoice z : Inv z -> Inv (Zoo.fire fireChoice z).
Proof.
  intros H. unfold Zoo.fire.
  branches; try exact H; destruct (nth_error _ _); branches; exact H.
Qed.

Lemma Inv_assign workerChoice encId daysAssigned z :
  Inv z -> Inv (Zoo.assign workerChoice encId daysAssigned z).
Proof.
  intros H. unfold Zoo.assign.
  destruct (Zoo.workers z) eqn:Ew; [exact H|].
  destruct (Zoo.enclosures z) eqn:Ee; [exact H|].
  rewrite <- Ew, <- Ee.
  branches; try exact H;
    (destruct (nth_error _ _); [|exact H]); branches; exact H.
Qed.

Lemma Inv_buyFood foodAmount z : Inv z -> Inv (Zoo.buyFood foodAmount z).
Proof. intros H. unfold Zoo.buyFood. branches; exact H. Qed.

Lemma Inv_advertise adSpend z : Inv z -> Inv (Zoo.advertise adSpend z).
Proof. intros H. unfold Zoo.advertise. branches; exact H. Qed.

Lemma Loan_make_ok p d rate loan :
  Loan.make p d rate = Ok loan ->
  0 < d
  /\ Loan.daysLeft loan = d /\ Loan.days loan = d
  /\ Loan.principal loan = p /\ Loan.dailyInterestRate loan = rate
  /\ Loan.dailyRepayment loan
     = ((p + p * rate * Double.of_int d) / Double.of_int d)%D.
Proof.
  unfold Loan.make. destruct (d <=? 0) eqn:E; [discriminate|].
  intros H. injection H as <-. apply Z.leb_gt in E. repeat split. exact E.
Qed.

Lemma Inv_borrow amount days z : Inv z -> Inv (Zoo.borrow amount days z).
Proof.
  intros H. unfold Zoo.borrow, Loan.make_default.
  destruct (Loan.make _ _ _) as [loan|] eqn:E; [|exact H].
  apply Loan_make_ok in E as (Hpos & Hleft & _).
  destruct H as (Hpl & Hid & Hl). unfold Inv. cbn.
  split; [|split]; try assumption.
  apply Forall_app. split; [exact Hl|]. constructor; [lia|constructor].
Qed.

Lemma Inv_build capacity typeChoice climateChoice z :
  1 <= capacity ->
  Inv z -> Inv (Zoo.build capacity typeChoice climateChoice z).
Proof.
  intros Hcap H. unfold Zoo.build. destruct (_ >=? _)%D; [|exact H].
  destruct H as ((Hok & Hasc & Hfit) & Hid & Hl). unfold Inv. cbn.
  split; [|split]; try assumption.
  split; [|split].
  - apply Forall_app. split; [exact Hok|]. constructor; [|constructor].
    split; [constructor|]. unfold Enclosure.getAnimalCount. simpl. lia.
  - unfold ids_ascending. rewrite map_app. simpl.
    apply ascending_snoc; [exact Hasc|].
    destruct (Zoo.enclosures z) as [|e0 encs0] eqn:E; [constructor|].
    rewrite <- E in *. apply Forall_map.
    eapply Forall_impl; [|apply back_id_highest, Hasc].
    simpl. intros; lia.
  - intros a Ha. destruct (Hfit a Ha) as (e & He & ?).
    exists e. split; [apply in_or_app; auto | assumption].
Qed.

Lemma existsb_at_id (encs : list Enclosure.t) i a :
  existsb (fun enc => (Enclosure.id enc =? i) && Enclosure.canAddAnimal enc a) encs
  = true ->
  exists e, In e encs /\ Enclosure.id e = i /\ Enclosure.canAddAnimal e a = true.
Proof.
  intros H. apply existsb_exists in H as (e & He & H).
  apply andb_true_iff in H as [H1 H2]. apply Z.eqb_eq in H1. eauto.
Qed.

(** The newborn of a pair that [operator+] accepts. *)
Lemma operator_plus_ok a b id g newborn id' g' :
  Animal.operator_plus a b id g = Ok (newborn, id', g') ->
  ~ ineligible a b
  /\ id' = id + 1 /\ g' = snd (draw g)
  /\ newborn
     = {| Animal.species :=
            (take (String.length (Animal.species a) / 2)%nat (Animal.species a)
             ++ drop (String.length (Animal.species b) / 2)%nat (Animal.species b))%string;
          Animal.displayName :=
            ((take (String.length (Animal.species a) / 2)%nat (Animal.species a)
              ++ drop (String.length (Animal.species b) / 2)%nat (Animal.species b))
             ++ Animal.newborn_suffix)%string;
          Animal.ageDays := 0;
          Animal.weight := ((Animal.weight a + Animal.weight b) / Double.of_int 4)%D;
          Animal.preferredClimate := Animal.preferredClimate a;
          Animal.price := Z.quot (Animal.price a + Animal.price b) 2;
          Animal.type := Animal.type a;
          Animal.enclosureId := Animal.enclosureId a;
          Animal.daysSincePurchase := 0;
          Animal.gender := if Z.rem (fst (draw g)) 2 =? 0 then MALE else FEMALE;
          Animal.isBornInZoo := true;
          Animal.parents := (Animal.displayName a, Animal.displayName b);
          Animal.isSick := false;
          Animal.uniqueId := id |}.
Proof.
  unfold Animal.operator_plus.
  destruct (_ || _ || _ || _) eqn:E; [discriminate|].
  destruct (draw g) as [r g1]. intros H. injection H as <- <- <-.
  split; [|repeat split].
  rewrite <- operator_plus_guard, E. discriminate.
Qed.

Lemma Inv_breed first second z : Inv z -> Inv (Zoo.breed first second z).
Proof.
  intros H. unfold Zoo.breed.
  destruct (_ <? 2); [exact H|].
  destruct (first =? 0); [exact H|].
  destruct (second =? 0); [exact H|].
  destruct (first =? second); [exact H|].
  destruct (nth_error _ _) as [a|] eqn:Ea; [|exact H].
  destruct (nth_error (Zoo.animals z) (Z.to_nat (second - 1))) as [b|] eqn:Eb;
    [|exact H].
  destruct (negb (_ =? _)); [exact H|].
  destruct (existsb _ _) eqn:Eex; simpl; [|exact H].
  destruct (Animal.operator_plus _ _ _ _) as [[[newborn id'] g]|] eqn:Eplus;
    [|exact H].
  apply operator_plus_ok in Eplus as (_ & -> & _ & Enew).
  apply existsb_at_id in Eex.
  apply nth_error_In in Ea, Eb.
  destruct H as (Hpl & Hid & Hl). unfold Inv. cbn.
  split; [|split]; [| |exact Hl].
  - replace (Animal.enclosureId newborn) with (Animal.enclosureId a)
      by (subst newborn; reflexivity).
    eapply placed_add; try eassumption; subst newborn; reflexivity.
  - unfold identified in *.
    eapply fresh_tags_perm;
      [|apply (fresh_tags_extend
                 (map tag (Zoo.animals z ++ Zoo.marketAnimals z))
                 [tag newborn] (Zoo.nextId z)); [|exact Hid| |]].
    + rewrite !map_app. simpl. rewrite <- !app_assoc.
      apply Permutation_app_head. apply Permutation_app_comm.
    + lia.
    + subst newborn. simpl. repeat constructor. intros [].
    + destruct Hid as [_ Hall]. rewrite Forall_forall in Hall.
      assert (Hpa : 0 <= Animal.price a).
      { apply (Hall (tag a)). apply in_map, in_or_app. auto. }
      assert (Hpb : 0 <= Animal.price b).
      { apply (Hall (tag b)). apply in_map, in_or_app. auto. }
      subst newborn. constructor; [|constructor]. simpl.
      split; [lia|]. apply Z.quot_pos; lia.
Qed.

Lemma Inv_run a z : valid_input z a = true -> Inv z -> Inv (run a z).
Proof.
  intros Hvalid H. destruct a; simpl.
  - apply Inv_purchase, H.
  - apply Inv_sell, H.
  - apply Inv_rename, H.
  - apply Inv_refresh_for_fee, H.
  - apply Inv_hire, H.
  - apply Inv_fire, H.
  - apply Inv_assign, H.
  - apply Inv_buyFood, H.
  - apply Inv_advertise, H.
  - apply Inv_borrow, H.
  - apply Inv_build; [|exact H].
    simpl in Hvalid. unfold in_range in Hvalid.
    apply andb_true_iff in Hvalid as [Hvalid _].
    apply andb_true_iff in Hvalid as [Hvalid _].
    apply andb_true_iff in Hvalid as [Hvalid _].
    apply Z.leb_le in Hvalid. exact Hvalid.
  - apply Inv_breed, H.
  - apply Inv_nextDay, H.
Qed.

Lemma reachable_Inv z : reachable z -> Inv z.
Proof.
  induction 1 as [n rand_tape mt_tape | z a _ IH Hvalid].
  - apply Inv_make.
  - apply Inv_run; assumption.
Qed.

(** ** Placement *)

(** C1.  In every state a game can reach, and after every menu entry -
    purchase, sale, renaming, market refresh, hiring, firing, assignment,
    food, advertising, borrowing, construction, breeding, day-advance -
    every resident of every enclosure has the enclosure's diet class and
    climate, and no enclosure holds more residents than its capacity. *)
Theorem placement_invariant_holds :
  forall z a,
    reachable z -> valid_input z a = true ->
    placement_invariant z /\ placement_invariant (run a z).
Proof.
  intros z a Hz Ha. split.
  - apply reachable_Inv in Hz. apply Hz.
  - apply (reach_run z a Hz) in Ha. apply reachable_Inv in Ha. apply Ha.
Qed.

Lemma placement_invariant_holds_witness :
  placement_invariant
    (run (Purchase 5 1)
       (run (Purchase 2 1) (Zoo.make "Z" (fun _ => 0%nat) (fun _ => 0%nat)))).
Proof.
  apply placement_invariant_holds.
  - apply reach_run; [apply reach_make | reflexivity].
  - reflexivity.
Defined.

(** ** The market *)

Lemma catalog_species_distinct : NoDup (map row_species Zoo.catalog).
Proof.
  repeat constructor; simpl;
    intros H; repeat destruct H as [H|H]; try discriminate H; exact H.
Qed.

Lemma reachable_market_numbered z : reachable z -> market_numbered z.
Proof.
  intros H. apply reachable_Inv in H as (_ & (_ & Hall) & _).
  rewrite map_app in Hall. apply Forall_app in Hall as [_ Hall].
  rewrite Forall_map in Hall. eapply Forall_impl; [|exact Hall].
  simpl. intros a Ha. apply Ha.
Qed.

(** C9.  A refresh puts in place of the offer list exactly
    min(10, catalog size) = 10 offers, one for each entry of the catalog in
    some order, so no entry occurs twice; the new list does not depend on
    the old one and shares no offer with it. *)
Theorem refreshMarket_replaces :
  forall z,
    market_numbered z ->
    let market := Zoo.marketAnimals (Zoo.refreshMarket z) in
    Z.of_nat (List.length market)
    = Z.min 10 (Z.of_nat (List.length Zoo.catalog))
    /\ List.length market = 10%nat
    /\ Permutation (map Animal.species market) (map row_species Zoo.catalog)
    /\ NoDup (map Animal.species market)
    /\ NoDup (map Animal.uniqueId market)
    /\ market
       = Zoo.marketAnimals (Zoo.refreshMarket (Zoo.set_marketAnimals [] z))
    /\ (forall offer, In offer market -> ~ In offer (Zoo.marketAnimals z))
    /\ (forall offer old, In offer market -> In old (Zoo.marketAnimals z) ->
          Animal.uniqueId old < Animal.uniqueId offer).
Proof.
  intros z Hold market.
  destruct (refreshMarket_spec z) as (available & g & Eav & HP & _).
  fold market in HP.
  unfold Zoo.getAvailableAnimals in Eav.
  apply instantiate_spec in Eav as (_ & Hids & _ & Hsp & _).
  assert (Hlen : List.length market = 10%nat).
  { rewrite (Permutation_length HP), <- (length_map Animal.uniqueId), Hids,
      length_map, length_seq. reflexivity. }
  assert (Hspecies : Permutation (map Animal.species market)
                       (map row_species Zoo.catalog)).
  { rewrite <- Hsp. apply Permutation_map, HP. }
  assert (Hnew : forall offer, In offer market ->
                               Zoo.nextId z <= Animal.uniqueId offer).
  { intros offer Hin.
    apply (Permutation_in _ HP), (in_map Animal.uniqueId) in Hin.
    rewrite Hids in Hin. apply in_map_iff in Hin as (k & <- & _). lia. }
  assert (Hlater : forall offer old, In offer market ->
                     In old (Zoo.marketAnimals z) ->
                     Animal.uniqueId old < Animal.uniqueId offer).
  { intros offer old Hoffer Hin. unfold market_numbered in Hold.
    rewrite Forall_forall in Hold.
    specialize (Hold _ Hin). specialize (Hnew _ Hoffer). lia. }
  split; [rewrite Hlen; reflexivity|].
  split; [exact Hlen|].
  split; [exact Hspecies|].
  split.
  { eapply Permutation_NoDup; [symmetry; exact Hspecies|].
    apply catalog_species_distinct. }
  split.
  { eapply Permutation_NoDup; [symmetry; apply Permutation_map, HP|].
    rewrite Hids. apply NoDup_offsets. }
  split.
  { subst market. unfold Zoo.refreshMarket.
    cbn [Zoo.nextId Zoo.crand Zoo.mt Zoo.set_marketAnimals].
    branches. reflexivity. }
  split; [|exact Hlater].
  intros offer Hoffer Hin. specialize (Hlater _ _ Hoffer Hin). lia.
Qed.

Lemma refreshMarket_replaces_witness :
  let z := Zoo.make "Z" (fun k => k) (fun k => (3 * k)%nat) in
  market_numbered z
  /\ Zoo.marketAnimals z <> []
  /\ NoDup (map Animal.species (Zoo.marketAnimals (Zoo.refreshMarket z))).
Proof.
  cbv zeta.
  assert (H : market_numbered (Zoo.make "Z" (fun k => k) (fun k => (3 * k)%nat))).
  { vm_compute. repeat constructor. }
  split; [exact H|]. split; [vm_compute; discriminate|].
  apply (refreshMarket_replaces _ H).
Defined.

(** ** Breeding: the newborn *)

Lemma take_drop n s : (take n s ++ drop n s)%string = s.
Proof.
  revert s; induction n as [|n IH]; intros [|c s]; simpl; try reflexivity.
  now rewrite IH.
Qed.

Lemma take_length n s :
  (n <= String.length s)%nat -> String.length (take n s) = n.
Proof.
  revert s; induction n as [|n IH]; intros [|c s]; simpl; intros H;
    try reflexivity; try lia.
  rewrite IH; [reflexivity | lia].
Qed.

Lemma half_le n : (n / 2 <= n)%nat.
Proof. apply Nat.Div0.div_le_upper_bound. lia. Qed.

(** C4.  For two animals of the registry of a reachable state that
    [operator+] accepts, the newborn has: as species the first half of the
    first parent's species followed by the second half of the second
    parent's, as name that species with the newborn suffix, a sex among the
    two, a quarter of the summed weights, the floor of the mean price, the
    first parent's diet, climate and enclosure, age 0, both parents' names
    and the born-in-zoo mark. *)
Theorem breed_newborn :
  forall z a b newborn id' g',
    reachable z -> In a (Zoo.animals z) -> In b (Zoo.animals z) ->
    Animal.operator_plus a b (Zoo.nextId z) (Zoo.crand z) = Ok (newborn, id', g') ->
    (exists a1 a2 b1 b2,
        Animal.species a = (a1 ++ a2)%string
        /\ String.length a1 = (String.length (Animal.species a) / 2)%nat
        /\ Animal.species b = (b1 ++ b2)%string
        /\ String.length b1 = (String.length (Animal.species b) / 2)%nat
        /\ Animal.species newborn = (a1 ++ b2)%string)
    /\ Animal.displayName newborn
       = (Animal.species newborn ++ Animal.newborn_suffix)%string
    /\ (Animal.gender newborn = MALE \/ Animal.gender newborn = FEMALE)
    /\ Animal.weight newborn
       = ((Animal.weight a + Animal.weight b) / Double.of_int 4)%D
    /\ Animal.price newborn = (Animal.price a + Animal.price b) / 2
    /\ Animal.type newborn = Animal.type a
    /\ Animal.preferredClimate newborn = Animal.preferredClimate a
    /\ Animal.enclosureId newborn = Animal.enclosureId a
    /\ Animal.ageDays newborn = 0
    /\ Animal.parents newborn = (Animal.displayName a, Animal.displayName b)
    /\ Animal.isBornInZoo newborn = true.
Proof.
  intros z a b newborn id' g' Hz Ha Hb Hplus.
  apply operator_plus_ok in Hplus as (_ & _ & _ & ->). cbn.
  apply reachable_Inv in Hz as (_ & (_ & Hall) & _).
  rewrite Forall_forall in Hall.
  assert (Hpa : 0 <= Animal.price a).
  { apply (Hall (tag a)). apply in_map, in_or_app. auto. }
  assert (Hpb : 0 <= Animal.price b).
  { apply (Hall (tag b)). apply in_map, in_or_app. auto. }
  split.
  { exists (take (String.length (Animal.species a) / 2) (Animal.species a)),
      (drop (String.length (Animal.species a) / 2) (Animal.species a)),
      (take (String.length (Animal.species b) / 2) (Animal.species b)),
      (drop (String.length (Animal.species b) / 2) (Animal.species b)).
    rewrite !take_drop, !take_length by apply half_le. auto. }
  split; [reflexivity|].
  split; [destruct (_ =? 0); auto|].
  split; [reflexivity|].
  split; [apply Z.quot_div_nonneg; lia|].
  repeat split.
Qed.

Lemma breed_newborn_witness :
  let z := run (Purchase 3 2)
             (run (Purchase 3 2)
                (run (Build 3 1 1) (Zoo.make "Z" (fun k => k) (fun _ => 0%nat)))) in
  match Zoo.animals z with
  | a :: b :: _ =>
      match Animal.operator_plus a b (Zoo.nextId z) (Zoo.crand z) with
      | Ok (newborn, _, _) =>
          Animal.price newborn = 325 /\ Animal.enclosureId newborn = 2
      | Throw _ => False
      end
  | _ => False
  end.
Proof.
  cbv zeta.
  remember (run (Purchase 3 2) _) as z eqn:Ez.
  assert (Hz : reachable z).
  { subst z. repeat (apply reach_run; [|vm_compute; reflexivity]).
    apply reach_make. }
  destruct (Zoo.animals z) as [|a [|b rest]] eqn:E;
    try (subst z; vm_compute in E; discriminate E).
  assert (Ha : In a (Zoo.animals z)) by (rewrite E; left; reflexivity).
  assert (Hb : In b (Zoo.animals z)) by (rewrite E; right; left; reflexivity).
  destruct (Animal.operator_plus _ _ _ _) as [[[newborn id'] g']|what] eqn:Eplus.
  - destruct (breed_newborn z _ _ _ _ _ Hz Ha Hb Eplus)
      as (_ & _ & _ & _ & Hprice & _ & _ & Henc & _).
    subst z. vm_compute in E. injection E as <- <- _.
    split; [exact Hprice | exact Henc].
  - subst z. vm_compute in E. injection E as <- <- _.
    vm_compute in Eplus. discriminate Eplus.
Defined.

(** ** Construction *)

(** C10.  With identities ascending along the vector (as they are in every
    reachable state), construction goes ahead exactly when cash is at least
    50 times the capacity; it then debits exactly that amount and appends an
    empty enclosure with an upkeep of twice the capacity, whose identity is
    the highest identity so far plus 1, or 1 when there is no enclosure;
    otherwise the state is returned as it was. *)
Theorem build_enclosure :
  forall z capacity typeChoice climateChoice,
    ids_ascending (Zoo.enclosures z) ->
    let z' := Zoo.build capacity typeChoice climateChoice z in
    let cost := Double.of_int (50 * capacity) in
    ((Zoo.money z >=? cost)%D = true
     /\ exists e,
         z' = Zoo.set_money (Zoo.money z - cost)%D
                (Zoo.set_enclosures (Zoo.enclosures z ++ [e]) z)
         /\ Enclosure.animals e = []
         /\ Enclosure.capacity e = capacity
         /\ Enclosure.dailyCost e = 2 * capacity
         /\ Forall (fun e0 => Enclosure.id e0 < Enclosure.id e) (Zoo.enclosures z)
         /\ (Zoo.enclosures z = [] -> Enclosure.id e = 1)
         /\ (Zoo.enclosures z <> [] ->
             exists top,
               In top (Zoo.enclosures z)
               /\ Forall (fun e0 => Enclosure.id e0 <= Enclosure.id top)
                    (Zoo.enclosures z)
               /\ Enclosure.id e = Enclosure.id top + 1))
    \/ ((Zoo.money z >=? cost)%D = false /\ z' = z).
Proof.
  intros z capacity typeChoice climateChoice Hasc z' cost.
  subst z' cost. unfold Zoo.build.
  replace (capacity * 50) with (50 * capacity) by lia.
  replace (capacity * 2) with (2 * capacity) by lia.
  destruct (_ >=? _)%D; [left | right; split; reflexivity].
  split; [reflexivity|].
  eexists. split; [reflexivity|]. cbn.
  split; [reflexivity|]. split; [reflexivity|]. split; [reflexivity|].
  pose proof (back_id_highest _ Hasc) as Hhigh.
  destruct (Zoo.enclosures z) as [|e0 encs0] eqn:E.
  - split; [constructor|]. split; [reflexivity | congruence].
  - rewrite <- E in *. split; [|split].
    + eapply Forall_impl; [|exact Hhigh]. simpl. intros; lia.
    + rewrite E. discriminate.
    + intros Hne. destruct (back_id_in _ Hne) as (top & Htop & Eid).
      exists top. rewrite Eid. auto.
Qed.

Lemma reachable_ids_ascending z : reachable z -> ids_ascending (Zoo.enclosures z).
Proof. intros H. apply reachable_Inv in H. apply H. Qed.

Lemma build_enclosure_witness :
  let z := Zoo.make "Z" (fun _ => 0%nat) (fun _ => 0%nat) in
  let z' := Zoo.build 3 1 1 z in
  ids_ascending (Zoo.enclosures z)
  /\ ((Zoo.money z >=? Double.of_int (50 * 3))%D = true
      /\ List.length (Zoo.enclosures z') = 2%nat
      /\ Zoo.money z' = Double.of_int 1338).
Proof.
  cbv zeta.
  assert (H : ids_ascending
                (Zoo.enclosures (Zoo.make "Z" (fun _ => 0%nat) (fun _ => 0%nat)))).
  { vm_compute. repeat constructor. }
  split; [exact H|].
  destruct (build_enclosure _ 3 1 1 H) as [(Hcash & e & -> & _) | (Hcash & _)].
  - split; [exact Hcash|]. vm_compute. split; reflexivity.
  - vm_compute in Hcash. discriminate Hcash.
Defined.

(** ** Loans *)

Lemma loan_visit_snd m m' loan :
  snd (Zoo.loan_visit m loan) = snd (Zoo.loan_visit m' loan).
Proof. unfold Zoo.loan_visit. destruct (0 <? _); reflexivity. Qed.

Lemma repay_loans m loans :
  snd (Zoo.repay m loans) = map (fun loan => snd (Zoo.loan_visit m loan)) loans.
Proof.
  revert m; induction loans as [|loan loans IH]; intros m; simpl; [reflexivity|].
  destruct (Zoo.loan_visit m loan) as [m1 loan'].
  specialize (IH m1). destruct (Zoo.repay m1 loans) as [m2 done].
  simpl in *. rewrite IH. f_equal.
  apply map_ext. intros l. apply loan_visit_snd.
Qed.

Lemma repay_cash m loans :
  loans_active loans ->
  fst (Zoo.repay m loans)
  = fold_left (fun cash loan => (cash - Loan.dailyRepayment loan)%D) loans m.
Proof.
  revert m; induction loans as [|loan loans IH]; intros m H; simpl; [reflexivity|].
  inversion H as [|? ? Hpos Hrest]; subst.
  unfold Zoo.loan_visit. apply Z.ltb_lt in Hpos. rewrite Hpos.
  specialize (IH (m - Loan.dailyRepayment loan)%D Hrest).
  destruct (Zoo.repay _ loans). exact IH.
Qed.

Lemma Loan_eta loan : Loan.set_daysLeft (Loan.daysLeft loan) loan = loan.
Proof. destruct loan; reflexivity. Qed.

Lemma amortise_0 loans : loans_active loans -> amortise 0 loans = loans.
Proof.
  unfold amortise. induction 1 as [|loan loans Hpos _ IH]; simpl in *;
    [reflexivity|].
  apply Z.ltb_lt in Hpos. rewrite Hpos. simpl.
  rewrite Z.sub_0_r, Loan_eta, IH. reflexivity.
Qed.

(** The purge after the loop, in one step. *)
Lemma purge_served m loans :
  filter (fun loan => negb (Loan.daysLeft loan <=? 0))
    (map (fun loan => snd (Zoo.loan_visit m loan)) loans)
  = amortise 1 loans.
Proof.
  unfold amortise. induction loans as [|loan loans IH]; simpl; [reflexivity|].
  rewrite IH. unfold Zoo.loan_visit.
  destruct (0 <? Loan.daysLeft loan) eqn:E0; simpl.
  - destruct (1 <? Loan.daysLeft loan) eqn:E1.
    + replace (Loan.daysLeft loan - 1 <=? 0) with false
        by (symmetry; apply Z.leb_gt; apply Z.ltb_lt in E1; lia).
      reflexivity.
    + replace (Loan.daysLeft loan - 1 <=? 0) with true
        by (symmetry; apply Z.leb_le; apply Z.ltb_ge in E1; lia).
      reflexivity.
  - replace (Loan.daysLeft loan <=? 0) with true
      by (symmetry; apply Z.leb_le; apply Z.ltb_ge in E0; lia).
    replace (1 <? Loan.daysLeft loan) with false
      by (symmetry; apply Z.ltb_ge; apply Z.ltb_ge in E0; lia).
    reflexivity.
Qed.

Lemma amortise_cons n loan loans :
  amortise n (loan :: loans)
  = (if Z.of_nat n <? Loan.daysLeft loan
     then [Loan.set_daysLeft (Loan.daysLeft loan - Z.of_nat n) loan]
     else [])
    ++ amortise n loans.
Proof.
  unfold amortise. cbn [filter].
  destruct (Z.of_nat n <? Loan.daysLeft loan); reflexivity.
Qed.

Lemma amortise_S n loans : amortise 1 (amortise n loans) = amortise (S n) loans.
Proof.
  induction loans as [|loan loans IH]; [reflexivity|].
  rewrite (amortise_cons n), (amortise_cons (S n)).
  destruct (Z.of_nat n <? Loan.daysLeft loan) eqn:En.
  - cbn [app]. rewrite amortise_cons, IH.
    cbn [Loan.daysLeft Loan.set_daysLeft].
    destruct (Z.of_nat (S n) <? Loan.daysLeft loan) eqn:ES.
    + replace (Z.of_nat 1 <? Loan.daysLeft loan - Z.of_nat n) with true
        by (symmetry; apply Z.ltb_lt; apply Z.ltb_lt in ES; lia).
      unfold Loan.set_daysLeft. cbn [app Loan.principal Loan.days
        Loan.dailyInterestRate Loan.dailyRepayment Loan.daysLeft].
      replace (Loan.daysLeft loan - Z.of_nat n - Z.of_nat 1)
        with (Loan.daysLeft loan - Z.of_nat (S n)) by lia.
      reflexivity.
    + replace (Z.of_nat 1 <? Loan.daysLeft loan - Z.of_nat n) with false
        by (symmetry; apply Z.ltb_ge; apply Z.ltb_ge in ES; lia).
      reflexivity.
  - replace (Z.of_nat (S n) <? Loan.daysLeft loan) with false
      by (symmetry; apply Z.ltb_ge; apply Z.ltb_ge in En; lia).
    exact IH.
Qed.

Lemma loans_begin_day z : Zoo.loans (Zoo.begin_day z) = Zoo.loans z.
Proof.
  unfold Zoo.begin_day. repeat through_set. now rewrite loans_refreshMarket.
Qed.

(** The loans at the moment the loop over them starts. *)
Lemma loans_before_loans z :
  Zoo.loans
    (Zoo.before_loans
       (Zoo.feed_all (Zoo.after_ageing (Zoo.age_all (Zoo.begin_day z)))))
  = Zoo.loans z.
Proof.
  rewrite (frame_before_loans Zoo.loans) by reflexivity.
  rewrite loans_feed_all. unfold Zoo.after_ageing.
  rewrite (frame_heal_all Zoo.loans), (frame_sicken_all Zoo.loans) by reflexivity.
  unfold Zoo.work_all. through_set.
  rewrite (frame_age_all Zoo.loans) by reflexivity.
  apply loans_begin_day.
Qed.

Lemma loans_nextDay z : Zoo.loans (Zoo.nextDay z) = amortise 1 (Zoo.loans z).
Proof.
  unfold Zoo.nextDay, Zoo.after_feeding, Zoo.serve_loans.
  pose proof (loans_before_loans z) as E.
  remember (Zoo.before_loans _) as s eqn:Es. clear Es.
  pose proof (repay_loans (Zoo.money s) (Zoo.loans s)) as Hr.
  destruct (Zoo.repay _ _) as [m served]. cbn [snd] in Hr.
  repeat through_set.
  assert (Hl : forall l z0, Zoo.loans (Zoo.set_loans l z0) = l) by reflexivity.
  rewrite Hl, Hr, purge_served, E. reflexivity.
Qed.

Lemma money_nextDay z :
  loans_active (Zoo.loans z) ->
  Zoo.money (Zoo.nextDay z)
  = fold_left (fun cash loan => (cash - Loan.dailyRepayment loan)%D)
      (Zoo.loans z)
      (Zoo.money
         (Zoo.before_loans
            (Zoo.feed_all (Zoo.after_ageing (Zoo.age_all (Zoo.begin_day z)))))).
Proof.
  intros Hactive.
  unfold Zoo.nextDay, Zoo.after_feeding, Zoo.serve_loans.
  pose proof (loans_before_loans z) as E.
  remember (Zoo.before_loans _) as s eqn:Es. clear Es.
  rewrite <- E in Hactive.
  pose proof (repay_cash (Zoo.money s) (Zoo.loans s) Hactive) as Hr.
  destruct (Zoo.repay _ _) as [m served]. cbn [fst] in Hr.
  through_set.
  assert (Hm : forall m0 z0, Zoo.money (Zoo.set_money m0 z0) = m0) by reflexivity.
  rewrite Hm, Hr, E. reflexivity.
Qed.

Lemma loans_after_days n z :
  loans_active (Zoo.loans z) ->
  Zoo.loans (Nat.iter n Zoo.nextDay z) = amortise n (Zoo.loans z).
Proof.
  intros H. induction n as [|n IH].
  - symmetry. apply amortise_0, H.
  - rewrite Nat.iter_succ, loans_nextDay, IH. apply amortise_S.
Qed.

Lemma amortise_app n l1 l2 : amortise n (l1 ++ l2) = amortise n l1 ++ amortise n l2.
Proof. unfold amortise. now rewrite filter_app, map_app. Qed.

Lemma loans_borrow amount d z loan :
  Loan.make_default (Double.of_int amount) d = Ok loan ->
  Zoo.loans (Zoo.borrow amount d z) = Zoo.loans z ++ [loan].
Proof. intros E. unfold Zoo.borrow. rewrite E. reflexivity. Qed.

(** C6.  A loan with a positive term is created with the daily repayment
    (principal + principal * rate * term) / term, which is 105.0 for 1000
    over 10 days at 0.005.  In a reachable state every loan has days left;
    a day-advance debits the repayment of each of them, one after the
    other, and leaves the loans that had more than one day to run, each
    with one day less.  So a loan taken for [d] days is still there, with
    [d - n] days left, after [n < d] day-advances, and is gone after [d]. *)
Theorem loan_amortisation :
  (forall p d rate,
      0 < d ->
      exists loan,
        Loan.make p d rate = Ok loan
        /\ Loan.dailyRepayment loan
           = ((p + p * rate * Double.of_int d) / Double.of_int d)%D
        /\ Loan.daysLeft loan = d)
  /\ (exists loan,
         Loan.make_default (Double.of_int 1000) 10 = Ok loan
         /\ Loan.dailyRepayment loan = Double.of_int 105)
  /\ (forall z,
         reachable z ->
         loans_active (Zoo.loans z)
         /\ Zoo.money (Zoo.nextDay z)
            = fold_left (fun cash loan => (cash - Loan.dailyRepayment loan)%D)
                (Zoo.loans z)
                (Zoo.money
                   (Zoo.before_loans
                      (Zoo.feed_all
                         (Zoo.after_ageing (Zoo.age_all (Zoo.begin_day z))))))
         /\ Zoo.loans (Zoo.nextDay z) = amortise 1 (Zoo.loans z)
         /\ forall n, Zoo.loans (Nat.iter n Zoo.nextDay z) = amortise n (Zoo.loans z))
  /\ (forall z amount d n,
         reachable z -> 0 < d ->
         exists loan,
           Loan.make_default (Double.of_int amount) d = Ok loan
           /\ Zoo.loans (Nat.iter n Zoo.nextDay (Zoo.borrow amount d z))
              = amortise n (Zoo.loans z)
                ++ (if Z.of_nat n <? d
                    then [Loan.set_daysLeft (d - Z.of_nat n) loan]
                    else [])).
Proof.
  split; [|split; [|split]].
  - intros p d rate Hd. unfold Loan.make.
    apply Z.leb_gt in Hd. rewrite Hd. eexists. repeat split.
  - eexists. split; [reflexivity|]. vm_compute. reflexivity.
  - intros z Hz. apply reachable_Inv in Hz as (_ & _ & Hactive).
    split; [exact Hactive|].
    split; [apply money_nextDay, Hactive|].
    split; [apply loans_nextDay|].
    intros n. apply loans_after_days, Hactive.
  - intros z amount d n Hz Hd.
    apply reachable_Inv in Hz.
    pose proof (Inv_borrow amount d z Hz) as (_ & _ & Hactive).
    unfold Loan.make_default, Loan.make in *.
    pose proof Hd as Hd'. apply Z.leb_gt in Hd'.
    eexists. rewrite Hd'. split; [reflexivity|].
    rewrite loans_after_days by exact Hactive.
    unfold Zoo.borrow, Loan.make_default, Loan.make. rewrite Hd'.
    cbn [Zoo.loans Zoo.set_money Zoo.set_loans].
    rewrite amortise_app. f_equal.
    rewrite amortise_cons. cbn [Loan.daysLeft].
    destruct (Z.of_nat n <? d); reflexivity.
Qed.

Lemma loan_amortisation_witness :
  let z := Zoo.borrow 1000 10 (Zoo.make "Z" (fun _ => 0%nat) (fun _ => 0%nat)) in
  Zoo.loans (Nat.iter 10 Zoo.nextDay z) = []
  /\ exists loan,
       Zoo.loans (Nat.iter 9 Zoo.nextDay z) = [loan]
       /\ Loan.daysLeft loan = 1
       /\ Loan.dailyRepayment loan = Double.of_int 105.
Proof.
  cbv zeta.
  pose proof (proj2 (proj2 (proj2 loan_amortisation))) as H.
  assert (Hz : reachable (Zoo.make "Z" (fun _ => 0%nat) (fun _ => 0%nat)))
    by apply reach_make.
  assert (Hd : 0 < 10) by lia.
  split.
  - destruct (H _ 1000 10 10%nat Hz Hd) as (loan & _ & ->).
    vm_compute. reflexivity.
  - destruct (H _ 1000 10 9%nat Hz Hd) as (loan & Eloan & ->).
    vm_compute in Eloan. injection Eloan as <-.
    eexists. split; [vm_compute; reflexivity|].
    split; vm_compute; reflexivity.
Defined.

(** ** The first day *)

Section MarketFrames.
Context {B : Type} (proj : Zoo.t -> B).

(** A projection that does not look at what a refresh writes. *)
Hypothesis proj_mt : forall g z, proj (Zoo.set_mt g z) = proj z.
Hypothesis proj_crand : forall g z, proj (Zoo.set_crand g z) = proj z.
Hypothesis proj_nextId : forall n z, proj (Zoo.set_nextId n z) = proj z.
Hypothesis proj_market : forall l z, proj (Zoo.set_marketAnimals l z) = proj z.

Lemma frame_refreshMarket z : proj (Zoo.refreshMarket z) = proj z.
Proof.
  unfold Zoo.refreshMarket. branches.
  now rewrite proj_mt, proj_crand, proj_nextId, proj_market.
Qed.

Hypothesis proj_day : forall n z, proj (Zoo.set_day n z) = proj z.
Hypothesis proj_bought : forall n z, proj (Zoo.set_animalsBoughtToday n z) = proj z.
Hypothesis proj_type : forall s z, proj (Zoo.set_specialVisitorType s z) = proj z.
Hypothesis proj_count : forall n z, proj (Zoo.set_specialVisitorCount n z) = proj z.

Lemma frame_begin_day z : proj (Zoo.begin_day z) = proj z.
Proof.
  unfold Zoo.begin_day.
  now rewrite proj_count, proj_type, frame_refreshMarket, proj_bought, proj_day.
Qed.
End MarketFrames.

Lemma crand_refreshMarket z :
  Zoo.crand (Zoo.refreshMarket z) = advance 10 (Zoo.crand z).
Proof.
  destruct (refreshMarket_spec z) as (available & g & Eav & _ & _ & ->).
  unfold Zoo.getAvailableAnimals in Eav.
  apply instantiate_spec in Eav as (_ & _ & _ & _ & Htape & Hpos).
  destruct g as [t p]. simpl in *. subst. reflexivity.
Qed.

(** *** The bookkeeping at the end of a day *)

Lemma popularity_drift z :
  Zoo.popularity (Zoo.drift z)
  = let r := fst (random (-10) 10 (Zoo.crand z)) in
    let p := (Zoo.popularity z
              * (Double.of_int 1 + Double.of_int r / Double.of_int 100)
              - Double.of_int (Zoo.sickCount (Zoo.animals z)))%D in
    if (p <? Double.of_int 0)%D then Double.of_int 0 else p.
Proof. unfold Zoo.drift. destruct (random _ _ _). reflexivity. Qed.

Lemma crand_drift z : Zoo.crand (Zoo.drift z) = snd (random (-10) 10 (Zoo.crand z)).
Proof. unfold Zoo.drift. destruct (random _ _ _). reflexivity. Qed.

Lemma visitors_special_guests z :
  Zoo.visitors (Zoo.special_guests z) = Zoo.visitors z.
Proof. unfold Zoo.special_guests. branches; reflexivity. Qed.

Lemma visitors_before_loans z :
  Zoo.visitors (Zoo.before_loans z) = Double.to_int (Zoo.popularity (Zoo.drift z)).
Proof.
  unfold Zoo.before_loans, Zoo.pay_upkeep, Zoo.pay_salaries,
    Zoo.collect_revenue, Zoo.count_visitors.
  repeat through_set. rewrite visitors_special_guests. reflexivity.
Qed.

(** Without special guests the popularity is the one the drift left. *)
Lemma popularity_special_guests z :
  Zoo.specialVisitorType (Zoo.special_guests z) = "None" ->
  Zoo.popularity (Zoo.special_guests z) = Zoo.popularity z.
Proof.
  unfold Zoo.special_guests. branches; cbn; intros H;
    try reflexivity; discriminate H.
Qed.

Lemma special_guests_type_frame z :
  Zoo.specialVisitorType (Zoo.before_loans z)
  = Zoo.specialVisitorType (Zoo.special_guests (Zoo.count_visitors (Zoo.drift z))).
Proof.
  unfold Zoo.before_loans, Zoo.pay_upkeep, Zoo.pay_salaries, Zoo.collect_revenue.
  repeat through_set. reflexivity.
Qed.

Lemma popularity_before_loans z :
  Zoo.popularity (Zoo.before_loans z)
  = Zoo.popularity (Zoo.special_guests (Zoo.count_visitors (Zoo.drift z))).
Proof.
  unfold Zoo.before_loans, Zoo.pay_upkeep, Zoo.pay_salaries, Zoo.collect_revenue.
  repeat through_set. reflexivity.
Qed.

Lemma money_before_loans z :
  Zoo.money (Zoo.before_loans z)
  = fold_left (fun m enc => (m - Double.of_int (Enclosure.dailyCost enc))%D)
      (Zoo.enclosures z)
      (fold_left (fun m worker => (m - Double.of_int (Worker.salary worker))%D)
         (Zoo.workers z)
         (Zoo.money z
          + Double.of_int (Double.to_int (Zoo.popularity (Zoo.drift z))
                           * Zoo.totalAnimals z))%D).
Proof.
  unfold Zoo.before_loans, Zoo.pay_upkeep, Zoo.pay_salaries, Zoo.collect_revenue.
  set (s := Zoo.special_guests (Zoo.count_visitors (Zoo.drift z))).
  assert (Hm : forall m0 z0, Zoo.money (Zoo.set_money m0 z0) = m0) by reflexivity.
  rewrite !Hm. repeat through_set.
  assert (E : Zoo.enclosures s = Zoo.enclosures z
              /\ Zoo.workers s = Zoo.workers z
              /\ Zoo.money s = Zoo.money z
              /\ Zoo.totalAnimals s = Zoo.totalAnimals z
              /\ Zoo.visitors s = Double.to_int (Zoo.popularity (Zoo.drift z))).
  { subst s. unfold Zoo.count_visitors.
    rewrite !(frame_special_guests Zoo.enclosures),
      !(frame_special_guests Zoo.workers),
      !(frame_special_guests Zoo.money),
      !(frame_special_guests Zoo.totalAnimals), visitors_special_guests
      by reflexivity.
    repeat through_set.
    rewrite (frame_drift Zoo.enclosures), (frame_drift Zoo.workers),
      (frame_drift Zoo.money), (frame_drift Zoo.totalAnimals) by reflexivity.
    repeat split. }
  destruct E as (-> & -> & -> & -> & ->). reflexivity.
Qed.

Section FeedFrames.
Context {B : Type} (proj : Zoo.t -> B).
Hypothesis proj_animals : forall l z, proj (Zoo.set_animals l z) = proj z.
Hypothesis proj_enclosures : forall l z, proj (Zoo.set_enclosures l z) = proj z.
Hypothesis proj_total : forall n z, proj (Zoo.set_totalAnimals n z) = proj z.
Hypothesis proj_crand : forall g z, proj (Zoo.set_crand g z) = proj z.
Hypothesis proj_food : forall n z, proj (Zoo.set_food n z) = proj z.
Hypothesis proj_workers : forall l z, proj (Zoo.set_workers l z) = proj z.

Lemma frame_feed_all z : proj (Zoo.feed_all z) = proj z.
Proof.
  unfold Zoo.feed_all. destruct (_ <=? _); [apply proj_food|].
  rewrite (frame_starving proj) by assumption. apply proj_animals.
Qed.

Lemma frame_after_ageing z : proj (Zoo.after_ageing z) = proj z.
Proof.
  unfold Zoo.after_ageing, Zoo.work_all.
  rewrite (frame_heal_all proj), (frame_sicken_all proj) by assumption.
  apply proj_workers.
Qed.
End FeedFrames.

Section LoanFrames.
Context {B : Type} (proj : Zoo.t -> B).
Hypothesis proj_loans : forall l z, proj (Zoo.set_loans l z) = proj z.
Hypothesis proj_money : forall m z, proj (Zoo.set_money m z) = proj z.

Lemma frame_serve_loans z : proj (Zoo.serve_loans z) = proj z.
Proof.
  unfold Zoo.serve_loans. destruct (Zoo.repay _ _).
  now rewrite proj_loans, proj_money.
Qed.
End LoanFrames.


Lemma make_fields n rand_tape mt_tape :
  let z := Zoo.make n rand_tape mt_tape in
  Zoo.animals z = []
  /\ Zoo.enclosures z = [Enclosure.make 1 5 HERBIVORE TEMPERATE 10]
  /\ Zoo.totalAnimals z = 0
  /\ Zoo.crand z = advance 10 {| tape := rand_tape; pos := 0 |}
  /\ Zoo.money z = Double.of_int 1488
  /\ Zoo.popularity z = Double.of_int 50
  /\ Zoo.workers z = Zoo.initial_workers
  /\ Zoo.loans z = [].
Proof.
  cbv zeta. unfold Zoo.make.
  rewrite (frame_refreshMarket Zoo.animals),
    (frame_refreshMarket Zoo.enclosures), (frame_refreshMarket Zoo.totalAnimals),
    (frame_refreshMarket Zoo.money), (frame_refreshMarket Zoo.popularity),
    (frame_refreshMarket Zoo.workers), (frame_refreshMarket Zoo.loans),
    crand_refreshMarket by reflexivity.
  repeat split.
Qed.

Lemma money_serve_loans z :
  Zoo.money (Zoo.serve_loans z) = fst (Zoo.repay (Zoo.money z) (Zoo.loans z)).
Proof. unfold Zoo.serve_loans. destruct (Zoo.repay _ _). reflexivity. Qed.

(** From popularity 50 and with nobody sick, neither the subtraction of the
    sick count nor the floor at 0 change what the drift factor gives. *)
Lemma drift_from_50 r :
  -10 <= r <= 10 ->
  (let p := (Double.of_int 50
             * (Double.of_int 1 + Double.of_int r / Double.of_int 100)
             - Double.of_int 0)%D in
   if (p <? Double.of_int 0)%D then Double.of_int 0 else p)
  = (Double.of_int 50
     * (Double.of_int 1 + Double.of_int r / Double.of_int 100))%D.
Proof.
  intros Hr.
  assert (H : r = -10 \/ r = -9 \/ r = -8 \/ r = -7 \/ r = -6 \/ r = -5
              \/ r = -4 \/ r = -3 \/ r = -2 \/ r = -1 \/ r = 0 \/ r = 1
              \/ r = 2 \/ r = 3 \/ r = 4 \/ r = 5 \/ r = 6 \/ r = 7
              \/ r = 8 \/ r = 9 \/ r = 10) by lia.
  repeat (destruct H as [->|H]; [vm_compute; reflexivity|]).
  subst r. vm_compute. reflexivity.
Qed.

Lemma after_feeding_eq s :
  Zoo.after_feeding s = Zoo.serve_loans (Zoo.before_loans s).
Proof. reflexivity. Qed.

Lemma nextDay_eq z :
  Zoo.nextDay z
  = Zoo.after_feeding
      (Zoo.feed_all (Zoo.after_ageing (Zoo.age_all (Zoo.begin_day z)))).
Proof. reflexivity. Qed.

(** The end of a day without sick animals, loans or special guests. *)
Lemma closing_accounts s :
  Zoo.sickCount (Zoo.animals s) = 0 -> Zoo.loans s = [] ->
  Zoo.specialVisitorType (Zoo.after_feeding s) = "None" ->
  let r := fst (random (-10) 10 (Zoo.crand s)) in
  Zoo.animals (Zoo.after_feeding s) = Zoo.animals s
  /\ Zoo.totalAnimals (Zoo.after_feeding s) = Zoo.totalAnimals s
  /\ Zoo.popularity (Zoo.after_feeding s)
     = (let p := (Zoo.popularity s
                  * (Double.of_int 1 + Double.of_int r / Double.of_int 100)
                  - Double.of_int 0)%D in
        if (p <? Double.of_int 0)%D then Double.of_int 0 else p)
  /\ Zoo.visitors (Zoo.after_feeding s)
     = Double.to_int (Zoo.popularity (Zoo.after_feeding s))
  /\ Zoo.money (Zoo.after_feeding s)
     = fold_left (fun m enc => (m - Double.of_int (Enclosure.dailyCost enc))%D)
         (Zoo.enclosures s)
         (fold_left (fun m worker => (m - Double.of_int (Worker.salary worker))%D)
            (Zoo.workers s)
            (Zoo.money s
             + Double.of_int (Zoo.visitors (Zoo.after_feeding s)
                              * Zoo.totalAnimals s))%D).
Proof.
  intros Hs Hl Hquiet. cbv zeta. rewrite after_feeding_eq in *.
  rewrite (frame_serve_loans Zoo.specialVisitorType) in Hquiet by reflexivity.
  rewrite special_guests_type_frame in Hquiet.
  assert (Hpop : Zoo.popularity (Zoo.serve_loans (Zoo.before_loans s))
                 = Zoo.popularity (Zoo.drift s)).
  { rewrite (frame_serve_loans Zoo.popularity) by reflexivity.
    rewrite popularity_before_loans, (popularity_special_guests _ Hquiet).
    unfold Zoo.count_visitors. through_set. reflexivity. }
  assert (Hvis : Zoo.visitors (Zoo.serve_loans (Zoo.before_loans s))
                 = Double.to_int (Zoo.popularity (Zoo.drift s))).
  { rewrite (frame_serve_loans Zoo.visitors) by reflexivity.
    apply visitors_before_loans. }
  rewrite Hpop, Hvis.
  rewrite (frame_serve_loans Zoo.animals),
    (frame_serve_loans Zoo.totalAnimals) by reflexivity.
  rewrite (frame_before_loans Zoo.animals),
    (frame_before_loans Zoo.totalAnimals) by reflexivity.
  split; [reflexivity|]. split; [reflexivity|].
  split; [rewrite popularity_drift, Hs; reflexivity|].
  split; [reflexivity|].
  rewrite money_serve_loans, (frame_before_loans Zoo.loans), Hl by reflexivity.
  cbn [Zoo.repay fst].
  apply money_before_loans.
Qed.

(** ** Death of old age *)

Lemma random_range lo hi g :
  lo <= hi -> lo <= fst (random lo hi g) <= hi.
Proof.
  intros H. unfold random. destruct (draw g) as [r g'] eqn:E. simpl.
  assert (Hr : 0 <= r).
  { unfold draw in E. injection E as <- _. lia. }
  pose proof (Z.rem_bound_pos r (hi - lo + 1) Hr). lia.
Qed.

Lemma age_visit_dies z it :
  30 < Animal.ageDays (grow it) ->
  fst (random 0 99 (Zoo.crand z)) < Animal.ageDays (grow it) ->
  Zoo.age_visit z it
  = Zoo.bury (grow it) (Zoo.set_crand (snd (random 0 99 (Zoo.crand z))) z).
Proof.
  intros H30 Hroll. unfold Zoo.age_visit. fold (grow it).
  apply Z.ltb_lt in H30. rewrite H30.
  destruct (random 0 99 (Zoo.crand z)) as [roll g]. cbn [fst snd] in *.
  apply Z.ltb_lt in Hroll. rewrite Hroll. reflexivity.
Qed.

Lemma age_visit_survives z it :
  ~ (30 < Animal.ageDays (grow it)
     /\ fst (random 0 99 (Zoo.crand z)) < Animal.ageDays (grow it)) ->
  Zoo.animals (Zoo.age_visit z it) = Zoo.animals z ++ [grow it]
  /\ Zoo.totalAnimals (Zoo.age_visit z it) = Zoo.totalAnimals z
  /\ Zoo.enclosures (Zoo.age_visit z it) = Zoo.enclosures z.
Proof.
  intros H. unfold Zoo.age_visit. fold (grow it).
  destruct (30 <? Animal.ageDays (grow it)) eqn:H30;
    [|split; [|split]; reflexivity].
  destruct (random 0 99 (Zoo.crand z)) as [roll g]. cbn [fst] in H.
  destruct (roll <? Animal.ageDays (grow it)) eqn:Hroll;
    [|split; [|split]; reflexivity].
  exfalso. apply H. apply Z.ltb_lt in H30, Hroll. auto.
Qed.

(** The loop only appends grown animals of the list it runs over. *)
Lemma age_loop_registry l :
  forall s,
  exists kept,
    Zoo.animals (fold_left Zoo.age_visit l s) = Zoo.animals s ++ kept
    /\ incl (ids kept) (ids l).
Proof.
  induction l as [|it l IH]; intros s; simpl.
  - exists []. rewrite app_nil_r. split; [reflexivity | intros x []].
  - assert (Hcases : Zoo.animals (Zoo.age_visit s it) = Zoo.animals s
                     \/ Zoo.animals (Zoo.age_visit s it)
                        = Zoo.animals s ++ [grow it]).
    { unfold Zoo.age_visit. fold (grow it). branches; auto. }
    destruct (IH (Zoo.age_visit s it)) as (kept' & E & Hincl').
    destruct Hcases as [Hc|Hc]; rewrite Hc in E.
    + exists kept'. split; [exact E|].
      intros x Hx. right. apply Hincl', Hx.
    + exists (grow it :: kept'). rewrite <- app_assoc in E. split; [exact E|].
      intros x [<-|Hx]; [left; reflexivity | right; apply Hincl', Hx].
Qed.

(** Counter and registry shrink together. *)
Lemma age_loop_count l :
  forall s,
    Zoo.totalAnimals (fold_left Zoo.age_visit l s)
    = Zoo.totalAnimals s
      - (Z.of_nat (List.length l)
         - (Z.of_nat (List.length (Zoo.animals (fold_left Zoo.age_visit l s)))
            - Z.of_nat (List.length (Zoo.animals s)))).
Proof.
  induction l as [|it l IH]; intros s; simpl fold_left.
  - simpl. lia.
  - rewrite IH.
    assert (Hstep : Zoo.totalAnimals (Zoo.age_visit s it)
                    - Z.of_nat (List.length (Zoo.animals (Zoo.age_visit s it)))
                    = Zoo.totalAnimals s
                      - Z.of_nat (List.length (Zoo.animals s)) - 1).
    { unfold Zoo.age_visit, Zoo.bury, Zoo.keep. branches; cbn;
        rewrite ?length_app; simpl; lia. }
    simpl List.length. lia.
Qed.

Lemma enclosure_of_on_enclosure i f encs :
  (forall e, Enclosure.id (f e) = Enclosure.id e) ->
  enclosure_of i (Zoo.on_enclosure i f encs) = option_map f (enclosure_of i encs).
Proof.
  intros Hf. unfold enclosure_of.
  induction encs as [|e encs IH]; simpl; [reflexivity|].
  destruct (Enclosure.id e =? i) eqn:E; simpl.
  - rewrite Hf, E. reflexivity.
  - rewrite E. exact IH.
Qed.

Lemma removeAnimal_gone u e :
  ~ In u (ids (Enclosure.animals (Enclosure.removeAnimal u e))).
Proof.
  unfold Enclosure.removeAnimal, ids. cbn. intros H.
  apply in_map_iff in H as (a & Ea & Ha).
  apply filter_In in Ha as [_ Ha]. apply negb_true_iff, Z.eqb_neq in Ha.
  contradiction.
Qed.

(** After a burial the enclosure of the dead animal no longer lists it. *)
Lemma bury_detaches it z e :
  enclosure_of (Animal.enclosureId it) (Zoo.enclosures (Zoo.bury it z)) = Some e ->
  ~ In (Animal.uniqueId it) (ids (Enclosure.animals e)).
Proof.
  unfold Zoo.bury. cbn [Zoo.enclosures Zoo.set_totalAnimals Zoo.set_enclosures].
  rewrite enclosure_of_on_enclosure by reflexivity.
  destruct (enclosure_of _ _) as [e0|]; simpl; [|discriminate].
  intros H. injection H as <-. apply removeAnimal_gone.
Qed.

Lemma ids_app l1 l2 : ids (l1 ++ l2) = ids l1 ++ ids l2.
Proof. apply map_app. Qed.

Lemma animals_begin_day z : Zoo.animals (Zoo.begin_day z) = Zoo.animals z.
Proof. apply (frame_begin_day Zoo.animals); reflexivity. Qed.

Lemma totalAnimals_begin_day z :
  Zoo.totalAnimals (Zoo.begin_day z) = Zoo.totalAnimals z.
Proof. apply (frame_begin_day Zoo.totalAnimals); reflexivity. Qed.

Lemma age_all_count z :
  Zoo.totalAnimals (Zoo.age_all z)
  = Zoo.totalAnimals z
    - (Z.of_nat (List.length (Zoo.animals z))
       - Z.of_nat (List.length (Zoo.animals (Zoo.age_all z)))).
Proof.
  unfold Zoo.age_all. rewrite age_loop_count.
  cbn [Zoo.animals Zoo.totalAnimals Zoo.set_animals List.length]. lia.
Qed.

(** The ageing loop at the animal [it], reached in state [before]. *)
Lemma ageing_at z pre it post :
  Zoo.animals z = pre ++ it :: post ->
  NoDup (ids (Zoo.animals z)) ->
  let before := fold_left Zoo.age_visit pre (Zoo.set_animals [] z) in
  let after := Zoo.age_visit before it in
  let roll := fst (random 0 99 (Zoo.crand before)) in
  let dies := 30 < Animal.ageDays (grow it) /\ roll < Animal.ageDays (grow it) in
  Zoo.age_all z = fold_left Zoo.age_visit post after
  /\ (dies ->
      Zoo.totalAnimals after = Zoo.totalAnimals before - 1
      /\ Zoo.animals after = Zoo.animals before
      /\ Zoo.enclosures after
         = Zoo.on_enclosure (Animal.enclosureId it)
             (Enclosure.removeAnimal (Animal.uniqueId it))
             (Zoo.enclosures before)
      /\ (forall e,
             enclosure_of (Animal.enclosureId it) (Zoo.enclosures after) = Some e ->
             ~ In (Animal.uniqueId it) (ids (Enclosure.animals e)))
      /\ ~ In (Animal.uniqueId it) (ids (Zoo.animals (Zoo.age_all z))))
  /\ (~ dies ->
      Zoo.totalAnimals after = Zoo.totalAnimals before
      /\ Zoo.animals after = Zoo.animals before ++ [grow it]
      /\ Zoo.enclosures after = Zoo.enclosures before
      /\ In (grow it) (Zoo.animals (Zoo.age_all z))).
Proof.
  intros Hsplit Hnodup before after roll dies.
  assert (Hall : Zoo.age_all z = fold_left Zoo.age_visit post after).
  { unfold Zoo.age_all. rewrite Hsplit, fold_left_app. reflexivity. }
  destruct (age_loop_registry pre (Zoo.set_animals [] z)) as (kept1 & E1 & Hin1).
  fold before in E1. cbn [Zoo.animals Zoo.set_animals app] in E1.
  destruct (age_loop_registry post after) as (kept2 & E2 & Hin2).
  rewrite <- Hall in E2.
  unfold ids in Hnodup. rewrite Hsplit, map_app in Hnodup. simpl in Hnodup.
  apply NoDup_remove_2 in Hnodup.
  split; [exact Hall|]. split.
  - intros [H30 Hroll].
    pose proof (age_visit_dies before it H30 Hroll) as Hdies.
    fold after in Hdies.
    assert (Ha : Zoo.animals after = Zoo.animals before)
      by (rewrite Hdies; reflexivity).
    split; [rewrite Hdies; reflexivity|].
    split; [exact Ha|].
    split; [rewrite Hdies; reflexivity|].
    split.
    + intros e He. rewrite Hdies in He. apply (bury_detaches (grow it)) in He.
      exact He.
    + rewrite E2, Ha, E1, ids_app. intros Hin. apply Hnodup.
      apply in_app_or in Hin. apply in_or_app.
      destruct Hin as [Hin|Hin]; [left; apply Hin1, Hin | right; apply Hin2, Hin].
  - intros Hlives.
    destruct (age_visit_survives before it Hlives) as (Ha & Ht & He).
    fold after in Ha, Ht, He.
    split; [exact Ht|]. split; [exact Ha|]. split; [exact He|].
    rewrite E2, Ha. apply in_or_app. left. apply in_or_app. right. left.
    reflexivity.
Qed.

(** C2.  In a day-advance whose registry holds [it] between [pre] and
    [post], with pairwise distinct identities: when the ageing loop reaches
    [it], its age and its days since purchase have each grown by exactly 1;
    with [roll] the next value of [random(0, 99)], it dies exactly when its
    new age exceeds 30 and [roll] is below that age, hence surely beyond 99
    days; a death takes 1 off the counter of animals, erases the animal from
    its enclosure and keeps it out of the registry for the rest of the
    day-advance, while a survivor is appended to the registry and nothing
    else moves; at the end of the loop the counter has dropped by the
    number of animals the registry lost. *)
Theorem ageing_step :
  forall z0 pre it post,
    Zoo.animals z0 = pre ++ it :: post ->
    NoDup (ids (Zoo.animals z0)) ->
    let z := Zoo.begin_day z0 in
    let before := fold_left Zoo.age_visit pre (Zoo.set_animals [] z) in
    let after := Zoo.age_visit before it in
    let roll := fst (random 0 99 (Zoo.crand before)) in
    let dies := 30 < Animal.ageDays (grow it) /\ roll < Animal.ageDays (grow it) in
    Animal.ageDays (grow it) = Animal.ageDays it + 1
    /\ Animal.daysSincePurchase (grow it) = Animal.daysSincePurchase it + 1
    /\ 0 <= roll <= 99
    /\ (99 < Animal.ageDays (grow it) -> dies)
    /\ Zoo.nextDay z0
       = Zoo.after_feeding
           (Zoo.feed_all (Zoo.after_ageing (fold_left Zoo.age_visit post after)))
    /\ (dies ->
        Zoo.totalAnimals after = Zoo.totalAnimals before - 1
        /\ Zoo.animals after = Zoo.animals before
        /\ Zoo.enclosures after
           = Zoo.on_enclosure (Animal.enclosureId it)
               (Enclosure.removeAnimal (Animal.uniqueId it))
               (Zoo.enclosures before)
        /\ (forall e,
               enclosure_of (Animal.enclosureId it) (Zoo.enclosures after) = Some e ->
               ~ In (Animal.uniqueId it) (ids (Enclosure.animals e)))
        /\ ~ In (Animal.uniqueId it) (ids (Zoo.animals (Zoo.age_all z))))
    /\ (~ dies ->
        Zoo.totalAnimals after = Zoo.totalAnimals before
        /\ Zoo.animals after = Zoo.animals before ++ [grow it]
        /\ Zoo.enclosures after = Zoo.enclosures before
        /\ In (grow it) (Zoo.animals (Zoo.age_all z)))
    /\ Zoo.totalAnimals (Zoo.age_all z)
       = Zoo.totalAnimals z0
         - (Z.of_nat (List.length (Zoo.animals z0))
            - Z.of_nat (List.length (Zoo.animals (Zoo.age_all z)))).
Proof.
  intros z0 pre it post Hsplit Hnodup. cbv zeta.
  rewrite <- (animals_begin_day z0) in Hsplit, Hnodup.
  destruct (ageing_at _ pre it post Hsplit Hnodup) as (Hall & Hdies & Hlives).
  pose proof (random_range 0 99
                (Zoo.crand (fold_left Zoo.age_visit pre
                              (Zoo.set_animals [] (Zoo.begin_day z0))))) as Hroll.
  split; [reflexivity|]. split; [reflexivity|].
  split; [apply Hroll; lia|].
  split; [intros H99; split; lia|].
  split; [rewrite nextDay_eq, Hall; reflexivity|].
  split; [exact Hdies|]. split; [exact Hlives|].
  rewrite age_all_count, animals_begin_day, totalAnimals_begin_day.
  reflexivity.
Qed.

(** ** Feeding and starvation *)

Lemma random_0_99 g : random 0 99 g = (starve_roll g 0, advance 1 g).
Proof.
  unfold random, draw, starve_roll, advance.
  rewrite Nat.add_0_r, Nat.add_1_r. reflexivity.
Qed.

Lemma starve_roll_range g i : 0 <= starve_roll g i <= 99.
Proof.
  unfold starve_roll.
  pose proof (Z.rem_bound_pos (Z.of_nat (tape g (pos g + i)%nat)) 100). lia.
Qed.

Lemma starve_roll_shift g i : starve_roll g (S i) = starve_roll (advance 1 g) i.
Proof.
  unfold starve_roll, advance. simpl. do 3 f_equal. lia.
Qed.

Lemma advance_advance n m g : advance n (advance m g) = advance (m + n) g.
Proof. unfold advance. simpl. f_equal. lia. Qed.

Lemma rolled_cons g it l :
  rolled g (it :: l) = (it, starve_roll g 0) :: rolled (advance 1 g) l.
Proof.
  unfold rolled. simpl. f_equal. f_equal.
  rewrite <- seq_shift, map_map. apply map_ext. apply starve_roll_shift.
Qed.

Lemma starved_cons g it l :
  starved g (it :: l)
  = if starve_roll g 0 <? 30 then it :: starved (advance 1 g) l
    else starved (advance 1 g) l.
Proof.
  unfold starved. rewrite rolled_cons. simpl.
  destruct (starve_roll g 0 <? 30); reflexivity.
Qed.

Lemma spared_cons g it l :
  spared g (it :: l)
  = if starve_roll g 0 <? 30 then spared (advance 1 g) l
    else it :: spared (advance 1 g) l.
Proof.
  unfold spared. rewrite rolled_cons. simpl.
  destruct (starve_roll g 0 <? 30); reflexivity.
Qed.

(** The starvation loop, in closed form. *)
Lemma starve_loop l :
  forall s,
    let s' := fold_left Zoo.starve_visit l s in
    Zoo.animals s' = Zoo.animals s ++ spared (Zoo.crand s) l
    /\ Zoo.enclosures s' = detach_all (starved (Zoo.crand s) l) (Zoo.enclosures s)
    /\ Zoo.totalAnimals s'
       = Zoo.totalAnimals s - Z.of_nat (List.length (starved (Zoo.crand s) l))
    /\ Zoo.crand s' = advance (List.length l) (Zoo.crand s)
    /\ Zoo.food s' = Zoo.food s.
Proof.
  induction l as [|it l IH]; intros s; cbv zeta.
  - simpl. rewrite app_nil_r. unfold advance. rewrite Nat.add_0_r.
    repeat split; try lia. destruct (Zoo.crand s); reflexivity.
  - simpl fold_left.
    destruct (IH (Zoo.starve_visit s it)) as (Ha & He & Ht & Hc & Hf).
    rewrite Ha, He, Ht, Hc, Hf. clear IH Ha He Ht Hc Hf.
    rewrite starved_cons, spared_cons.
    unfold Zoo.starve_visit. rewrite random_0_99.
    destruct (starve_roll (Zoo.crand s) 0 <? 30);
      cbn [Zoo.animals Zoo.enclosures Zoo.totalAnimals Zoo.crand Zoo.food
           Zoo.bury Zoo.keep Zoo.set_crand Zoo.set_animals Zoo.set_enclosures
           Zoo.set_totalAnimals detach_all fold_left List.length];
      rewrite advance_advance; repeat split; try reflexivity.
    + rewrite Nat2Z.inj_succ. lia.
    + rewrite <- app_assoc. reflexivity.
Qed.

Lemma filter_combine_length {A B} (f : A * B -> bool) (l : list A) (r : list B) :
  (List.length (map fst (filter f (combine l r))) <= List.length l)%nat.
Proof.
  rewrite length_map.
  etransitivity; [apply filter_length_le|].
  rewrite length_combine. apply Nat.le_min_l.
Qed.

Lemma foodNeeded_count l :
  Zoo.foodNeeded l
  = Z.of_nat (List.length (herbivores l))
    + 2 * Z.of_nat (List.length (carnivores l)).
Proof.
  unfold Zoo.foodNeeded, herbivores, carnivores.
  assert (H : forall n,
             fold_left
               (fun n animal =>
                  n + (if AnimalType_eqb (Animal.type animal) HERBIVORE
                       then 1 else 2)) l n
             = n + (Z.of_nat (List.length
                      (filter (fun a => AnimalType_eqb (Animal.type a) HERBIVORE) l))
                    + 2 * Z.of_nat (List.length
                      (filter (fun a => negb (AnimalType_eqb (Animal.type a) HERBIVORE)) l)))).
  { induction l as [|a l IH]; intros n; cbn [fold_left filter]; [simpl; lia|].
    rewrite IH.
    destruct (AnimalType_eqb (Animal.type a) HERBIVORE);
      cbn [negb List.length]; rewrite Nat2Z.inj_succ; lia. }
  rewrite H. lia.
Qed.

(** Detaching only ever erases. *)
Lemma enclosure_of_detached i j u encs e' :
  enclosure_of i (Zoo.on_enclosure j (Enclosure.removeAnimal u) encs) = Some e' ->
  exists e,
    enclosure_of i encs = Some e
    /\ incl (ids (Enclosure.animals e')) (ids (Enclosure.animals e))
    /\ (i = j -> ~ In u (ids (Enclosure.animals e'))).
Proof.
  unfold enclosure_of.
  induction encs as [|e encs IH]; simpl; [discriminate|].
  destruct (Enclosure.id e =? j) eqn:Ej; simpl.
  - destruct (Enclosure.id e =? i) eqn:Ei.
    + intros H. injection H as <-. exists e. split; [reflexivity|]. split.
      * unfold Enclosure.removeAnimal, ids. cbn. intros x Hx.
        apply in_map_iff in Hx as (a & <- & Ha). apply filter_In in Ha as [Ha _].
        apply in_map, Ha.
      * intros _. apply removeAnimal_gone.
    + intros H. exists e'. split; [exact H|]. split; [apply incl_refl|].
      intros ->. apply Z.eqb_eq in Ej. apply Z.eqb_neq in Ei. congruence.
  - destruct (Enclosure.id e =? i) eqn:Ei.
    + intros H. injection H as <-. exists e. split; [reflexivity|].
      split; [apply incl_refl|].
      intros ->. rewrite Ei in Ej. discriminate.
    + apply IH.
Qed.

Lemma detach_all_shrinks dead :
  forall encs i e',
    enclosure_of i (detach_all dead encs) = Some e' ->
    exists e,
      enclosure_of i encs = Some e
      /\ incl (ids (Enclosure.animals e')) (ids (Enclosure.animals e)).
Proof.
  induction dead as [|it dead IH]; intros encs i e' H; simpl in H.
  - exists e'. split; [exact H | apply incl_refl].
  - apply IH in H as (e1 & H1 & Hincl1).
    apply enclosure_of_detached in H1 as (e & H & Hincl & _).
    exists e. split; [exact H|].
    intros x Hx. apply Hincl, Hincl1, Hx.
Qed.

Lemma detach_all_detaches dead :
  forall encs it e,
    In it dead ->
    enclosure_of (Animal.enclosureId it) (detach_all dead encs) = Some e ->
    ~ In (Animal.uniqueId it) (ids (Enclosure.animals e)).
Proof.
  induction dead as [|d dead IH]; intros encs it e Hin H; [contradiction|].
  simpl in H. destruct Hin as [->|Hin]; [|eapply IH; eassumption].
  apply detach_all_shrinks in H as (e1 & H1 & Hincl1).
  apply enclosure_of_detached in H1 as (e0 & _ & _ & Hgone).
  intros Hx. apply (Hgone eq_refl), Hincl1, Hx.
Qed.

(** The feeding step in state [s]. *)
Lemma feeding_at s :
  let s' := Zoo.feed_all s in
  let needed := Zoo.foodNeeded (Zoo.animals s) in
  let g := Zoo.crand s in
  (Zoo.food s < needed ->
   Zoo.food s' = Zoo.food s
   /\ Zoo.animals s' = spared g (Zoo.animals s)
   /\ Zoo.enclosures s'
      = detach_all (starved g (Zoo.animals s)) (Zoo.enclosures s)
   /\ Zoo.totalAnimals s'
      = Zoo.totalAnimals s
        - Z.of_nat (List.length (starved g (Zoo.animals s)))
   /\ (List.length (starved g (Zoo.animals s))
       <= List.length (Zoo.animals s))%nat
   /\ (forall it e,
          In it (starved g (Zoo.animals s)) ->
          enclosure_of (Animal.enclosureId it) (Zoo.enclosures s') = Some e ->
          ~ In (Animal.uniqueId it) (ids (Enclosure.animals e))))
  /\ (needed <= Zoo.food s -> s' = Zoo.set_food (Zoo.food s - needed) s).
Proof.
  cbv zeta. unfold Zoo.feed_all. split.
  - intros Hshort. apply Z.leb_gt in Hshort. rewrite Hshort.
    destruct (starve_loop (Zoo.animals s) (Zoo.set_animals [] s))
      as (Ha & He & Ht & _ & Hf).
    cbn [Zoo.animals Zoo.enclosures Zoo.totalAnimals Zoo.crand Zoo.food
         Zoo.set_animals app] in Ha, He, Ht, Hf.
    rewrite Ha, He, Ht, Hf.
    split; [reflexivity|]. split; [reflexivity|]. split; [reflexivity|].
    split; [reflexivity|]. split; [apply filter_combine_length|].
    intros it e. apply detach_all_detaches.
  - intros Hfed. apply Z.leb_le in Hfed. rewrite Hfed. reflexivity.
Qed.

(** C3.  At the feeding step of a day-advance the demand is 1 per herbivore
    and 2 per carnivore of the registry.  If the stock is below the demand,
    the stock is left as it is, the [i]-th animal of the registry dies
    exactly when the [i]-th following value of [random(0, 99)] is below 30,
    and each death erases the animal from its enclosure, keeps it out of the
    registry and takes 1 off the counter of animals, so that no more animals
    go than there were.  If the stock covers the demand, the demand is taken
    off the stock and nothing else changes. *)
Theorem feeding_step :
  forall z0,
    let s := Zoo.after_ageing (Zoo.age_all (Zoo.begin_day z0)) in
    let s' := Zoo.feed_all s in
    let needed := Zoo.foodNeeded (Zoo.animals s) in
    let g := Zoo.crand s in
    Zoo.nextDay z0 = Zoo.after_feeding s'
    /\ needed
       = Z.of_nat (List.length (herbivores (Zoo.animals s)))
         + 2 * Z.of_nat (List.length (carnivores (Zoo.animals s)))
    /\ (forall i, 0 <= starve_roll g i <= 99)
    /\ (Zoo.food s < needed ->
        Zoo.food s' = Zoo.food s
        /\ Zoo.animals s' = spared g (Zoo.animals s)
        /\ Zoo.enclosures s'
           = detach_all (starved g (Zoo.animals s)) (Zoo.enclosures s)
        /\ Zoo.totalAnimals s'
           = Zoo.totalAnimals s
             - Z.of_nat (List.length (starved g (Zoo.animals s)))
        /\ (List.length (starved g (Zoo.animals s))
            <= List.length (Zoo.animals s))%nat
        /\ (forall it e,
               In it (starved g (Zoo.animals s)) ->
               enclosure_of (Animal.enclosureId it) (Zoo.enclosures s') = Some e ->
               ~ In (Animal.uniqueId it) (ids (Enclosure.animals e))))
    /\ (needed <= Zoo.food s -> s' = Zoo.set_food (Zoo.food s - needed) s).
Proof.
  intros z0. cbv zeta.
  split; [apply nextDay_eq|].
  split; [apply foodNeeded_count|].
  split; [intros i; apply starve_roll_range|].
  apply (feeding_at (Zoo.after_ageing (Zoo.age_all (Zoo.begin_day z0)))).
Qed.

Lemma ageing_step_witness :
  Zoo.animals deer_day_21 = [old_deer]
  /\ Animal.ageDays old_deer = 30
  /\ ~ In (Animal.uniqueId old_deer)
         (ids (Zoo.animals (Zoo.age_all (Zoo.begin_day deer_day_21)))).
Proof.
  assert (E : Zoo.animals deer_day_21 = [] ++ old_deer :: [])
    by (vm_compute; reflexivity).
  assert (Hnodup : NoDup (ids (Zoo.animals deer_day_21))).
  { rewrite E. repeat constructor. intros []. }
  split; [exact E|]. split; [reflexivity|].
  destruct (ageing_step deer_day_21 [] old_deer [] E Hnodup)
    as (_ & _ & _ & _ & _ & Hdies & _).
  apply Hdies. split; vm_compute; reflexivity.
Defined.

Lemma feeding_step_witness :
  let s := Zoo.after_ageing (Zoo.age_all (Zoo.begin_day hungry_zoo)) in
  Zoo.food s < Zoo.foodNeeded (Zoo.animals s)
  /\ List.length (Zoo.animals s) = 2%nat
  /\ Zoo.food (Zoo.feed_all s) = Zoo.food s
  /\ Zoo.animals (Zoo.feed_all s) = []
  /\ Zoo.totalAnimals (Zoo.feed_all s) = Zoo.totalAnimals s - 2.
Proof.
  cbv zeta.
  assert (Hshort :
            Zoo.food (Zoo.after_ageing (Zoo.age_all (Zoo.begin_day hungry_zoo)))
            < Zoo.foodNeeded
                (Zoo.animals
                   (Zoo.after_ageing (Zoo.age_all (Zoo.begin_day hungry_zoo)))))
    by (vm_compute; reflexivity).
  destruct (feeding_step hungry_zoo) as (_ & _ & _ & Hstarve & _).
  destruct (Hstarve Hshort) as (Hfood & Hanimals & _ & Htotal & _).
  split; [exact Hshort|].
  split; [vm_compute; reflexivity|].
  split; [exact Hfood|].
  split.
  - rewrite Hanimals. vm_compute. reflexivity.
  - assert (Hn : List.length
                   (starved
                      (Zoo.crand
                         (Zoo.after_ageing
                            (Zoo.age_all (Zoo.begin_day hungry_zoo))))
                      (Zoo.animals
                         (Zoo.after_ageing
                            (Zoo.age_all (Zoo.begin_day hungry_zoo)))))
                 = 2%nat) by (vm_compute; reflexivity).
    rewrite Htotal, Hn. reflexivity.
Defined.
(** ** The menus, field by field *)

Ltac cases :=
  repeat match goal with
         | |- context [match ?x with _ => _ end] => destruct x
         end.

Section MenuFrames.
Context {B : Type} (proj : Zoo.t -> B).
Hypothesis proj_money : forall x z, proj (Zoo.set_money x z) = proj z.
Hypothesis proj_food : forall x z, proj (Zoo.set_food x z) = proj z.
Hypothesis proj_popularity : forall x z, proj (Zoo.set_popularity x z) = proj z.
Hypothesis proj_loans : forall x z, proj (Zoo.set_loans x z) = proj z.

Lemma frame_buyFood n z : proj (Zoo.buyFood n z) = proj z.
Proof.
  unfold Zoo.buyFood. destruct (_ >=? _)%D; [|reflexivity].
  now rewrite proj_money, proj_food.
Qed.

Lemma frame_advertise n z : proj (Zoo.advertise n z) = proj z.
Proof.
  unfold Zoo.advertise. destruct (_ >=? _)%D; [|reflexivity].
  now rewrite proj_money, proj_popularity.
Qed.

Lemma frame_borrow a d z : proj (Zoo.borrow a d z) = proj z.
Proof.
  unfold Zoo.borrow. destruct (Loan.make_default _ _); [|reflexivity].
  now rewrite proj_money, proj_loans.
Qed.

Hypothesis proj_mt : forall x z, proj (Zoo.set_mt x z) = proj z.
Hypothesis proj_crand : forall x z, proj (Zoo.set_crand x z) = proj z.
Hypothesis proj_nextId : forall x z, proj (Zoo.set_nextId x z) = proj z.
Hypothesis proj_market : forall x z, proj (Zoo.set_marketAnimals x z) = proj z.

Lemma frame_refresh_for_fee z : proj (Zoo.refresh_for_fee z) = proj z.
Proof.
  unfold Zoo.refresh_for_fee. destruct (_ >=? _)%D; [|reflexivity].
  rewrite (frame_refreshMarket proj); auto.
Qed.

Hypothesis proj_animals : forall x z, proj (Zoo.set_animals x z) = proj z.
Hypothesis proj_enclosures : forall x z, proj (Zoo.set_enclosures x z) = proj z.
Hypothesis proj_total : forall x z, proj (Zoo.set_totalAnimals x z) = proj z.

Lemma frame_sell c z : proj (Zoo.sell c z) = proj z.
Proof.
  unfold Zoo.sell. cases; try reflexivity.
  all: now rewrite proj_total, proj_animals, proj_enclosures, proj_money.
Qed.

Lemma frame_rename c n z : proj (Zoo.rename c n z) = proj z.
Proof.
  unfold Zoo.rename. cases; try reflexivity.
  all: now rewrite proj_enclosures, proj_animals.
Qed.

Lemma frame_breed a b z : proj (Zoo.breed a b z) = proj z.
Proof.
  unfold Zoo.breed. cases; try reflexivity.
  all: now rewrite proj_total, proj_animals, proj_enclosures, proj_crand,
         proj_nextId.
Qed.

Lemma frame_build c t k z : proj (Zoo.build c t k z) = proj z.
Proof.
  unfold Zoo.build. destruct (_ >=? _)%D; [|reflexivity].
  now rewrite proj_money, proj_enclosures.
Qed.
End MenuFrames.

Section StaffFrames.
Context {B : Type} (proj : Zoo.t -> B).
Hypothesis proj_workers : forall x z, proj (Zoo.set_workers x z) = proj z.

Lemma frame_hire n p i z : proj (Zoo.hire n p i z) = proj z.
Proof. unfold Zoo.hire. cases; apply proj_workers. Qed.

Lemma frame_fire c z : proj (Zoo.fire c z) = proj z.
Proof. unfold Zoo.fire. cases; try reflexivity; apply proj_workers. Qed.

Lemma frame_assign c e d z : proj (Zoo.assign c e d z) = proj z.
Proof. unfold Zoo.assign. cases; try reflexivity; apply proj_workers. Qed.
End StaffFrames.

Lemma workers_purchase c e z : Zoo.workers (Zoo.purchase c e z) = Zoo.workers z.
Proof. unfold Zoo.purchase. cases; reflexivity. Qed.

(** ** The workforce *)

Lemma hire_recruit n posChoice inputs z :
  Zoo.hire n posChoice inputs z
  = Zoo.set_workers
      (Zoo.workers z ++ [recruit n posChoice inputs (Zoo.enclosures z)]) z.
Proof.
  unfold Zoo.hire, recruit.
  destruct (match posChoice with 1 => _ | 2 => _ | 3 => _ | _ => _ end).
  reflexivity.
Qed.

Lemma run_staff_step z a :
  valid_input z a = true ->
  staff_step (Zoo.enclosures z) (Zoo.workers z) (Zoo.workers (run a z)).
Proof.
  intros Hv. destruct a; cbn [run].
  - rewrite workers_purchase. apply staff_same.
  - rewrite (frame_sell Zoo.workers) by reflexivity. apply staff_same.
  - rewrite (frame_rename Zoo.workers) by reflexivity. apply staff_same.
  - rewrite (frame_refresh_for_fee Zoo.workers) by reflexivity. apply staff_same.
  - rewrite hire_recruit. apply staff_hire.
  - unfold Zoo.fire.
    destruct (Z.of_nat (List.length (Zoo.workers z)) <=? 1) eqn:E1;
      [apply staff_same|].
    destruct (_ && _); [|apply staff_same].
    destruct (nth_error _ _) as [w|] eqn:En; [|apply staff_same].
    destruct (WorkerType_eqb (Worker.type w) DIRECTOR) eqn:Ed;
      [apply staff_same|].
    change (Zoo.workers (Zoo.set_workers ?l _)) with l.
    apply staff_fire with w; auto.
    + intros E. rewrite E in Ed. discriminate.
    + apply Z.leb_gt in E1. lia.
  - unfold Zoo.assign.
    destruct (Zoo.workers z) as [|w0 ws] eqn:Ew; [cbn [negb]; cbv beta iota; rewrite Ew; apply staff_same|].
    destruct (Zoo.enclosures z) as [|e0 es] eqn:Ee;
      [cbn [negb]; cbv beta iota; rewrite Ew; apply staff_same|].
    destruct (workerChoice =? 0); [cbn [negb]; cbv beta iota; rewrite Ew; apply staff_same|].
    destruct (_ || _); [cbn [negb]; cbv beta iota; rewrite Ew; apply staff_same|].
    destruct (nth_error _ _) as [w|] eqn:En; [|cbn [negb]; cbv beta iota; rewrite Ew; apply staff_same].
    destruct (WorkerType_eqb (Worker.type w) DIRECTOR) eqn:Ed;
      [cbn [negb]; cbv beta iota; rewrite Ew; apply staff_same|].
    destruct (encId =? 0); [cbn [negb]; cbv beta iota; rewrite Ew; apply staff_same|].
    destruct (Zoo.known_enclosure encId (e0 :: es)) eqn:Ek;
      [|cbn [negb]; cbv beta iota; rewrite Ew; apply staff_same].
    cbn [negb].
    destruct (Worker.has_enclosure encId w) eqn:Eh;
      [cbn [negb]; cbv beta iota; rewrite Ew; apply staff_same|].
    destruct (_ <=? _) eqn:Ec; [cbn [negb]; cbv beta iota; rewrite Ew; apply staff_same|].
    change (Zoo.workers (Zoo.set_workers ?l _)) with l.
    apply staff_assign; auto.
    + intros E. rewrite E in Ed. discriminate.
    + apply Z.leb_gt in Ec. unfold maxEnclosures. exact Ec.
    + cbn [valid_input] in Hv. unfold in_range in Hv.
      apply andb_prop in Hv as [_ Hv]. apply andb_prop in Hv. lia.
  - rewrite (frame_buyFood Zoo.workers) by reflexivity. apply staff_same.
  - rewrite (frame_advertise Zoo.workers) by reflexivity. apply staff_same.
  - rewrite (frame_borrow Zoo.workers) by reflexivity. apply staff_same.
  - rewrite (frame_build Zoo.workers) by reflexivity. apply staff_same.
  - rewrite (frame_breed Zoo.workers) by reflexivity. apply staff_same.
  - rewrite workers_nextDay. apply staff_day.
Qed.

Lemma staff_step_Forall (P : Worker.t -> Prop) encs ws ws' :
  staff_step encs ws ws' ->
  (forall n posChoice inputs, P (recruit n posChoice inputs encs)) ->
  (forall w encId daysAssigned,
      P w -> Worker.type w <> DIRECTOR ->
      Worker.has_enclosure encId w = false ->
      Z.of_nat (List.length (Worker.assignedEnclosures w))
      < maxEnclosures (Worker.type w) ->
      1 <= daysAssigned <= 365 ->
      P (Worker.setDaysAssigned daysAssigned (Worker.assignEnclosure encId w))) ->
  (forall w, P w -> P (Zoo.worker_day w)) ->
  Forall P ws -> Forall P ws'.
Proof.
  intros Hstep Hhire Hassign Hday Hall.
  destruct Hstep as [ws|ws n p i|ws k w En Hd Hlen
                     |ws k w encId d En Hd Hh Hk Hc Hr|ws].
  - exact Hall.
  - apply Forall_app. split; [exact Hall|]. constructor; [apply Hhire|constructor].
  - destruct (erase_at_split _ _ _ En) as (l1 & l2 & E & E' & _).
    rewrite E'. rewrite E in Hall.
    apply Forall_app in Hall as [H1 H2]. apply Forall_app. split; [exact H1|].
    now inversion H2.
  - destruct (assign_at_split _ _ _
                (Worker.setDaysAssigned d (Worker.assignEnclosure encId w)) En)
      as (l1 & l2 & E & E').
    rewrite E'. rewrite E in Hall.
    apply Forall_app in Hall as [H1 H2]. apply Forall_app. split; [exact H1|].
    inversion H2; subst. constructor; [|assumption].
    apply Hassign; assumption.
  - apply Forall_map. eapply Forall_impl; [|exact Hall]. exact Hday.
Qed.

Lemma reachable_staff (P : Worker.t -> Prop) :
  Forall P Zoo.initial_workers ->
  (forall n posChoice inputs encs, P (recruit n posChoice inputs encs)) ->
  (forall w encId daysAssigned,
      P w -> Worker.type w <> DIRECTOR ->
      Worker.has_enclosure encId w = false ->
      Z.of_nat (List.length (Worker.assignedEnclosures w))
      < maxEnclosures (Worker.type w) ->
      1 <= daysAssigned <= 365 ->
      P (Worker.setDaysAssigned daysAssigned (Worker.assignEnclosure encId w))) ->
  (forall w, P w -> P (Zoo.worker_day w)) ->
  forall z, reachable z -> Forall P (Zoo.workers z).
Proof.
  intros H0 Hhire Hassign Hday z Hz.
  induction Hz as [n rt mt|z a Hz IH Hv].
  - destruct (make_fields n rt mt) as (_ & _ & _ & _ & _ & _ & E & _).
    rewrite E. exact H0.
  - eapply staff_step_Forall; eauto using run_staff_step.
Qed.

(** What the hiring dialogue can change of the fresh worker: the
    enclosures. *)
Lemma post_assignEnclosure encId w : post (Worker.assignEnclosure encId w) = post w.
Proof.
  unfold Worker.assignEnclosure. destruct (Worker.has_enclosure encId w);
    reflexivity.
Qed.

Lemma post_hire_feeder rounds :
  forall inputs encs w, post (Zoo.hire_feeder rounds inputs encs w) = post w.
Proof.
  induction rounds as [|rounds IH]; intros inputs encs w; [reflexivity|].
  destruct inputs as [|encId more]; [reflexivity|].
  cbn [Zoo.hire_feeder]. destruct (encId =? 0); [reflexivity|].
  rewrite IH. destruct (Zoo.known_enclosure encId encs);
    [apply post_assignEnclosure|reflexivity].
Qed.

Lemma post_hire_veterinarian inputs :
  forall encs total w,
    post (Zoo.hire_veterinarian inputs encs total w) = post w.
Proof.
  induction inputs as [|encId more IH]; intros encs total w; [reflexivity|].
  cbn [Zoo.hire_veterinarian]. destruct (encId =? 0); [reflexivity|].
  destruct (find _ encs); [|apply IH].
  destruct (20 <? _); [apply IH|].
  rewrite IH. apply post_assignEnclosure.
Qed.

Lemma post_recruit n posChoice inputs encs :
  exists position,
    position <> DIRECTOR
    /\ (posChoice = 1 -> position = VETERINARIAN)
    /\ (posChoice = 2 -> position = CLEANER)
    /\ (posChoice = 3 -> position = FEEDER)
    /\ post (recruit n posChoice inputs encs)
       = (n, position, Worker.getSalaryForType position, 0, 0,
          if WorkerType_eqb position VETERINARIAN then 20 else 0).
Proof.
  unfold recruit.
  destruct posChoice as [|[[]|[]|]|];
    match goal with
    | |- context [Worker.make n ?p _ _ []] => exists p
    end;
    (repeat (split; [congruence|]));
    (destruct encs as [|e0 es]; [reflexivity|]);
    cbv beta iota zeta.
  all: try (rewrite post_hire_veterinarian; reflexivity).
  all: try (rewrite post_hire_feeder; reflexivity).
  all: destruct inputs as [|encId more]; [reflexivity|];
    destruct (Zoo.known_enclosure encId (e0 :: es)); [|reflexivity];
    rewrite post_assignEnclosure; reflexivity.
Qed.

Lemma post_type w w' : post w' = post w -> Worker.type w' = Worker.type w.
Proof. unfold post. congruence. Qed.

Lemma worker_day_type w : Worker.type (Zoo.worker_day w) = Worker.type w.
Proof.
  unfold Zoo.worker_day, Worker.decrementDaysAssigned, Worker.incrementDaysWorked.
  cbn. destruct (0 <? _); cbn; destruct (_ =? 0); reflexivity.
Qed.

(** ** The rules of the staff *)

(** X1: in every state of a game the staff list starts with the director
    and holds no other director: hiring offers no such post, firing and
    assigning refuse the director, and the day advance changes no post. *)
Theorem director_stays :
  forall z, reachable z -> directed (Zoo.workers z).
Proof.
  intros z Hz. induction Hz as [n rt mt|z a Hz IH Hv].
  - destruct (make_fields n rt mt) as (_ & _ & _ & _ & _ & _ & E & _).
    rewrite E. eexists _, _. split; [reflexivity|]. split; [reflexivity|].
    repeat constructor; discriminate.
  - destruct IH as (d & rest & E & Hd & Hrest).
    pose proof (run_staff_step z a Hv) as Hstep. rewrite E in Hstep.
    remember (d :: rest) as ws eqn:Ews.
    destruct Hstep as [ws|ws n p i|ws k w En Hw Hlen
                       |ws k w encId days En Hw Hh Hk Hc Hr|ws]; subst ws.
    + exists d, rest. auto.
    + exists d, (rest ++ [recruit n p i (Zoo.enclosures z)]).
      split; [reflexivity|]. split; [exact Hd|].
      apply Forall_app. split; [exact Hrest|]. constructor; [|constructor].
      destruct (post_recruit n p i (Zoo.enclosures z)) as (pos & Hp & _ & _ & _ & E').
      unfold post in E'. congruence.
    + destruct k as [|k]; [cbn in En; congruence|].
      exists d, (erase_at k rest). split; [reflexivity|]. split; [exact Hd|].
      cbn in En. destruct (erase_at_split _ _ _ En) as (l1 & l2 & E1 & E2 & _).
      rewrite E2. rewrite E1 in Hrest.
      apply Forall_app in Hrest as [H1 H2]. apply Forall_app.
      split; [exact H1|]. now inversion H2.
    + destruct k as [|k]; [cbn in En; congruence|].
      exists d, (assign_at k
                   (Worker.setDaysAssigned days (Worker.assignEnclosure encId w))
                   rest).
      split; [reflexivity|]. split; [exact Hd|].
      cbn in En.
      destruct (assign_at_split _ _ _
                  (Worker.setDaysAssigned days (Worker.assignEnclosure encId w)) En)
        as (l1 & l2 & E1 & E2).
      rewrite E2. rewrite E1 in Hrest.
      apply Forall_app in Hrest as [H1 H2]. apply Forall_app.
      split; [exact H1|]. inversion H2; subst. constructor; [|assumption].
      cbn [Worker.setDaysAssigned Worker.type].
      rewrite (post_type _ _ (post_assignEnclosure encId w)). exact Hw.
    + exists (Zoo.worker_day d), (map Zoo.worker_day rest).
      split; [reflexivity|]. split; [now rewrite worker_day_type|].
      apply Forall_map. eapply Forall_impl; [|exact Hrest].
      intros w. cbv beta. now rewrite worker_day_type.
Qed.

Lemma director_stays_witness :
  directed
    (Zoo.workers
       (run (Fire 1)
          (run (Hire "N" 1 [1]) (Zoo.make "Z" (fun _ => 0%nat) (fun _ => 0%nat))))).
Proof.
  apply director_stays.
  apply reach_run; [|reflexivity].
  apply reach_run; [apply reach_make | reflexivity].
Defined.

(** X2: in every state of a game each worker is paid the salary of the post
    (director 60, veterinarian 50, cleaner 30, feeder 40) and only a
    veterinarian has a daily number of treatments, which is 20. *)
Theorem staff_on_terms :
  forall z, reachable z -> Forall on_terms (Zoo.workers z).
Proof.
  apply reachable_staff.
  - repeat constructor.
  - intros n p i encs.
    destruct (post_recruit n p i encs) as (pos & _ & _ & _ & _ & E).
    unfold post in E. unfold on_terms.
    replace (Worker.salary _) with (Worker.getSalaryForType pos) by congruence.
    replace (Worker.type _) with pos by congruence.
    split; [reflexivity|]. congruence.
  - intros w encId d [H1 H2] _ _ _ _.
    pose proof (post_assignEnclosure encId w) as E. unfold post in E.
    unfold on_terms. cbn [Worker.setDaysAssigned Worker.type Worker.salary Worker.maxAnimals].
    replace (Worker.salary _) with (Worker.salary w) by congruence.
    replace (Worker.type _) with (Worker.type w) by congruence.
    replace (Worker.maxAnimals _) with (Worker.maxAnimals w) by congruence.
    auto.
  - intros w [H1 H2]. unfold on_terms. rewrite worker_day_type.
    unfold Zoo.worker_day, Worker.decrementDaysAssigned,
      Worker.incrementDaysWorked.
    cbn. destruct (0 <? _); cbn; destruct (_ =? 0); cbn; auto.
Qed.

Lemma staff_on_terms_witness :
  Forall on_terms
    (Zoo.workers
       (run NextDay
          (run (Hire "N" 1 [1]) (Zoo.make "Z" (fun _ => 0%nat) (fun _ => 0%nat))))).
Proof.
  apply staff_on_terms.
  apply reach_run; [|reflexivity].
  apply reach_run; [apply reach_make | reflexivity].
Defined.

Lemma has_enclosure_In encId w :
  Worker.has_enclosure encId w = false -> ~ In encId (Worker.assignedEnclosures w).
Proof.
  unfold Worker.has_enclosure. intros H Hin.
  assert (existsb (Z.eqb encId) (Worker.assignedEnclosures w) = true); [|congruence].
  apply existsb_exists. exists encId. split; [exact Hin|apply Z.eqb_refl].
Qed.

Lemma assignEnclosure_NoDup encId w :
  NoDup (Worker.assignedEnclosures w) ->
  NoDup (Worker.assignedEnclosures (Worker.assignEnclosure encId w)).
Proof.
  intros H. unfold Worker.assignEnclosure.
  destruct (Worker.has_enclosure encId w) eqn:E; [exact H|].
  cbn. apply NoDup_app; [exact H|repeat constructor; intros []|].
  intros x Hx [<-|[]]. now apply has_enclosure_In in E.
Qed.

Lemma assignEnclosure_length encId w :
  (List.length (Worker.assignedEnclosures (Worker.assignEnclosure encId w))
   <= S (List.length (Worker.assignedEnclosures w)))%nat.
Proof.
  unfold Worker.assignEnclosure.
  destruct (Worker.has_enclosure encId w); cbn; [lia|].
  rewrite length_app. cbn. lia.
Qed.

Lemma hire_feeder_NoDup rounds :
  forall inputs encs w,
    NoDup (Worker.assignedEnclosures w) ->
    NoDup (Worker.assignedEnclosures (Zoo.hire_feeder rounds inputs encs w)).
Proof.
  induction rounds as [|rounds IH]; intros inputs encs w H; [exact H|].
  destruct inputs as [|encId more]; [exact H|].
  cbn [Zoo.hire_feeder]. destruct (encId =? 0); [exact H|].
  apply IH. destruct (Zoo.known_enclosure encId encs);
    [now apply assignEnclosure_NoDup|exact H].
Qed.

Lemma hire_feeder_length rounds :
  forall inputs encs w,
    (List.length (Worker.assignedEnclosures (Zoo.hire_feeder rounds inputs encs w))
     <= List.length (Worker.assignedEnclosures w) + rounds)%nat.
Proof.
  induction rounds as [|rounds IH]; intros inputs encs w; [cbn; lia|].
  destruct inputs as [|encId more]; [cbn; lia|].
  cbn [Zoo.hire_feeder]. destruct (encId =? 0); [lia|].
  etransitivity; [apply IH|].
  destruct (Zoo.known_enclosure encId encs); [|lia].
  pose proof (assignEnclosure_length encId w). lia.
Qed.

Lemma hire_veterinarian_NoDup inputs :
  forall encs total w,
    NoDup (Worker.assignedEnclosures w) ->
    NoDup (Worker.assignedEnclosures (Zoo.hire_veterinarian inputs encs total w)).
Proof.
  induction inputs as [|encId more IH]; intros encs total w H; [exact H|].
  cbn [Zoo.hire_veterinarian]. destruct (encId =? 0); [exact H|].
  destruct (find _ encs); [|now apply IH].
  destruct (20 <? _); [now apply IH|].
  apply IH. now apply assignEnclosure_NoDup.
Qed.

Lemma recruit_within_caps n posChoice inputs encs :
  within_caps (recruit n posChoice inputs encs).
Proof.
  destruct (post_recruit n posChoice inputs encs) as (pos & _ & _ & _ & _ & E).
  unfold post in E.
  assert (Hd : Worker.daysAssigned (recruit n posChoice inputs encs) = 0)
    by congruence.
  unfold within_caps. rewrite Hd. clear E Hd pos.
  assert (N0 : forall p s m, NoDup (Worker.assignedEnclosures (Worker.make n p s m [])))
    by (intros; constructor).
  unfold recruit.
  destruct posChoice as [|[[]|[]|]|];
    (destruct encs as [|e0 es];
     [cbn; repeat split; try constructor; lia|]);
    cbv beta iota zeta.
  all: try match goal with
       | |- context [Zoo.known_enclosure] =>
           destruct inputs as [|encId more];
           [cbn; repeat split; try constructor; lia|];
           destruct (Zoo.known_enclosure encId (e0 :: es));
           [|cbn; repeat split; try constructor; lia];
           split; [apply assignEnclosure_NoDup, N0|];
           split; [intros _; apply (assignEnclosure_length encId)|];
           split; [|lia];
           intros _;
           etransitivity; [apply (assignEnclosure_length encId)|cbn; lia]
       end.
  - (* feeder *)
    split; [apply hire_feeder_NoDup, N0|].
    rewrite (post_type _ _ (post_hire_feeder _ _ _ _)).
    split; [discriminate|]. split; [|lia].
    intros _. etransitivity; [apply hire_feeder_length|cbn; lia].
  - (* veterinarian *)
    split; [apply hire_veterinarian_NoDup, N0|].
    rewrite (post_type _ _ (post_hire_veterinarian _ _ _ _)).
    repeat split; try discriminate; lia.
Qed.

(** X3: in every state of a game no worker holds an enclosure twice, a
    cleaner holds at most one enclosure and a feeder at most two, and the
    days left of a duty are between 0 and 365. *)
Theorem staff_within_caps :
  forall z, reachable z -> Forall within_caps (Zoo.workers z).
Proof.
  apply reachable_staff.
  - unfold within_caps.
    repeat constructor; cbn; try lia; try discriminate; intros [H|[]];
      discriminate H.
  - apply recruit_within_caps.
  - intros w encId d (Hn & Hc & Hf & Hd) Hdir Hh Hlt Hr.
    unfold within_caps.
    cbn [Worker.setDaysAssigned Worker.type Worker.assignedEnclosures
           Worker.daysAssigned].
    rewrite (post_type _ _ (post_assignEnclosure encId w)).
    split; [now apply assignEnclosure_NoDup|].
    pose proof (assignEnclosure_length encId w) as Hl.
    unfold maxEnclosures in Hlt.
    repeat split; try lia; intros T; rewrite T in Hlt; lia.
  - intros w (Hn & Hc & Hf & Hd).
    unfold within_caps. rewrite worker_day_type.
    unfold Zoo.worker_day, Worker.decrementDaysAssigned,
      Worker.incrementDaysWorked.
    cbn. destruct (0 <? Worker.daysAssigned w) eqn:E0; cbn;
      destruct (_ =? 0) eqn:E1; cbn;
      repeat split; auto; try constructor; try lia.
Qed.

Lemma staff_within_caps_witness :
  Forall within_caps
    (Zoo.workers
       (run (Assign 2 1 7)
          (run NextDay (Zoo.make "Z" (fun _ => 0%nat) (fun _ => 0%nat))))).
Proof.
  apply staff_within_caps.
  apply reach_run; [|reflexivity].
  apply reach_run; [apply reach_make | reflexivity].
Defined.

(** X4: entry 3 of the worker menu either changes nothing or erases exactly
    the chosen worker, who is not a director and not the last one left;
    the others keep their order. *)
Theorem fire_spares_director :
  forall fireChoice z,
    Zoo.fire fireChoice z = z
    \/ exists l1 w l2,
        Zoo.workers z = l1 ++ w :: l2
        /\ Z.of_nat (List.length l1) = fireChoice - 1
        /\ Worker.type w <> DIRECTOR
        /\ l1 ++ l2 <> []
        /\ Zoo.fire fireChoice z = Zoo.set_workers (l1 ++ l2) z.
Proof.
  intros c z. unfold Zoo.fire.
  destruct (Z.of_nat (List.length (Zoo.workers z)) <=? 1) eqn:E1; [now left|].
  destruct (_ && _) eqn:Er; [|now left].
  destruct (nth_error _ _) as [w|] eqn:En; [|now left].
  destruct (WorkerType_eqb (Worker.type w) DIRECTOR) eqn:Ed; [now left|].
  right. destruct (erase_at_split _ _ _ En) as (l1 & l2 & E & E' & Hl).
  exists l1, w, l2. split; [exact E|].
  apply andb_prop in Er as [Er _]. apply Z.leb_le in Er.
  split; [lia|]. split; [intros T; rewrite T in Ed; discriminate|].
  split; [|now rewrite E'].
  apply Z.leb_gt in E1. rewrite E, length_app in E1. cbn in E1.
  intros T. apply (f_equal (@List.length _)) in T.
  rewrite length_app in T. cbn in T. lia.
Qed.

Lemma known_enclosure_ids encId encs :
  Zoo.known_enclosure encId encs
  = existsb (fun i => i =? encId) (map Enclosure.id encs).
Proof.
  unfold Zoo.known_enclosure. induction encs as [|e encs IH]; [reflexivity|].
  cbn. now rewrite IH.
Qed.

(** X5: entry 4 of the worker menu never takes the animals into account:
    what it does to the staff is the same in two states with the same
    staff and the same enclosure identities, whatever lives in the
    enclosures (the test of the veterinarian's limit of 20 animals only
    prints a message). *)
Theorem assign_ignores_animals :
  forall workerChoice encId daysAssigned z z',
    Zoo.workers z = Zoo.workers z' ->
    map Enclosure.id (Zoo.enclosures z) = map Enclosure.id (Zoo.enclosures z') ->
    Zoo.workers (Zoo.assign workerChoice encId daysAssigned z)
    = Zoo.workers (Zoo.assign workerChoice encId daysAssigned z').
Proof.
  intros c e d z z' Hw He. unfold Zoo.assign.
  rewrite !known_enclosure_ids, <- He, <- Hw.
  destruct (Zoo.workers z) as [|w0 ws] eqn:Ew; [now rewrite Ew|].
  destruct (Zoo.enclosures z) as [|e0 es] eqn:Ee;
    destruct (Zoo.enclosures z') as [|e0' es'] eqn:Ee'; try discriminate He;
    [congruence|].
  destruct (c =? 0); [congruence|].
  destruct (_ || _); [congruence|].
  destruct (nth_error _ _) as [w|]; [|congruence].
  destruct (WorkerType_eqb _ _); [congruence|].
  destruct (e =? 0); [congruence|].
  destruct (negb _); [congruence|].
  destruct (Worker.has_enclosure e w); [congruence|].
  destruct (_ <=? _); [congruence|].
  reflexivity.
Qed.

Lemma assign_ignores_animals_witness :
  let z := Zoo.make "Z" (fun _ => 0%nat) (fun _ => 0%nat) in
  Zoo.workers (Zoo.assign 3 1 5 z)
  = Zoo.workers (Zoo.assign 3 1 5 (Zoo.purchase 2 1 z)).
Proof.
  cbv zeta. apply assign_ignores_animals; vm_compute; reflexivity.
Defined.

Lemma headcount_app encs l1 l2 :
  headcount encs (l1 ++ l2) = headcount encs l1 + headcount encs l2.
Proof.
  unfold headcount. induction l1 as [|i l1 IH]; [reflexivity|].
  cbn [app map fold_right]. rewrite IH. lia.
Qed.

Lemma hire_veterinarian_headcount inputs :
  forall encs total w,
    headcount encs (Worker.assignedEnclosures w) <= total <= 20 ->
    headcount encs
      (Worker.assignedEnclosures (Zoo.hire_veterinarian inputs encs total w))
    <= 20.
Proof.
  induction inputs as [|encId more IH]; intros encs total w H; [cbn; lia|].
  cbn [Zoo.hire_veterinarian]. destruct (encId =? 0); [lia|].
  destruct (find _ encs) as [enc|] eqn:Ef; [|now apply IH].
  destruct (20 <? _) eqn:E20; [now apply IH|].
  apply Z.ltb_ge in E20. apply IH.
  assert (0 <= Enclosure.getAnimalCount enc)
    by (unfold Enclosure.getAnimalCount; lia).
  unfold Worker.assignEnclosure.
  destruct (Worker.has_enclosure encId w); [lia|].
  cbn [Worker.set_assignedEnclosures Worker.assignedEnclosures].
  rewrite headcount_app. unfold headcount at 2. cbn [map fold_right].
  unfold enclosure_of. rewrite Ef. lia.
Qed.

(** X6: a veterinarian leaves the hiring dialogue holding enclosures with at
    most 20 animals between them. *)
Theorem hire_veterinarian_limit :
  forall n inputs z,
    exists w,
      Zoo.workers (Zoo.hire n 1 inputs z) = Zoo.workers z ++ [w]
      /\ Worker.type w = VETERINARIAN
      /\ headcount (Zoo.enclosures z) (Worker.assignedEnclosures w) <= 20.
Proof.
  intros n inputs z. rewrite hire_recruit.
  exists (recruit n 1 inputs (Zoo.enclosures z)).
  split; [reflexivity|].
  destruct (post_recruit n 1 inputs (Zoo.enclosures z))
    as (pos & _ & Hv & _ & _ & E).
  split; [unfold post in E; rewrite (Hv eq_refl) in E; congruence|].
  unfold recruit. destruct (Zoo.enclosures z) as [|e0 es]; [cbn; lia|].
  apply hire_veterinarian_headcount. cbn. lia.
Qed.

(** X7: a worker hired today holds no enclosure after the next day advance,
    whatever was chosen in the hiring dialogue: the constructor leaves the
    days of duty at 0, so the first pass over the staff clears the list. *)
Theorem hired_duties_lapse :
  forall n posChoice inputs z,
    exists w,
      Zoo.workers (Zoo.nextDay (Zoo.hire n posChoice inputs z))
      = map Zoo.worker_day (Zoo.workers z) ++ [w]
      /\ Worker.name w = n
      /\ Worker.assignedEnclosures w = []
      /\ Worker.daysAssigned w = 0
      /\ Worker.daysWorked w = 1.
Proof.
  intros n p inputs z. rewrite workers_nextDay, hire_recruit.
  change (Zoo.workers (Zoo.set_workers ?l _)) with l.
  rewrite map_app. cbn [map].
  exists (Zoo.worker_day (recruit n p inputs (Zoo.enclosures z))).
  split; [reflexivity|].
  destruct (post_recruit n p inputs (Zoo.enclosures z))
    as (pos & _ & _ & _ & _ & E).
  unfold post in E.
  assert (Hn : Worker.name (recruit n p inputs (Zoo.enclosures z)) = n)
    by congruence.
  assert (Hd : Worker.daysAssigned (recruit n p inputs (Zoo.enclosures z)) = 0)
    by congruence.
  assert (Hw : Worker.daysWorked (recruit n p inputs (Zoo.enclosures z)) = 0)
    by congruence.
  unfold Zoo.worker_day, Worker.decrementDaysAssigned,
    Worker.incrementDaysWorked.
  cbn. rewrite Hd, Hn, Hw. cbn. auto.
Qed.
(** ** The counter, the registry and the enclosures *)

Lemma residents_app encs1 encs2 :
  residents (encs1 ++ encs2) = residents encs1 ++ residents encs2.
Proof. apply flat_map_app. Qed.

Lemma residents_cons e encs :
  residents (e :: encs)
  = map (fun a => (Enclosure.id e, Animal.uniqueId a)) (Enclosure.animals e)
    ++ residents encs.
Proof. reflexivity. Qed.

Lemma residents_ids j u encs :
  In (j, u) (residents encs) -> In j (map Enclosure.id encs).
Proof.
  unfold residents. intros H. apply in_flat_map in H as (e & He & H).
  apply in_map_iff in H as (a & E & _). inversion E; subst.
  now apply in_map.
Qed.

Lemma filter_id {A} (f : A -> bool) l :
  (forall x, In x l -> f x = true) -> filter f l = l.
Proof.
  induction l as [|x l IH]; intros H; [reflexivity|].
  cbn. rewrite (H x (or_introl eq_refl)). f_equal. apply IH.
  intros y Hy. apply H. now right.
Qed.

(** Adding to the enclosure with identity [i], which exists. *)
Lemma residents_add i a encs :
  In i (map Enclosure.id encs) ->
  Permutation (residents (Zoo.on_enclosure i (Enclosure.addAnimal a) encs))
    (residents encs ++ [(i, Animal.uniqueId a)]).
Proof.
  induction encs as [|e encs IH]; intros Hin; [destruct Hin|].
  cbn [Zoo.on_enclosure]. destruct (Enclosure.id e =? i) eqn:E.
  - apply Z.eqb_eq in E. rewrite !residents_cons.
    cbn [Enclosure.addAnimal Enclosure.set_animals Enclosure.animals Enclosure.id].
    rewrite map_app. cbn [map]. rewrite E.
    rewrite <- !app_assoc. apply Permutation_app_head.
    apply Permutation_app_comm.
  - rewrite !residents_cons. rewrite <- app_assoc.
    apply Permutation_app_head. apply IH.
    destruct Hin as [Hin|Hin]; [|exact Hin].
    apply Z.eqb_neq in E. contradiction.
Qed.

(** Erasing from the enclosure with identity [i] an identity that lives
    nowhere else. *)
Lemma residents_remove i u encs :
  NoDup (map Enclosure.id encs) ->
  (forall j, In (j, u) (residents encs) -> j = i) ->
  residents (Zoo.on_enclosure i (Enclosure.removeAnimal u) encs)
  = filter (fun p => negb (snd p =? u)) (residents encs).
Proof.
  induction encs as [|e encs IH]; intros Hnd Hu; [reflexivity|].
  inversion Hnd as [|? ? Hnotin Hnd']; subst.
  cbn [Zoo.on_enclosure]. destruct (Enclosure.id e =? i) eqn:E.
  - apply Z.eqb_eq in E. rewrite !residents_cons, filter_app.
    cbn [Enclosure.removeAnimal Enclosure.set_animals Enclosure.animals Enclosure.id].
    f_equal.
    + induction (Enclosure.animals e) as [|a l IHl]; [reflexivity|].
      cbn. destruct (Animal.uniqueId a =? u); cbn; [apply IHl|].
      f_equal. apply IHl.
    + symmetry. apply filter_id. intros [j v] Hjv. cbn.
      destruct (v =? u) eqn:Ev; [|reflexivity].
      apply Z.eqb_eq in Ev. subst v. exfalso. apply Hnotin.
      assert (j = i) by (apply Hu; rewrite residents_cons; apply in_or_app; now right).
      subst j. rewrite E. eapply residents_ids, Hjv.
  - rewrite !residents_cons, filter_app. f_equal.
    + symmetry. apply filter_id. intros [j v] Hjv. cbn.
      destruct (v =? u) eqn:Ev; [|reflexivity].
      apply Z.eqb_eq in Ev. subst v. exfalso.
      assert (j = i) by (apply Hu; rewrite residents_cons; apply in_or_app; now left).
      apply in_map_iff in Hjv as (a & Ea & _). inversion Ea; subst.
      apply Z.eqb_neq in E. contradiction.
    + apply IH; [exact Hnd'|]. intros j Hj. apply Hu.
      rewrite residents_cons. apply in_or_app. now right.
Qed.

Lemma update_first_ids a l :
  map Animal.uniqueId (Enclosure.update_first a l) = map Animal.uniqueId l.
Proof.
  induction l as [|b l IH]; [reflexivity|].
  cbn. destruct (Animal.uniqueId b =? Animal.uniqueId a) eqn:E; cbn.
  - apply Z.eqb_eq in E. now rewrite E.
  - now rewrite IH.
Qed.

(** Overwriting a resident changes no identity. *)
Lemma residents_update i a encs :
  residents (Zoo.on_enclosure i (Enclosure.updateAnimal a) encs) = residents encs.
Proof.
  induction encs as [|e encs IH]; [reflexivity|].
  cbn [Zoo.on_enclosure]. destruct (Enclosure.id e =? i).
  - rewrite !residents_cons. f_equal.
    cbn [Enclosure.updateAnimal Enclosure.set_animals Enclosure.animals Enclosure.id].
    rewrite <- !(map_map Animal.uniqueId (fun u => (Enclosure.id e, u))).
    now rewrite update_first_ids.
  - rewrite !residents_cons. now rewrite IH.
Qed.

Lemma registered_app l1 l2 : registered (l1 ++ l2) = registered l1 ++ registered l2.
Proof. apply map_app. Qed.

Lemma registered_ids l : map snd (registered l) = map Animal.uniqueId l.
Proof. unfold registered. rewrite map_map. reflexivity. Qed.

(** Erasing from the registry an animal whose identity is its own. *)
Lemma registered_remove A it R :
  NoDup (map Animal.uniqueId (A ++ it :: R)) ->
  filter (fun p => negb (snd p =? Animal.uniqueId it)) (registered (A ++ it :: R))
  = registered (A ++ R).
Proof.
  intros Hnd. rewrite !registered_app, filter_app. cbn [registered map filter].
  rewrite Z.eqb_refl. cbn [negb snd].
  assert (Hother : forall a, In a (A ++ R) ->
                     negb (Animal.uniqueId a =? Animal.uniqueId it) = true).
  { intros a Ha. destruct (Animal.uniqueId a =? Animal.uniqueId it) eqn:E;
      [|reflexivity].
    apply Z.eqb_eq in E. exfalso.
    rewrite map_app in Hnd. cbn [map] in Hnd. apply NoDup_remove_2 in Hnd.
    apply Hnd. rewrite <- map_app, <- E. now apply in_map. }
  f_equal; apply filter_id; intros [j v] Hjv;
    apply in_map_iff in Hjv as (a & Ea & Ha); inversion Ea; subst; cbn;
    apply Hother; apply in_or_app; auto.
Qed.

Lemma filter_perm {A} (f : A -> bool) l l' :
  Permutation l l' -> Permutation (filter f l) (filter f l').
Proof.
  induction 1 as [|x l l' _ IH|x y l|l l' l'' _ IH1 _ IH2]; cbn.
  - constructor.
  - destruct (f x); [now constructor|exact IH].
  - destruct (f x), (f y); try reflexivity. constructor.
  - etransitivity; eassumption.
Qed.

Lemma consistent_on_remove encs A it R total :
  NoDup (map Enclosure.id encs) ->
  NoDup (map Animal.uniqueId (A ++ it :: R)) ->
  consistent_on encs (A ++ it :: R) total ->
  consistent_on
    (Zoo.on_enclosure (Animal.enclosureId it)
       (Enclosure.removeAnimal (Animal.uniqueId it)) encs)
    (A ++ R) (total - 1).
Proof.
  intros Hencs Hnd [Hn HP]. split.
  - rewrite Hn, !length_app. cbn [List.length]. lia.
  - rewrite residents_remove; [|exact Hencs|].
    + rewrite <- (registered_remove A it R Hnd). now apply filter_perm.
    + intros j Hj.
      apply (Permutation_in _ HP) in Hj.
      apply in_map_iff in Hj as (a & Ea & Ha). inversion Ea; subst.
      f_equal. eapply (in_same_key Animal.uniqueId); eauto.
      apply in_elt.
Qed.

Lemma consistent_on_like encs l l' total :
  registered l' = registered l ->
  consistent_on encs l total -> consistent_on encs l' total.
Proof.
  intros E [Hn HP]. split.
  - rewrite Hn. f_equal.
    rewrite <- (length_map (fun a => (Animal.enclosureId a, Animal.uniqueId a)) l).
    rewrite <- (length_map (fun a => (Animal.enclosureId a, Animal.uniqueId a)) l').
    unfold registered in E. now rewrite E.
  - now rewrite E.
Qed.

Lemma consistent_on_add i a encs l total :
  In i (map Enclosure.id encs) ->
  Animal.enclosureId a = i ->
  consistent_on encs l total ->
  consistent_on (Zoo.on_enclosure i (Enclosure.addAnimal a) encs) (l ++ [a])
    (total + 1).
Proof.
  intros Hin Ha [Hn HP]. split.
  - rewrite Hn, length_app. cbn [List.length]. lia.
  - rewrite residents_add by exact Hin.
    rewrite registered_app. cbn [registered map]. rewrite Ha.
    now apply Permutation_app_tail.
Qed.

Lemma consistent_on_update i a encs l total :
  consistent_on encs l total ->
  consistent_on (Zoo.on_enclosure i (Enclosure.updateAnimal a) encs) l total.
Proof. intros [Hn HP]. split; [exact Hn|]. now rewrite residents_update. Qed.

Lemma Inv_on_NoDup encs l market next loans :
  Inv_on encs l market next loans ->
  NoDup (map Enclosure.id encs) /\ NoDup (map Animal.uniqueId l).
Proof.
  intros ((_ & Hasc & _) & (Hnd & _) & _). split.
  - apply ascending_NoDup, Hasc.
  - rewrite !map_map, map_app in Hnd. apply NoDup_app_remove_r in Hnd.
    exact Hnd.
Qed.

Lemma consistent_purchase animalChoice encId z :
  Inv z -> consistent z -> consistent (Zoo.purchase animalChoice encId z).
Proof.
  intros H Hc. unfold Zoo.purchase.
  destruct (_ && _); [exact Hc|].
  destruct (Zoo.marketAnimals z) as [|m0 market0] eqn:Emarket; [exact Hc|].
  rewrite <- Emarket.
  destruct (_ && _); [|exact Hc].
  destruct (nth_error _ _) as [selected|] eqn:Esel; [|exact Hc].
  destruct (_ >=? _)%D; [|exact Hc].
  destruct (existsb _ _); [|exact Hc].
  destruct (Zoo.place _ _ _) as [encs|] eqn:Eplace; [|exact Hc].
  apply Inv_on_NoDup in H as [Hencs _].
  apply place_on_enclosure in Eplace as Eencs; [|exact Hencs].
  apply place_In in Eplace as (e & He & Hid & _).
  unfold consistent. cbn. subst encs.
  apply consistent_on_add; [|reflexivity|exact Hc].
  rewrite <- Hid. now apply in_map.
Qed.

Lemma consistent_sell sellChoice z :
  Inv z -> consistent z -> consistent (Zoo.sell sellChoice z).
Proof.
  intros H Hc. unfold Zoo.sell.
  destruct (Zoo.animals z) as [|a0 animals0] eqn:Eanimals; [exact Hc|].
  rewrite <- Eanimals.
  destruct (_ && _); [|exact Hc].
  destruct (nth_error _ _) as [sold|] eqn:Esold; [|exact Hc].
  destruct (erase_at_split _ _ _ Esold) as (l1 & l2 & Ea & Eerase & _).
  apply Inv_on_NoDup in H as [Hencs Hnd].
  unfold consistent in *. cbn. rewrite Eerase. rewrite Ea in Hc, Hnd.
  now apply consistent_on_remove.
Qed.

Lemma registered_assign_at A a a' R :
  Animal.enclosureId a' = Animal.enclosureId a ->
  Animal.uniqueId a' = Animal.uniqueId a ->
  registered (A ++ a' :: R) = registered (A ++ a :: R).
Proof.
  intros E1 E2. rewrite !registered_app. cbn [registered map].
  now rewrite E1, E2.
Qed.

Lemma consistent_rename renameChoice newName z :
  consistent z -> consistent (Zoo.rename renameChoice newName z).
Proof.
  intros Hc. unfold Zoo.rename.
  destruct (Zoo.animals z) as [|a0 animals0] eqn:Eanimals; [exact Hc|].
  rewrite <- Eanimals.
  destruct (_ && _); [|exact Hc].
  destruct (nth_error _ _) as [a|] eqn:Ea; [|exact Hc].
  destruct (newName =? "")%string; [exact Hc|].
  destruct (assign_at_split _ _ _ (Animal.setDisplayName newName a) Ea)
    as (l1 & l2 & E & E').
  unfold consistent in *. cbn. rewrite E'.
  apply consistent_on_update.
  eapply consistent_on_like; [|exact Hc].
  rewrite E. now apply registered_assign_at.
Qed.

Lemma consistent_breed first second z :
  consistent z -> consistent (Zoo.breed first second z).
Proof.
  intros Hc. unfold Zoo.breed.
  destruct (_ <? 2); [exact Hc|].
  destruct (first =? 0); [exact Hc|].
  destruct (second =? 0); [exact Hc|].
  destruct (first =? second); [exact Hc|].
  destruct (nth_error _ _) as [a|] eqn:Ea; [|exact Hc].
  destruct (nth_error (Zoo.animals z) (Z.to_nat (second - 1))) as [b|] eqn:Eb;
    [|exact Hc].
  destruct (negb (_ =? _)); [exact Hc|].
  destruct (existsb _ _) eqn:Eex; cbn [negb]; [|exact Hc].
  destruct (Animal.operator_plus _ _ _ _) as [[[newborn id'] g]|] eqn:Eplus;
    [|exact Hc].
  apply operator_plus_ok in Eplus as (_ & -> & _ & Enew).
  apply existsb_at_id in Eex as (e & He & Hid & _).
  unfold consistent in *. cbn.
  apply consistent_on_add; [|reflexivity|exact Hc].
  replace (Animal.enclosureId newborn) with (Animal.enclosureId a)
    by (subst newborn; reflexivity).
  rewrite <- Hid. now apply in_map.
Qed.

Section BooksFrames.
Variable f : Zoo.t -> Zoo.t.
Hypothesis f_enclosures : forall z, Zoo.enclosures (f z) = Zoo.enclosures z.
Hypothesis f_animals : forall z, Zoo.animals (f z) = Zoo.animals z.
Hypothesis f_total : forall z, Zoo.totalAnimals (f z) = Zoo.totalAnimals z.

Lemma consistent_frame z : consistent z -> consistent (f z).
Proof. unfold consistent. now rewrite f_enclosures, f_animals, f_total. Qed.
End BooksFrames.

Lemma consistent_build capacity typeChoice climateChoice z :
  consistent z -> consistent (Zoo.build capacity typeChoice climateChoice z).
Proof.
  intros [Hn HP]. unfold Zoo.build. destruct (_ >=? _)%D; [|now split].
  unfold consistent. cbn. split; [exact Hn|].
  rewrite residents_app. cbn. now rewrite app_nil_r.
Qed.

Lemma consistent_visiting_start z :
  Inv z -> consistent z ->
  consistent_visiting (Zoo.set_animals [] z) (Zoo.animals z).
Proof. intros H Hc. split; [exact H|exact Hc]. Qed.

Lemma consistent_visiting_end z :
  consistent_visiting z [] -> Inv z /\ consistent z.
Proof.
  unfold consistent_visiting, consistent. rewrite app_nil_r.
  intros [H Hc]. split; [now apply Inv_visiting_end|exact Hc].
Qed.

Lemma consistent_visiting_keep z it it' rest :
  kin it' it ->
  consistent_visiting z (it :: rest) ->
  consistent_visiting (Zoo.keep it' z) rest.
Proof.
  intros Hkin [H Hc]. split; [eapply Inv_visiting_keep; eassumption|].
  unfold Zoo.keep. cbn. rewrite <- app_assoc. cbn [app].
  eapply consistent_on_like; [|exact Hc].
  destruct Hkin as (Ht & _ & _ & He). unfold tag in Ht.
  apply registered_assign_at; congruence.
Qed.

Lemma consistent_visiting_bury z it it' rest :
  kin it' it ->
  consistent_visiting z (it :: rest) ->
  consistent_visiting (Zoo.bury it' z) rest.
Proof.
  intros Hkin [H Hc]. split; [eapply Inv_visiting_bury; eassumption|].
  apply Inv_on_NoDup in H as [Hencs Hnd].
  unfold Zoo.bury. cbn.
  destruct Hkin as (Ht & _ & _ & He). unfold tag in Ht.
  replace (Animal.enclosureId it') with (Animal.enclosureId it) by congruence.
  replace (Animal.uniqueId it') with (Animal.uniqueId it) by congruence.
  now apply consistent_on_remove.
Qed.

Lemma consistent_visiting_crand z g todo :
  consistent_visiting z todo -> consistent_visiting (Zoo.set_crand g z) todo.
Proof. intros H. exact H. Qed.

Lemma consistent_age_visit z it rest :
  consistent_visiting z (it :: rest) ->
  consistent_visiting (Zoo.age_visit z it) rest.
Proof.
  intros H. unfold Zoo.age_visit.
  destruct (30 <? _); [|eapply consistent_visiting_keep; eauto using kin_grow].
  destruct (random 0 99 _) as [roll g].
  destruct (roll <? _).
  - eapply consistent_visiting_bury; [apply kin_grow|].
    apply consistent_visiting_crand, H.
  - eapply consistent_visiting_keep; [apply kin_grow|].
    apply consistent_visiting_crand, H.
Qed.

Lemma consistent_age_all z :
  Inv z /\ consistent z -> Inv (Zoo.age_all z) /\ consistent (Zoo.age_all z).
Proof.
  intros [H Hc]. apply consistent_visiting_end. unfold Zoo.age_all.
  apply (fold_left_invariant Zoo.age_visit consistent_visiting).
  - intros s a rest. apply consistent_age_visit.
  - now apply consistent_visiting_start.
Qed.

Lemma consistent_sicken_visit z it rest :
  consistent_visiting z (it :: rest) ->
  consistent_visiting (Zoo.sicken_visit z it) rest.
Proof.
  intros H. unfold Zoo.sicken_visit.
  destruct (Animal.isSick it);
    [eapply consistent_visiting_keep; eauto using kin_refl|].
  destruct (random 0 99 _) as [roll g].
  eapply consistent_visiting_keep; [|apply consistent_visiting_crand, H].
  destruct (roll <? 10); [apply kin_setSick | apply kin_refl].
Qed.

Lemma consistent_sicken_all z :
  Inv z /\ consistent z ->
  Inv (Zoo.sicken_all z) /\ consistent (Zoo.sicken_all z).
Proof.
  intros [H Hc]. apply consistent_visiting_end. unfold Zoo.sicken_all.
  apply (fold_left_invariant Zoo.sicken_visit consistent_visiting).
  - intros s a rest. apply consistent_sicken_visit.
  - now apply consistent_visiting_start.
Qed.

Lemma consistent_starve_visit z it rest :
  consistent_visiting z (it :: rest) ->
  consistent_visiting (Zoo.starve_visit z it) rest.
Proof.
  intros H. unfold Zoo.starve_visit.
  destruct (random 0 99 _) as [roll g].
  destruct (roll <? 30).
  - eapply consistent_visiting_bury; [apply kin_refl|].
    apply consistent_visiting_crand, H.
  - eapply consistent_visiting_keep; [apply kin_refl|].
    apply consistent_visiting_crand, H.
Qed.

Lemma consistent_feed_all z :
  Inv z /\ consistent z -> Inv (Zoo.feed_all z) /\ consistent (Zoo.feed_all z).
Proof.
  intros [H Hc]. unfold Zoo.feed_all. destruct (_ <=? _); [now split|].
  apply consistent_visiting_end.
  apply (fold_left_invariant Zoo.starve_visit consistent_visiting).
  - intros s a rest. apply consistent_starve_visit.
  - now apply consistent_visiting_start.
Qed.

(** A veterinarian's round changes no identity and no address. *)
Lemma treat_books worker :
  forall todo treated encs,
    registered (fst (Zoo.treat worker treated todo encs)) = registered todo
    /\ residents (snd (Zoo.treat worker treated todo encs)) = residents encs.
Proof.
  induction todo as [|animal rest IH]; intros treated encs; [now split|].
  cbn [Zoo.treat]. destruct (_ && _ && _).
  - specialize (IH (treated + 1)
                   (Zoo.on_enclosure
                      (Animal.enclosureId (Animal.setSick false animal))
                      (Enclosure.updateAnimal (Animal.setSick false animal)) encs)).
    destruct (Zoo.treat worker (treated + 1) rest _) as [done encs'].
    cbn [fst snd] in *. destruct IH as [IH1 IH2]. split.
    + cbn [registered map]. f_equal. exact IH1.
    + rewrite IH2. apply residents_update.
  - specialize (IH treated encs).
    destruct (Zoo.treat worker treated rest encs) as [done encs'].
    cbn [fst snd] in *. destruct IH as [IH1 IH2]. split; [|exact IH2].
    cbn [registered map]. f_equal. exact IH1.
Qed.

Lemma consistent_heal_visit z worker :
  consistent z -> consistent (Zoo.heal_visit z worker).
Proof.
  intros Hc. unfold Zoo.heal_visit. destruct (_ && _); [|exact Hc].
  pose proof (treat_books worker (Zoo.animals z) 0 (Zoo.enclosures z)) as [E1 E2].
  destruct (Zoo.treat _ _ _ _) as [done encs]. cbn [fst snd] in *.
  unfold consistent in *. cbn. destruct Hc as [Hn HP]. split.
  - rewrite Hn. f_equal.
    rewrite <- (length_map (fun a => (Animal.enclosureId a, Animal.uniqueId a)) done).
    rewrite <- (length_map (fun a => (Animal.enclosureId a, Animal.uniqueId a))
                  (Zoo.animals z)).
    unfold registered in E1. now rewrite E1.
  - now rewrite E1, E2.
Qed.

Lemma consistent_heal_all z : consistent z -> consistent (Zoo.heal_all z).
Proof.
  intros H. unfold Zoo.heal_all.
  apply (fold_left_invariant Zoo.heal_visit (fun s _ => consistent s)); [|exact H].
  intros s a _. apply consistent_heal_visit.
Qed.

Lemma consistent_after_ageing z :
  Inv z /\ consistent z ->
  Inv (Zoo.after_ageing z) /\ consistent (Zoo.after_ageing z).
Proof.
  intros H. unfold Zoo.after_ageing.
  assert (Hw : Inv (Zoo.work_all z) /\ consistent (Zoo.work_all z)) by exact H.
  apply consistent_sicken_all in Hw. destruct Hw as [H1 H2].
  split; [now apply Inv_heal_all|now apply consistent_heal_all].
Qed.

Lemma consistent_begin_day z : consistent z -> consistent (Zoo.begin_day z).
Proof.
  apply consistent_frame; intros s.
  - apply (frame_begin_day Zoo.enclosures); reflexivity.
  - apply animals_begin_day.
  - apply totalAnimals_begin_day.
Qed.

Lemma consistent_after_feeding z :
  consistent z -> consistent (Zoo.after_feeding z).
Proof.
  apply consistent_frame; intros s.
  - apply (frame_after_feeding Zoo.enclosures); reflexivity.
  - apply (frame_after_feeding Zoo.animals); reflexivity.
  - apply (frame_after_feeding Zoo.totalAnimals); reflexivity.
Qed.

Lemma consistent_nextDay z :
  Inv z -> consistent z -> consistent (Zoo.nextDay z).
Proof.
  intros H Hc. rewrite nextDay_eq.
  apply consistent_after_feeding.
  apply consistent_feed_all, consistent_after_ageing, consistent_age_all.
  split; [now apply Inv_begin_day|now apply consistent_begin_day].
Qed.

Lemma consistent_run a z :
  Inv z -> consistent z -> consistent (run a z).
Proof.
  intros H Hc. destruct a; cbn [run].
  - now apply consistent_purchase.
  - now apply consistent_sell.
  - now apply consistent_rename.
  - revert Hc. apply consistent_frame; intros s.
    + apply (frame_refresh_for_fee Zoo.enclosures); reflexivity.
    + apply (frame_refresh_for_fee Zoo.animals); reflexivity.
    + apply (frame_refresh_for_fee Zoo.totalAnimals); reflexivity.
  - revert Hc. apply consistent_frame; intros s;
      [apply (frame_hire Zoo.enclosures)|apply (frame_hire Zoo.animals)
       |apply (frame_hire Zoo.totalAnimals)]; reflexivity.
  - revert Hc. apply consistent_frame; intros s;
      [apply (frame_fire Zoo.enclosures)|apply (frame_fire Zoo.animals)
       |apply (frame_fire Zoo.totalAnimals)]; reflexivity.
  - revert Hc. apply consistent_frame; intros s;
      [apply (frame_assign Zoo.enclosures)|apply (frame_assign Zoo.animals)
       |apply (frame_assign Zoo.totalAnimals)]; reflexivity.
  - revert Hc. apply consistent_frame; intros s;
      [apply (frame_buyFood Zoo.enclosures)|apply (frame_buyFood Zoo.animals)
       |apply (frame_buyFood Zoo.totalAnimals)]; reflexivity.
  - revert Hc. apply consistent_frame; intros s;
      [apply (frame_advertise Zoo.enclosures)|apply (frame_advertise Zoo.animals)
       |apply (frame_advertise Zoo.totalAnimals)]; reflexivity.
  - revert Hc. apply consistent_frame; intros s;
      [apply (frame_borrow Zoo.enclosures)|apply (frame_borrow Zoo.animals)
       |apply (frame_borrow Zoo.totalAnimals)]; reflexivity.
  - now apply consistent_build.
  - now apply consistent_breed.
  - now apply consistent_nextDay.
Qed.

Lemma reachable_consistent z : reachable z -> consistent z.
Proof.
  intros Hz. induction Hz as [n rt mt|z a Hz IH Hv].
  - destruct (make_fields n rt mt) as (E1 & E2 & E3 & _).
    unfold consistent. rewrite E1, E2, E3. split; [reflexivity|constructor].
  - apply consistent_run; [now apply reachable_Inv|exact IH].
Qed.

Lemma residents_length encs :
  Z.of_nat (List.length (residents encs))
  = fold_right Z.add 0 (map Enclosure.getAnimalCount encs).
Proof.
  induction encs as [|e encs IH]; [reflexivity|].
  rewrite residents_cons, length_app, length_map. cbn [map fold_right].
  unfold Enclosure.getAnimalCount at 1. lia.
Qed.

Lemma residents_In e r encs :
  In e encs -> In r (Enclosure.animals e) ->
  In (Enclosure.id e, Animal.uniqueId r) (residents encs).
Proof.
  intros He Hr. unfold residents. apply in_flat_map. exists e.
  split; [exact He|]. apply in_map_iff. now exists r.
Qed.

(** ** The books agree *)

(** X8: in every state of a game the counter [totalAnimals], from which
    the day's revenue is computed, is the length of the registry. *)
Theorem totalAnimals_counts_registry :
  forall z, reachable z ->
    Zoo.totalAnimals z = Z.of_nat (List.length (Zoo.animals z)).
Proof. intros z Hz. now destruct (reachable_consistent z Hz). Qed.

Lemma totalAnimals_counts_registry_witness :
  let z := run (Sell 1)
             (run (Purchase 5 1)
                (run (Purchase 2 1)
                   (Zoo.make "Z" (fun _ => 0%nat) (fun _ => 0%nat)))) in
  Zoo.totalAnimals z = Z.of_nat (List.length (Zoo.animals z)).
Proof.
  cbv zeta. apply totalAnimals_counts_registry.
  apply reach_run; [|reflexivity].
  apply reach_run; [|reflexivity].
  apply reach_run; [apply reach_make | reflexivity].
Defined.

(** X9: in every state of a game the enclosures and the registry list the
    same animals at the same addresses: every registered animal is a
    resident of the enclosure it names, every resident of an enclosure is
    registered with that enclosure, and the residents of all enclosures
    are as many as the counter says. *)
Theorem enclosures_mirror_registry :
  forall z, reachable z ->
    Permutation (residents (Zoo.enclosures z)) (registered (Zoo.animals z))
    /\ (forall a, In a (Zoo.animals z) ->
          exists e, In e (Zoo.enclosures z)
                    /\ Enclosure.id e = Animal.enclosureId a
                    /\ In (Animal.uniqueId a) (ids (Enclosure.animals e)))
    /\ (forall e r, In e (Zoo.enclosures z) -> In r (Enclosure.animals e) ->
          exists a, In a (Zoo.animals z)
                    /\ Animal.uniqueId a = Animal.uniqueId r
                    /\ Animal.enclosureId a = Enclosure.id e)
    /\ fold_right Z.add 0 (map Enclosure.getAnimalCount (Zoo.enclosures z))
       = Zoo.totalAnimals z.
Proof.
  intros z Hz. destruct (reachable_consistent z Hz) as [Hn HP].
  split; [exact HP|]. split; [|split].
  - intros a Ha.
    assert (Hin : In (Animal.enclosureId a, Animal.uniqueId a)
                    (residents (Zoo.enclosures z))).
    { apply (Permutation_in _ (Permutation_sym HP)).
      unfold registered. apply in_map_iff. now exists a. }
    unfold residents in Hin. apply in_flat_map in Hin as (e & He & Hin).
    apply in_map_iff in Hin as (r & E & Hr). injection E as E1 E2.
    exists e. split; [exact He|]. split; [exact E1|].
    unfold ids. rewrite <- E2. now apply in_map.
  - intros e r He Hr.
    pose proof (residents_In e r _ He Hr) as Hin.
    apply (Permutation_in _ HP) in Hin.
    apply in_map_iff in Hin as (a & E & Ha). injection E as E1 E2.
    exists a. auto.
  - rewrite <- residents_length, (Permutation_length HP), Hn.
    unfold registered. now rewrite length_map.
Qed.

Lemma enclosures_mirror_registry_witness :
  let z := run NextDay
             (run (Purchase 5 1)
                (run (Purchase 2 1)
                   (Zoo.make "Z" (fun _ => 0%nat) (fun _ => 0%nat)))) in
  Permutation (residents (Zoo.enclosures z)) (registered (Zoo.animals z)).
Proof.
  cbv zeta. apply enclosures_mirror_registry.
  apply reach_run; [|reflexivity].
  apply reach_run; [|reflexivity].
  apply reach_run; [apply reach_make | reflexivity].
Defined.


Lemma sell_at z sellChoice sold :
  1 <= sellChoice ->
  nth_error (Zoo.animals z) (Z.to_nat (sellChoice - 1)) = Some sold ->
  Zoo.sell sellChoice z
  = Zoo.set_totalAnimals (Zoo.totalAnimals z - 1)
      (Zoo.set_animals (erase_at (Z.to_nat (sellChoice - 1)) (Zoo.animals z))
         (Zoo.set_enclosures
            (Zoo.on_enclosure (Animal.enclosureId sold)
               (Enclosure.removeAnimal (Animal.uniqueId sold))
               (Zoo.enclosures z))
            (Zoo.set_money
               (Zoo.money z + Double.of_int (Z.quot (Animal.price sold) 2))%D
               z))).
Proof.
  intros Hc Hsold.
  assert (Hlt : (Z.to_nat (sellChoice - 1) < List.length (Zoo.animals z))%nat)
    by (apply nth_error_Some; congruence).
  unfold Zoo.sell.
  destruct (Zoo.animals z) as [|a0 animals0] eqn:Eanimals;
    [cbn in Hlt; lia|].
  replace ((1 <=? sellChoice)
           && (sellChoice <=? Z.of_nat (List.length (a0 :: animals0))))
    with true by (symmetry; apply andb_true_intro; split; lia).
  now rewrite Hsold.
Qed.

(** X10: selling the animal at a valid position of the registry pays half
    its price, rounded towards zero, counts it out, and leaves its
    identity neither in the registry nor in any enclosure. *)
Theorem sell_removes_everywhere :
  forall z sellChoice sold,
    reachable z ->
    1 <= sellChoice ->
    nth_error (Zoo.animals z) (Z.to_nat (sellChoice - 1)) = Some sold ->
    Zoo.money (Zoo.sell sellChoice z)
    = (Zoo.money z + Double.of_int (Z.quot (Animal.price sold) 2))%D
    /\ Zoo.totalAnimals (Zoo.sell sellChoice z) = Zoo.totalAnimals z - 1
    /\ S (List.length (Zoo.animals (Zoo.sell sellChoice z)))
       = List.length (Zoo.animals z)
    /\ ~ In (Animal.uniqueId sold) (ids (Zoo.animals (Zoo.sell sellChoice z)))
    /\ (forall e, In e (Zoo.enclosures (Zoo.sell sellChoice z)) ->
          ~ In (Animal.uniqueId sold) (ids (Enclosure.animals e))).
Proof.
  intros z c sold Hz Hc Hsold.
  pose proof (reachable_Inv z Hz) as Hinv.
  pose proof (reachable_consistent z Hz) as Hcons.
  pose proof (consistent_sell c z Hinv Hcons) as [_ HP].
  destruct (erase_at_split _ _ _ Hsold) as (l1 & l2 & Ea & Eerase & _).
  apply Inv_on_NoDup in Hinv as [_ Hnd].
  assert (Hgone : ~ In (Animal.uniqueId sold) (ids (l1 ++ l2))).
  { rewrite Ea, map_app in Hnd. cbn [map] in Hnd.
    apply NoDup_remove_2 in Hnd. unfold ids. now rewrite map_app. }
  assert (Ea' : Zoo.animals (Zoo.sell c z) = l1 ++ l2)
    by (rewrite (sell_at z c sold Hc Hsold), <- Eerase; reflexivity).
  split; [rewrite (sell_at z c sold Hc Hsold); reflexivity|].
  split; [rewrite (sell_at z c sold Hc Hsold); reflexivity|].
  split; [rewrite Ea', Ea, !length_app; cbn; lia|].
  split; [now rewrite Ea'|].
  intros e He Hin. apply Hgone. rewrite <- Ea'.
  unfold ids in Hin. apply in_map_iff in Hin as (r & Er & Hr).
  pose proof (residents_In e r _ He Hr) as Hres.
  apply (Permutation_in _ HP) in Hres.
  apply in_map_iff in Hres as (a & E & Ha). injection E as E1 E2.
  unfold ids. apply in_map_iff. exists a. split; congruence.
Qed.

Lemma sell_removes_everywhere_witness :
  Zoo.totalAnimals (Zoo.sell 1 deer_zoo) = Zoo.totalAnimals deer_zoo - 1.
Proof.
  refine (proj1 (proj2 (sell_removes_everywhere deer_zoo 1 young_deer _ _ _))).
  - apply reach_run; [apply reach_make | reflexivity].
  - lia.
  - vm_compute. reflexivity.
Defined.
(** ** The calendar *)

Section PurchaseFrame.
Context {B : Type} (proj : Zoo.t -> B).
Hypothesis proj_money : forall x z, proj (Zoo.set_money x z) = proj z.
Hypothesis proj_animals : forall x z, proj (Zoo.set_animals x z) = proj z.
Hypothesis proj_enclosures : forall x z, proj (Zoo.set_enclosures x z) = proj z.
Hypothesis proj_total : forall x z, proj (Zoo.set_totalAnimals x z) = proj z.
Hypothesis proj_market : forall x z, proj (Zoo.set_marketAnimals x z) = proj z.
Hypothesis proj_bought : forall x z, proj (Zoo.set_animalsBoughtToday x z) = proj z.

Lemma frame_purchase c e z : proj (Zoo.purchase c e z) = proj z.
Proof.
  unfold Zoo.purchase. cases; try reflexivity.
  all: now rewrite proj_market, proj_bought, proj_total, proj_money,
         proj_animals, proj_enclosures.
Qed.
End PurchaseFrame.

Section DayFrames.
Context {B : Type} (proj : Zoo.t -> B).
Hypothesis proj_animals : forall x z, proj (Zoo.set_animals x z) = proj z.
Hypothesis proj_enclosures : forall x z, proj (Zoo.set_enclosures x z) = proj z.
Hypothesis proj_total : forall x z, proj (Zoo.set_totalAnimals x z) = proj z.
Hypothesis proj_crand : forall x z, proj (Zoo.set_crand x z) = proj z.
Hypothesis proj_food : forall x z, proj (Zoo.set_food x z) = proj z.
Hypothesis proj_workers : forall x z, proj (Zoo.set_workers x z) = proj z.

Lemma frame_loops z :
  proj (Zoo.feed_all (Zoo.after_ageing (Zoo.age_all z))) = proj z.
Proof.
  rewrite (frame_feed_all proj) by assumption.
  rewrite (frame_after_ageing proj) by assumption.
  now rewrite (frame_age_all proj) by assumption.
Qed.

Hypothesis proj_popularity : forall x z, proj (Zoo.set_popularity x z) = proj z.
Hypothesis proj_visitors : forall x z, proj (Zoo.set_visitors x z) = proj z.
Hypothesis proj_money : forall x z, proj (Zoo.set_money x z) = proj z.
Hypothesis proj_loans : forall x z, proj (Zoo.set_loans x z) = proj z.

Lemma frame_accounts z :
  proj (Zoo.after_feeding z)
  = proj (Zoo.special_guests (Zoo.count_visitors (Zoo.drift z))).
Proof.
  rewrite after_feeding_eq.
  rewrite (frame_serve_loans proj) by assumption.
  unfold Zoo.before_loans, Zoo.pay_upkeep, Zoo.pay_salaries,
    Zoo.collect_revenue.
  now rewrite !proj_money.
Qed.

Hypothesis proj_type : forall x z, proj (Zoo.set_specialVisitorType x z) = proj z.
Hypothesis proj_count : forall x z, proj (Zoo.set_specialVisitorCount x z) = proj z.

Lemma frame_day_tail z : proj (Zoo.nextDay z) = proj (Zoo.begin_day z).
Proof.
  rewrite nextDay_eq.
  rewrite (frame_after_feeding proj) by assumption.
  apply frame_loops.
Qed.
End DayFrames.

Lemma day_nextDay z : Zoo.day (Zoo.nextDay z) = Zoo.day z + 1.
Proof.
  rewrite (frame_day_tail Zoo.day) by reflexivity.
  unfold Zoo.begin_day. repeat through_set.
  rewrite (frame_refreshMarket Zoo.day) by reflexivity.
  reflexivity.
Qed.

Lemma bought_nextDay z : Zoo.animalsBoughtToday (Zoo.nextDay z) = 0.
Proof.
  rewrite (frame_day_tail Zoo.animalsBoughtToday) by reflexivity.
  unfold Zoo.begin_day. repeat through_set.
  rewrite (frame_refreshMarket Zoo.animalsBoughtToday) by reflexivity.
  reflexivity.
Qed.

(** What the menu entries other than a purchase and the day advance leave
    alone. *)
Lemma frame_office {B} (proj : Zoo.t -> B) :
  (forall x z, proj (Zoo.set_money x z) = proj z) ->
  (forall x z, proj (Zoo.set_food x z) = proj z) ->
  (forall x z, proj (Zoo.set_popularity x z) = proj z) ->
  (forall x z, proj (Zoo.set_loans x z) = proj z) ->
  (forall x z, proj (Zoo.set_mt x z) = proj z) ->
  (forall x z, proj (Zoo.set_crand x z) = proj z) ->
  (forall x z, proj (Zoo.set_nextId x z) = proj z) ->
  (forall x z, proj (Zoo.set_marketAnimals x z) = proj z) ->
  (forall x z, proj (Zoo.set_animals x z) = proj z) ->
  (forall x z, proj (Zoo.set_enclosures x z) = proj z) ->
  (forall x z, proj (Zoo.set_totalAnimals x z) = proj z) ->
  (forall x z, proj (Zoo.set_workers x z) = proj z) ->
  forall a z,
    a <> NextDay -> (forall c e, a <> Purchase c e) ->
    proj (run a z) = proj z.
Proof.
  intros H1 H2 H3 H4 H5 H6 H7 H8 H9 H10 H11 H12 a z Ha Hp.
  destruct a as [c e| | | | | | | | | | | |]; cbn [run];
    [now destruct (Hp c e)| | | | | | | | | | | |congruence].
  - now apply frame_sell.
  - now apply frame_rename.
  - now apply frame_refresh_for_fee.
  - now apply frame_hire.
  - now apply frame_fire.
  - now apply frame_assign.
  - now apply frame_buyFood.
  - now apply frame_advertise.
  - now apply frame_borrow.
  - now apply frame_build.
  - now apply frame_breed.
Qed.

(** The same with the purchase. *)
Lemma frame_menu {B} (proj : Zoo.t -> B) :
  (forall x z, proj (Zoo.set_money x z) = proj z) ->
  (forall x z, proj (Zoo.set_food x z) = proj z) ->
  (forall x z, proj (Zoo.set_popularity x z) = proj z) ->
  (forall x z, proj (Zoo.set_loans x z) = proj z) ->
  (forall x z, proj (Zoo.set_mt x z) = proj z) ->
  (forall x z, proj (Zoo.set_crand x z) = proj z) ->
  (forall x z, proj (Zoo.set_nextId x z) = proj z) ->
  (forall x z, proj (Zoo.set_marketAnimals x z) = proj z) ->
  (forall x z, proj (Zoo.set_animals x z) = proj z) ->
  (forall x z, proj (Zoo.set_enclosures x z) = proj z) ->
  (forall x z, proj (Zoo.set_totalAnimals x z) = proj z) ->
  (forall x z, proj (Zoo.set_workers x z) = proj z) ->
  (forall x z, proj (Zoo.set_animalsBoughtToday x z) = proj z) ->
  forall a z, a <> NextDay -> proj (run a z) = proj z.
Proof.
  intros H1 H2 H3 H4 H5 H6 H7 H8 H9 H10 H11 H12 H13 a z Ha.
  destruct a; try (apply frame_office; (assumption || discriminate)).
  cbn [run]. now apply frame_purchase.
Qed.

Lemma day_menu a z : a <> NextDay -> Zoo.day (run a z) = Zoo.day z.
Proof. apply (frame_menu Zoo.day); reflexivity. Qed.

Lemma purchase_bought c e z :
  Zoo.animalsBoughtToday (Zoo.purchase c e z) = Zoo.animalsBoughtToday z
  \/ ((10 <? Zoo.day z) && (1 <=? Zoo.animalsBoughtToday z) = false
      /\ Zoo.animalsBoughtToday (Zoo.purchase c e z)
         = Zoo.animalsBoughtToday z + 1).
Proof.
  unfold Zoo.purchase.
  destruct ((10 <? Zoo.day z) && (1 <=? Zoo.animalsBoughtToday z));
    [now left|].
  cases; try (now left). all: right; split; reflexivity.
Qed.

(** ** The rules of the calendar *)

(** X11: in every state of a game the day is at least 1, the count of the
    day's purchases is not negative, and after day 10 it is at most 1:
    from day 11 on only one animal can be bought per day. *)
Theorem purchase_throttle :
  forall z, reachable z ->
    1 <= Zoo.day z
    /\ 0 <= Zoo.animalsBoughtToday z
    /\ (10 < Zoo.day z -> Zoo.animalsBoughtToday z <= 1).
Proof.
  intros z Hz. induction Hz as [n rt mt|z a Hz IH Hv].
  - unfold Zoo.make.
    rewrite (frame_refreshMarket Zoo.day) by reflexivity.
    rewrite (frame_refreshMarket Zoo.animalsBoughtToday) by reflexivity.
    cbn. lia.
  - destruct IH as (Hd & Hb & Ht).
    destruct a;
      try (rewrite day_menu by discriminate;
           rewrite (frame_office Zoo.animalsBoughtToday) by
             (reflexivity || discriminate);
           now auto).
    + cbn [run]. rewrite (frame_purchase Zoo.day) by reflexivity.
      destruct (purchase_bought animalChoice encId z) as [E|[Hg E]];
        rewrite E; [now auto|].
      split; [exact Hd|]. split; [lia|]. intros Hlate.
      apply andb_false_iff in Hg as [Hg|Hg]; lia.
    + cbn [run]. rewrite day_nextDay, bought_nextDay. lia.
Qed.

Lemma purchase_throttle_witness :
  let z := run (Purchase 1 1)
             (Nat.iter 10 (run NextDay)
                (Zoo.make "Z" (fun _ => 0%nat) (fun _ => 0%nat))) in
  1 <= Zoo.day z.
Proof.
  cbv zeta.
  refine (proj1 (purchase_throttle _ _)).
  apply reach_run; [|vm_compute; reflexivity].
  do 10 (rewrite Nat.iter_succ; apply reach_run; [|reflexivity]).
  apply reach_make.
Defined.

Lemma guests_special_guests s :
  guests s = ("None", 0) -> guests_ok (guests (Zoo.special_guests s)).
Proof.
  intros Hs. unfold Zoo.special_guests.
  destruct (random 0 99 (Zoo.crand s)) as [specialRoll g].
  destruct (specialRoll <? 20); [left; reflexivity|].
  destruct (specialRoll <? 30).
  - pose proof (random_range 1 2 (Zoo.crand (Zoo.set_crand g s))) as Hr.
    destruct (random 1 2 _) as [n g']. cbn [fst] in Hr.
    right. left. split; [reflexivity|]. cbn. lia.
  - destruct (specialRoll <? 50).
    + pose proof (random_range 1 3 (Zoo.crand (Zoo.set_crand g s))) as Hr.
      destruct (random 1 3 _) as [n g']. cbn [fst] in Hr.
      right. right. split; [reflexivity|]. cbn. lia.
    + left. exact Hs.
Qed.

Lemma guests_begin_day z : guests (Zoo.begin_day z) = ("None", 0).
Proof. reflexivity. Qed.

Lemma guests_nextDay z : guests_ok (guests (Zoo.nextDay z)).
Proof.
  rewrite nextDay_eq.
  rewrite (frame_accounts guests) by reflexivity.
  apply guests_special_guests.
  unfold Zoo.count_visitors. through_set.
  rewrite (frame_drift guests) by reflexivity.
  rewrite (frame_loops guests) by reflexivity.
  apply guests_begin_day.
Qed.

(** X12: in every state of a game the special guests on display are none, or
    one or two celebrities, or one to three photographers. *)
Theorem special_guests_bounds :
  forall z, reachable z -> guests_ok (guests z).
Proof.
  intros z Hz. induction Hz as [n rt mt|z a Hz IH Hv].
  - left. unfold Zoo.make.
    now rewrite (frame_refreshMarket guests) by reflexivity.
  - destruct a; try (rewrite (frame_menu guests) by
                       (reflexivity || discriminate); exact IH).
    apply guests_nextDay.
Qed.

Lemma special_guests_bounds_witness :
  guests_ok
    (guests
       (run NextDay (Zoo.make "Z" (fun _ => 25%nat) (fun _ => 0%nat)))).
Proof.
  apply special_guests_bounds.
  apply reach_run; [apply reach_make | reflexivity].
Defined.

(** ** The game loop *)

Lemma playGame_day script :
  forall z,
    Zoo.day z <= maxDays + 1 ->
    match playGame script z with
    | Completed z' =>
        Zoo.day z' = maxDays + 1
        /\ exists done rest,
             script = done ++ rest
             /\ Zoo.day z' = Zoo.day z + advances done
             /\ z' = fold_left (fun s a => run a s) done z
    | Bankrupt z' =>
        (Zoo.money z' <? Double.of_int 0)%D = true
        /\ Zoo.day z' <= maxDays + 1
        /\ exists done rest,
             script = done ++ NextDay :: rest
             /\ z' = Zoo.nextDay (fold_left (fun s a => run a s) done z)
    | AtMenu z' =>
        Zoo.day z' <= maxDays
        /\ Zoo.day z' = Zoo.day z + advances script
        /\ z' = fold_left (fun s a => run a s) script z
    end.
Proof.
  unfold maxDays.
  induction script as [|a script IH]; intros z Hz; cbn [playGame];
    unfold maxDays; destruct (Zoo.day z <=? 20) eqn:Ed.
  - apply Z.leb_le in Ed. cbn. split; [lia|]. split; [lia|reflexivity].
  - apply Z.leb_gt in Ed. split; [lia|]. exists [], []. cbn.
    split; [reflexivity|]. split; [lia|reflexivity].
  - apply Z.leb_le in Ed.
    assert (Hstep : forall z1,
               Zoo.day z1 <= 21 ->
               forall b, Zoo.day z1 = Zoo.day z + advances [b] ->
               z1 = run b z ->
               match playGame script z1 with
               | Completed z' =>
                   Zoo.day z' = 20 + 1
                   /\ exists done rest,
                        b :: script = done ++ rest
                        /\ Zoo.day z' = Zoo.day z + advances done
                        /\ z' = fold_left (fun s a => run a s) done z
               | Bankrupt z' =>
                   (Zoo.money z' <? Double.of_int 0)%D = true
                   /\ Zoo.day z' <= 20 + 1
                   /\ exists done rest,
                        b :: script = done ++ NextDay :: rest
                        /\ z' = Zoo.nextDay (fold_left (fun s a => run a s) done z)
               | AtMenu z' =>
                   Zoo.day z' <= 20
                   /\ Zoo.day z' = Zoo.day z + advances (b :: script)
                   /\ z' = fold_left (fun s a => run a s) (b :: script) z
               end).
    { intros z1 Hz1 b Hb Eb. specialize (IH z1 Hz1).
      assert (Hadv : forall l, advances (b :: l) = advances [b] + advances l).
      { intros l. unfold advances. cbn [filter].
        destruct b; cbn [List.length]; lia. }
      destruct (playGame script z1) as [z'|z'|z'].
      - destruct IH as (Hm & Hd & done & rest & E & E').
        split; [exact Hm|]. split; [exact Hd|].
        exists (b :: done), rest. split; [now rewrite E|].
        cbn [fold_left]. now rewrite <- Eb.
      - destruct IH as (Hd & done & rest & E & Hday & E').
        split; [exact Hd|]. exists (b :: done), rest.
        split; [now rewrite E|]. split; [rewrite Hadv; lia|].
        cbn [fold_left]. now rewrite <- Eb.
      - destruct IH as (Hd & Hday & E').
        split; [exact Hd|]. split; [rewrite Hadv; lia|].
        cbn [fold_left]. now rewrite <- Eb. }
    destruct a;
      try (apply Hstep;
           [rewrite day_menu by discriminate; lia
           |rewrite day_menu by discriminate;
            replace (advances [_]) with 0 by reflexivity; lia
           |reflexivity]).
    pose proof (day_nextDay z) as Hday.
    cbv zeta.
    destruct (Zoo.money (Zoo.nextDay z) <? Double.of_int 0)%D eqn:Em;
      cbv beta iota.
    + split; [exact Em|]. split; [rewrite Hday; lia|].
      exists [], script. now split.
    + specialize (Hstep (Zoo.nextDay z)). rewrite Hday in Hstep.
      assert (H21 : Zoo.day z + 1 <= 21) by (clear - Ed; lia).
      specialize (Hstep H21 NextDay).
      apply Hstep; [|cbn [run]; reflexivity].
      replace (advances [NextDay]) with 1 by reflexivity. reflexivity.
  - apply Z.leb_gt in Ed. split; [lia|]. exists [], (a :: script). cbn.
    split; [reflexivity|]. split; [lia|reflexivity].
Qed.

(** ** The prompt and the game loop *)

(** X13: [getValidInput] hands back the first attempt that is a number
    within the bounds, after rejecting all attempts before it, and consumes
    the input up to it; it does not return while no attempt is within the
    bounds. *)
Theorem getValidInput_first_in_range :
  forall minVal maxVal attempts,
    match getValidInput minVal maxVal attempts with
    | Some (value, rest) =>
        minVal <= value <= maxVal
        /\ exists before,
             attempts = before ++ Some value :: rest
             /\ Forall (rejected minVal maxVal) before
    | None => Forall (rejected minVal maxVal) attempts
    end.
Proof.
  intros minVal maxVal attempts.
  induction attempts as [|[value|] attempts IH]; cbn [getValidInput].
  - constructor.
  - destruct ((minVal <=? value) && (value <=? maxVal)) eqn:E.
    + split; [apply andb_prop in E; lia|]. exists []. split; [reflexivity|constructor].
    + destruct (getValidInput minVal maxVal attempts) as [[v rest]|].
      * destruct IH as (Hv & before & Eb & Hb). split; [exact Hv|].
        exists (Some value :: before). split; [now rewrite Eb|].
        constructor; [exact E|exact Hb].
      * constructor; [exact E|exact IH].
  - destruct (getValidInput minVal maxVal attempts) as [[v rest]|].
    + destruct IH as (Hv & before & Eb & Hb). split; [exact Hv|].
      exists (None :: before). split; [now rewrite Eb|].
      constructor; [exact I|exact Hb].
    + constructor; [exact I|exact IH].
Qed.

(** X14: a game started by the constructor ends in one of three ways.  It is
    completed exactly when the 20th day advance has been made, on day 21;
    it is lost right after a day advance that leaves the cash negative,
    on day 21 at the latest; otherwise the whole script has been run, with
    fewer than 20 day advances, and the day is 1 plus their number. *)
Theorem playGame_ends :
  forall script n rand_tape mt_tape,
    let z := Zoo.make n rand_tape mt_tape in
    match playGame script z with
    | Completed z' =>
        Zoo.day z' = 21
        /\ exists done rest,
             script = done ++ rest /\ advances done = 20 /\ z' = play done z
    | Bankrupt z' =>
        (Zoo.money z' <? Double.of_int 0)%D = true
        /\ Zoo.day z' <= 21
        /\ exists done rest,
             script = done ++ NextDay :: rest
             /\ z' = Zoo.nextDay (play done z)
    | AtMenu z' =>
        advances script < 20
        /\ Zoo.day z' = 1 + advances script
        /\ z' = play script z
    end.
Proof.
  intros script n rt mt z.
  assert (Hday : Zoo.day z = 1).
  { unfold z, Zoo.make.
    now rewrite (frame_refreshMarket Zoo.day) by reflexivity. }
  assert (Hz : Zoo.day z <= maxDays + 1) by (rewrite Hday; unfold maxDays; lia).
  pose proof (playGame_day script z Hz) as H. unfold maxDays in H.
  rewrite Hday in H. unfold play.
  destruct (playGame script z) as [z'|z'|z'].
  - destruct H as (Hm & Hd & done & rest & E & E').
    split; [exact Hm|]. split; [lia|]. now exists done, rest.
  - destruct H as (Hd & done & rest & E & Hd' & E').
    split; [lia|]. exists done, rest. split; [exact E|]. split; [lia|exact E'].
  - destruct H as (Hd & Hd' & E'). split; [lia|]. split; [lia|exact E'].
Qed.
(** ** The enclosures as built *)

Lemma on_enclosure_deed i f encs :
  (forall e, deed (f e) = deed e) ->
  map deed (Zoo.on_enclosure i f encs) = map deed encs.
Proof.
  intros Hf. induction encs as [|e encs IH]; [reflexivity|].
  cbn [Zoo.on_enclosure]. destruct (Enclosure.id e =? i); cbn [map].
  - now rewrite Hf.
  - now rewrite IH.
Qed.

Lemma place_deed i s encs :
  forall encs', Zoo.place i s encs = Some encs' -> map deed encs' = map deed encs.
Proof.
  induction encs as [|e encs IH]; intros encs' H; [discriminate H|].
  cbn [Zoo.place] in H. destruct (_ && _).
  - injection H as <-. reflexivity.
  - destruct (Zoo.place i s encs) as [encs0|]; [|discriminate H].
    injection H as <-. cbn [map]. f_equal. now apply IH.
Qed.

Lemma treat_deed worker :
  forall todo treated encs,
    map deed (snd (Zoo.treat worker treated todo encs)) = map deed encs.
Proof.
  induction todo as [|animal rest IH]; intros treated encs; [reflexivity|].
  cbn [Zoo.treat]. destruct (_ && _ && _).
  - specialize (IH (treated + 1)
                   (Zoo.on_enclosure
                      (Animal.enclosureId (Animal.setSick false animal))
                      (Enclosure.updateAnimal (Animal.setSick false animal)) encs)).
    destruct (Zoo.treat worker (treated + 1) rest _) as [done encs'].
    cbn [snd] in *. rewrite IH. now apply on_enclosure_deed.
  - specialize (IH treated encs).
    destruct (Zoo.treat worker treated rest encs) as [done encs'].
    exact IH.
Qed.

Lemma deeds_bury it z : deeds (Zoo.bury it z) = deeds z.
Proof. unfold deeds, Zoo.bury. cbn. now apply on_enclosure_deed. Qed.

Lemma deeds_age_visit z it : deeds (Zoo.age_visit z it) = deeds z.
Proof.
  unfold Zoo.age_visit. destruct (30 <? _); [|reflexivity].
  destruct (random 0 99 _) as [roll g].
  destruct (roll <? _); [|reflexivity]. now rewrite deeds_bury.
Qed.

Lemma deeds_sicken_visit z it : deeds (Zoo.sicken_visit z it) = deeds z.
Proof.
  unfold Zoo.sicken_visit. destruct (Animal.isSick it); [reflexivity|].
  destruct (random 0 99 _) as [roll g]. reflexivity.
Qed.

Lemma deeds_starve_visit z it : deeds (Zoo.starve_visit z it) = deeds z.
Proof.
  unfold Zoo.starve_visit. destruct (random 0 99 _) as [roll g].
  destruct (roll <? 30); [|reflexivity]. now rewrite deeds_bury.
Qed.

Lemma deeds_heal_visit z worker : deeds (Zoo.heal_visit z worker) = deeds z.
Proof.
  unfold Zoo.heal_visit. destruct (_ && _); [|reflexivity].
  pose proof (treat_deed worker (Zoo.animals z) 0 (Zoo.enclosures z)) as H.
  destruct (Zoo.treat _ _ _ _) as [done encs]. exact H.
Qed.

Lemma deeds_nextDay z : deeds (Zoo.nextDay z) = deeds z.
Proof.
  rewrite nextDay_eq.
  rewrite (frame_after_feeding deeds) by reflexivity.
  unfold Zoo.feed_all.
  assert (Hfeed : forall s,
             deeds (if Zoo.foodNeeded (Zoo.animals s) <=? Zoo.food s
                    then Zoo.set_food (Zoo.food s - Zoo.foodNeeded (Zoo.animals s)) s
                    else fold_left Zoo.starve_visit (Zoo.animals s)
                           (Zoo.set_animals [] s))
             = deeds s).
  { intros s. destruct (_ <=? _); [reflexivity|].
    now rewrite (fold_left_frame deeds Zoo.starve_visit deeds_starve_visit). }
  rewrite Hfeed. unfold Zoo.after_ageing, Zoo.heal_all.
  rewrite (fold_left_frame deeds Zoo.heal_visit deeds_heal_visit).
  unfold Zoo.sicken_all.
  rewrite (fold_left_frame deeds Zoo.sicken_visit deeds_sicken_visit).
  unfold Zoo.age_all.
  assert (Hage : forall s,
             deeds (Zoo.set_animals []
                      (Zoo.work_all
                         (fold_left Zoo.age_visit (Zoo.animals s)
                            (Zoo.set_animals [] s))))
             = deeds s).
  { intros s.
    change (deeds (Zoo.set_animals [] (Zoo.work_all ?x))) with (deeds x).
    now rewrite (fold_left_frame deeds Zoo.age_visit deeds_age_visit). }
  rewrite Hage.
  apply (frame_begin_day deeds); reflexivity.
Qed.

Lemma deeds_purchase c e z : deeds (Zoo.purchase c e z) = deeds z.
Proof.
  unfold Zoo.purchase.
  destruct (_ && _); [reflexivity|].
  destruct (Zoo.marketAnimals z) as [|m0 market0]; [reflexivity|].
  destruct (_ && _); [|reflexivity].
  destruct (nth_error _ _) as [selected|]; [|reflexivity].
  destruct (_ >=? _)%D; [|reflexivity].
  destruct (existsb _ _); [|reflexivity].
  destruct (Zoo.place _ _ _) as [encs|] eqn:Eplace; [|reflexivity].
  unfold deeds. cbn. now apply place_deed in Eplace.
Qed.

Lemma deeds_sell c z : deeds (Zoo.sell c z) = deeds z.
Proof.
  unfold Zoo.sell. cases; try reflexivity.
  all: unfold deeds; cbn; now apply on_enclosure_deed.
Qed.

Lemma deeds_rename c n z : deeds (Zoo.rename c n z) = deeds z.
Proof.
  unfold Zoo.rename. cases; try reflexivity.
  all: unfold deeds; cbn; now apply on_enclosure_deed.
Qed.

Lemma deeds_breed a b z : deeds (Zoo.breed a b z) = deeds z.
Proof.
  unfold Zoo.breed. cases; try reflexivity.
  all: unfold deeds; cbn; now apply on_enclosure_deed.
Qed.

Lemma deeds_build capacity typeChoice climateChoice z :
  deeds (Zoo.build capacity typeChoice climateChoice z) = deeds z
  \/ exists ty climate,
      deeds (Zoo.build capacity typeChoice climateChoice z)
      = deeds z
        ++ [(match Zoo.enclosures z with
             | [] => 1
             | _ => Zoo.back_id (Zoo.enclosures z) + 1
             end, capacity, ty, climate, capacity * 2)].
Proof.
  unfold Zoo.build. destruct (_ >=? _)%D; [|now left].
  right. eexists _, _. unfold deeds. cbn. rewrite map_app. reflexivity.
Qed.

Lemma build_enclosures capacity typeChoice climateChoice z :
  Zoo.enclosures (Zoo.build capacity typeChoice climateChoice z)
  = Zoo.enclosures z
  \/ exists ty climate,
      Zoo.enclosures (Zoo.build capacity typeChoice climateChoice z)
      = Zoo.enclosures z
        ++ [Enclosure.make
              (match Zoo.enclosures z with
               | [] => 1
               | _ => Zoo.back_id (Zoo.enclosures z) + 1
               end) capacity ty climate (capacity * 2)].
Proof.
  unfold Zoo.build. destruct (_ >=? _)%D; [|now left].
  right. eexists _, _. reflexivity.
Qed.

Lemma deeds_run a z :
  deeds (run a z) = deeds z
  \/ exists capacity typeChoice climateChoice ty climate,
      a = Build capacity typeChoice climateChoice
      /\ deeds (run a z)
         = deeds z
           ++ [(match Zoo.enclosures z with
                | [] => 1
                | _ => Zoo.back_id (Zoo.enclosures z) + 1
                end, capacity, ty, climate, capacity * 2)].
Proof.
  destruct a; cbn [run].
  - left. apply deeds_purchase.
  - left. apply deeds_sell.
  - left. apply deeds_rename.
  - left. apply (frame_refresh_for_fee deeds); reflexivity.
  - left. apply (frame_hire deeds); reflexivity.
  - left. apply (frame_fire deeds); reflexivity.
  - left. apply (frame_assign deeds); reflexivity.
  - left. apply (frame_buyFood deeds); reflexivity.
  - left. apply (frame_advertise deeds); reflexivity.
  - left. apply (frame_borrow deeds); reflexivity.
  - destruct (deeds_build capacity typeChoice climateChoice z)
      as [H|(ty & climate & H)]; [now left|].
    right. now exists capacity, typeChoice, climateChoice, ty, climate.
  - left. apply deeds_breed.
  - left. apply deeds_nextDay.
Qed.

Lemma deeds_ids encs encs' :
  map deed encs' = map deed encs ->
  map Enclosure.id encs' = map Enclosure.id encs.
Proof.
  intros H.
  apply (f_equal (map (fun d : Z * Z * AnimalType * Climate * Z =>
                         let '(i, _, _, _, _) := d in i))) in H.
  now rewrite !map_map in H.
Qed.

Lemma deeds_as_built encs encs' :
  map deed encs' = map deed encs ->
  Forall as_built encs -> Forall as_built encs'.
Proof.
  revert encs'. induction encs as [|e encs IH]; intros [|e' encs'] H Hall;
    try discriminate H; [constructor|].
  cbn [map] in H. injection H as Hi Hc Ht Hk Hd H.
  inversion Hall; subst. constructor; [|now apply IH].
  unfold as_built in *. now rewrite Hc, Hd.
Qed.

Lemma numbered_back_id encs :
  numbered encs -> encs <> [] ->
  Zoo.back_id encs = Z.of_nat (List.length encs).
Proof.
  intros Hn Hne. destruct (exists_last Hne) as (init & e & ->).
  rewrite back_id_snoc. unfold numbered in Hn.
  rewrite length_app in *. cbn [List.length] in *.
  rewrite Nat.add_1_r in *. rewrite seq_S, !map_app in Hn. cbn [map] in Hn.
  apply app_inj_tail in Hn as [_ ->]. reflexivity.
Qed.

Lemma numbered_known encs encId :
  numbered encs ->
  1 <= encId <= Z.of_nat (List.length encs) ->
  Zoo.known_enclosure encId encs = true.
Proof.
  intros Hn Hr. rewrite known_enclosure_ids, Hn.
  apply existsb_exists. exists encId. split; [|apply Z.eqb_refl].
  apply in_map_iff. exists (Z.to_nat encId). split; [lia|].
  apply in_seq. lia.
Qed.

(** The built enclosures of a game. *)
Lemma reachable_deeds z :
  reachable z ->
  Zoo.enclosures z <> []
  /\ numbered (Zoo.enclosures z)
  /\ Forall as_built (Zoo.enclosures z).
Proof.
  intros Hz. induction Hz as [n rt mt|z a Hz IH Hv].
  - destruct (make_fields n rt mt) as (_ & E & _). rewrite E.
    split; [discriminate|]. split; [reflexivity|].
    repeat constructor; cbn; lia.
  - destruct IH as (Hne & Hn & Hb).
    destruct (deeds_run a z) as [H|(c & t & k & ty & cl & -> & H)];
      unfold deeds in H.
    + split; [|split].
      * intros E. rewrite E in H. destruct (Zoo.enclosures z); [congruence|].
        discriminate H.
      * unfold numbered.
        rewrite (deeds_ids _ _ H).
        rewrite <- (length_map deed (Zoo.enclosures (run a z))), H, length_map.
        exact Hn.
      * eapply deeds_as_built; eassumption.
    + clear H. cbn [run].
      destruct (build_enclosures c t k z) as [H|(ty' & cl' & H)]; rewrite H;
        [now auto|].
      cbn [valid_input] in Hv. unfold in_range in Hv.
      split; [now destruct (Zoo.enclosures z)|]. split.
      * unfold numbered. rewrite map_app, length_app. cbn [map List.length].
        rewrite Nat.add_1_r, seq_S, map_app, Hn. cbn [map Enclosure.make Enclosure.id].
        replace (match Zoo.enclosures z with
                 | [] => 1
                 | _ :: _ => Zoo.back_id (Zoo.enclosures z) + 1
                 end) with (Zoo.back_id (Zoo.enclosures z) + 1)
          by (destruct (Zoo.enclosures z); [congruence|reflexivity]).
        rewrite (numbered_back_id _ Hn Hne). do 2 f_equal. lia.
      * apply Forall_app. split; [exact Hb|]. constructor; [|constructor].
        unfold as_built. cbn [Enclosure.make Enclosure.capacity Enclosure.dailyCost].
        assert (1 <= c <= 100) by lia.
        split; [lia|]. split; [lia|].
        unfold Enclosure.to_size_t. apply Z.mod_small. lia.
Qed.

(** ** The enclosures of a game *)

(** X15: no menu entry and no day advance removes an enclosure or alters the
    identity, capacity, diet, climate or daily cost of one; only the
    building entry adds an enclosure, a single one, at the end. *)
Theorem enclosures_permanent :
  forall a z,
    exists built,
      deeds (run a z) = deeds z ++ built
      /\ (List.length built <= 1)%nat
      /\ (built <> [] ->
          exists capacity typeChoice climateChoice,
            a = Build capacity typeChoice climateChoice).
Proof.
  intros a z.
  destruct (deeds_run a z) as [H|(c & t & k & ty & cl & E & H)].
  - exists []. rewrite app_nil_r. split; [exact H|]. split; [cbn; lia|].
    congruence.
  - eexists. split; [exact H|]. split; [cbn; lia|]. intros _.
    now exists c, t, k.
Qed.

(** X16: in every state of a game there is at least one enclosure, the
    enclosures are numbered 1, 2, 3, ... in their order, so that the upper
    bound of the prompts for an enclosure, the identity of the last one,
    is their number, and every identity a prompt with the range from 1 to
    that bound can hand back names an existing enclosure.  Every enclosure
    has a capacity between 1 and 100 and costs twice its capacity a day. *)
Theorem enclosures_numbered :
  forall z, reachable z ->
    Zoo.enclosures z <> []
    /\ numbered (Zoo.enclosures z)
    /\ Zoo.back_id (Zoo.enclosures z)
       = Z.of_nat (List.length (Zoo.enclosures z))
    /\ (forall encId,
          in_range 1 (Zoo.back_id (Zoo.enclosures z)) encId = true ->
          Zoo.known_enclosure encId (Zoo.enclosures z) = true)
    /\ Forall (fun e => 1 <= Enclosure.capacity e <= 100
                        /\ Enclosure.dailyCost e = 2 * Enclosure.capacity e)
         (Zoo.enclosures z).
Proof.
  intros z Hz. destruct (reachable_deeds z Hz) as (Hne & Hn & Hb).
  pose proof (numbered_back_id _ Hn Hne) as Hback.
  split; [exact Hne|]. split; [exact Hn|]. split; [exact Hback|]. split.
  - intros encId Hr. unfold in_range in Hr. rewrite Hback in Hr.
    apply numbered_known; [exact Hn|]. apply andb_prop in Hr. lia.
  - eapply Forall_impl; [|exact Hb]. intros e (H1 & H2 & _). now split.
Qed.

Lemma enclosures_numbered_witness :
  numbered
    (Zoo.enclosures
       (run (Build 4 2 3)
          (run (Build 3 1 1) (Zoo.make "Z" (fun _ => 0%nat) (fun _ => 0%nat))))).
Proof.
  refine (proj1 (proj2 (enclosures_numbered _ _))).
  apply reach_run; [|reflexivity].
  apply reach_run; [apply reach_make | reflexivity].
Defined.

(** X17: in a game the conversion of the capacity to [size_t] changes
    nothing: an enclosure accepts an animal exactly when it houses fewer
    animals than its capacity and diet and climate agree. *)
Theorem canAddAnimal_in_game :
  forall z e animal,
    reachable z -> In e (Zoo.enclosures z) ->
    (Enclosure.canAddAnimal e animal = true
     <-> Enclosure.getAnimalCount e < Enclosure.capacity e
         /\ Animal.type animal = Enclosure.animalType e
         /\ Animal.preferredClimate animal = Enclosure.climate e).
Proof.
  intros z e animal Hz He.
  destruct (reachable_deeds z Hz) as (_ & _ & Hb).
  rewrite Forall_forall in Hb. destruct (Hb e He) as (_ & _ & Hcast).
  rewrite canAddAnimal_spec, Hcast. unfold fits. reflexivity.
Qed.

Lemma canAddAnimal_in_game_witness :
  Enclosure.canAddAnimal (Enclosure.make 1 5 HERBIVORE TEMPERATE 10) young_deer
  = true.
Proof.
  apply (canAddAnimal_in_game
           (Zoo.make "Z" (fun _ => 0%nat) (fun _ => 0%nat))
           (Enclosure.make 1 5 HERBIVORE TEMPERATE 10) young_deer).
  - apply reach_make.
  - vm_compute. left. reflexivity.
  - vm_compute. repeat split.
Defined.
(** ** Single operations *)

(** X18: erasing from an enclosure the animal just added gives the enclosure
    back, provided the identity was not a resident's before. *)
Theorem removeAnimal_addAnimal :
  forall animal e,
    ~ In (Animal.uniqueId animal) (ids (Enclosure.animals e)) ->
    Enclosure.removeAnimal (Animal.uniqueId animal)
      (Enclosure.addAnimal animal e)
    = e.
Proof.
  intros animal e Hnew.
  unfold Enclosure.removeAnimal, Enclosure.addAnimal.
  cbn [Enclosure.set_animals Enclosure.animals].
  rewrite filter_app. cbn [filter]. rewrite Z.eqb_refl. cbn [negb].
  rewrite app_nil_r, filter_id; [destruct e; reflexivity|].
  intros a Ha. destruct (Animal.uniqueId a =? Animal.uniqueId animal) eqn:E;
    [|reflexivity].
  apply Z.eqb_eq in E. exfalso. apply Hnew. rewrite <- E.
  unfold ids. now apply in_map.
Qed.

Lemma removeAnimal_addAnimal_witness :
  Enclosure.removeAnimal (Animal.uniqueId young_deer)
    (Enclosure.addAnimal young_deer (Enclosure.make 1 5 HERBIVORE TEMPERATE 10))
  = Enclosure.make 1 5 HERBIVORE TEMPERATE 10.
Proof.
  apply removeAnimal_addAnimal. cbn. intros [].
Defined.

Lemma sickCount_cons a l :
  Zoo.sickCount (a :: l) = (if Animal.isSick a then 1 else 0) + Zoo.sickCount l.
Proof.
  unfold Zoo.sickCount. cbn [filter].
  destruct (Animal.isSick a); cbn [List.length]; lia.
Qed.

Lemma treat_sick worker :
  forall todo treated encs,
    Zoo.sickCount todo - Z.max 0 (Worker.maxAnimals worker - treated)
    <= Zoo.sickCount (fst (Zoo.treat worker treated todo encs))
    <= Zoo.sickCount todo.
Proof.
  induction todo as [|animal rest IH]; intros treated encs.
  - cbn. lia.
  - cbn [Zoo.treat].
    destruct (Animal.isSick animal && (treated <? Worker.maxAnimals worker)
              && Worker.has_enclosure (Animal.enclosureId animal) worker) eqn:E.
    + apply andb_prop in E as [E _]. apply andb_prop in E as [Es Et].
      apply Z.ltb_lt in Et.
      specialize (IH (treated + 1)
                     (Zoo.on_enclosure
                        (Animal.enclosureId (Animal.setSick false animal))
                        (Enclosure.updateAnimal (Animal.setSick false animal))
                        encs)).
      destruct (Zoo.treat worker (treated + 1) rest _) as [done encs'].
      cbn [fst] in *. rewrite !sickCount_cons, Es. cbn [Animal.setSick Animal.isSick].
      lia.
    + specialize (IH treated encs).
      destruct (Zoo.treat worker treated rest encs) as [done encs'].
      cbn [fst] in *. rewrite !sickCount_cons. lia.
Qed.

(** X19: the round of one worker over the sick animals cures at most
    [maxAnimals] of them and makes none sick; a worker who is not a
    veterinarian, or has no day of duty left, changes nothing. *)
Theorem heal_visit_limit :
  forall z worker,
    Zoo.sickCount (Zoo.animals z) - Z.max 0 (Worker.maxAnimals worker)
    <= Zoo.sickCount (Zoo.animals (Zoo.heal_visit z worker))
    <= Zoo.sickCount (Zoo.animals z)
    /\ (Worker.type worker <> VETERINARIAN \/ Worker.daysAssigned worker <= 0 ->
        Zoo.heal_visit z worker = z).
Proof.
  intros z worker. unfold Zoo.heal_visit. split.
  - destruct (_ && _); [|lia].
    pose proof (treat_sick worker (Zoo.animals z) 0 (Zoo.enclosures z)) as H.
    destruct (Zoo.treat _ _ _ _) as [done encs]. cbn [fst] in H.
    rewrite Z.sub_0_r in H. exact H.
  - intros [Hty|Hd].
    + destruct (Worker.type worker); try reflexivity. congruence.
    + replace (0 <? Worker.daysAssigned worker) with false
        by (symmetry; apply Z.ltb_ge; lia).
      now rewrite andb_false_r.
Qed.





(** X21: in every state of a game the animals of the registry and the offers
    of the market carry pairwise distinct identities, all below the next
    identity to hand out, and no price is negative. *)
Theorem identities_unique :
  forall z, reachable z ->
    NoDup (ids (Zoo.animals z ++ Zoo.marketAnimals z))
    /\ Forall (fun a => Animal.uniqueId a < Zoo.nextId z /\ 0 <= Animal.price a)
         (Zoo.animals z ++ Zoo.marketAnimals z).
Proof.
  intros z Hz. destruct (reachable_Inv z Hz) as (_ & (Hnd & Hall) & _).
  split.
  - unfold ids. now rewrite map_map in Hnd.
  - rewrite Forall_map in Hall. exact Hall.
Qed.

Lemma identities_unique_witness :
  NoDup
    (ids (Zoo.animals (run NextDay deer_zoo)
          ++ Zoo.marketAnimals (run NextDay deer_zoo))).
Proof.
  refine (proj1 (identities_unique _ _)).
  apply reach_run; [|reflexivity].
  unfold deer_zoo. apply reach_run; [apply reach_make | reflexivity].
Defined.

(** ** The registry over a day *)

Lemma dwindled_refl l : dwindled l l.
Proof. split; [apply incl_refl|lia]. Qed.

Lemma dwindled_trans l1 l2 l3 :
  dwindled l1 l2 -> dwindled l2 l3 -> dwindled l1 l3.
Proof.
  intros [H1 L1] [H2 L2]. split; [eapply incl_tran; eassumption|lia].
Qed.

Lemma dwindled_same l' l : registered l' = registered l -> dwindled l' l.
Proof.
  intros E. split; [rewrite E; apply incl_refl|].
  rewrite <- (length_map (fun a => (Animal.enclosureId a, Animal.uniqueId a)) l').
  rewrite <- (length_map (fun a => (Animal.enclosureId a, Animal.uniqueId a)) l).
  unfold registered in E. rewrite E. lia.
Qed.

Lemma age_loop_dwindles l :
  forall s,
  exists kept,
    Zoo.animals (fold_left Zoo.age_visit l s) = Zoo.animals s ++ kept
    /\ dwindled kept l.
Proof.
  induction l as [|it l IH]; intros s; cbn [fold_left].
  - exists []. rewrite app_nil_r. split; [reflexivity|apply dwindled_refl].
  - assert (Hcases : Zoo.animals (Zoo.age_visit s it) = Zoo.animals s
                     \/ Zoo.animals (Zoo.age_visit s it)
                        = Zoo.animals s ++ [grow it]).
    { unfold Zoo.age_visit. fold (grow it). branches; auto. }
    destruct (IH (Zoo.age_visit s it)) as (kept' & E & Hincl & Hlen).
    destruct Hcases as [Hc|Hc]; rewrite Hc in E.
    + exists kept'. split; [exact E|]. split; [|cbn; lia].
      intros x Hx. right. apply Hincl, Hx.
    + exists (grow it :: kept'). rewrite <- app_assoc in E. split; [exact E|].
      split; [|cbn; lia].
      intros x [<-|Hx]; [left; reflexivity | right; apply Hincl, Hx].
Qed.

Lemma age_all_dwindles z : dwindled (Zoo.animals (Zoo.age_all z)) (Zoo.animals z).
Proof.
  unfold Zoo.age_all.
  destruct (age_loop_dwindles (Zoo.animals z) (Zoo.set_animals [] z))
    as (kept & E & H).
  rewrite E. exact H.
Qed.

Lemma sicken_loop_registered l :
  forall s,
    registered (Zoo.animals (fold_left Zoo.sicken_visit l s))
    = registered (Zoo.animals s) ++ registered l.
Proof.
  induction l as [|it l IH]; intros s; cbn [fold_left].
  - now rewrite app_nil_r.
  - rewrite IH.
    assert (E : registered (Zoo.animals (Zoo.sicken_visit s it))
                = registered (Zoo.animals s) ++ [(Animal.enclosureId it,
                                                  Animal.uniqueId it)]).
    { unfold Zoo.sicken_visit, Zoo.keep.
      destruct (Animal.isSick it); [cbn; now rewrite registered_app|].
      destruct (random 0 99 _) as [roll g].
      destruct (roll <? 10); cbn; now rewrite registered_app. }
    rewrite E, <- app_assoc. reflexivity.
Qed.

Lemma sicken_all_registered z :
  registered (Zoo.animals (Zoo.sicken_all z)) = registered (Zoo.animals z).
Proof. unfold Zoo.sicken_all. now rewrite sicken_loop_registered. Qed.

Lemma heal_visit_registered z worker :
  registered (Zoo.animals (Zoo.heal_visit z worker)) = registered (Zoo.animals z).
Proof.
  unfold Zoo.heal_visit. destruct (_ && _); [|reflexivity].
  pose proof (treat_books worker (Zoo.animals z) 0 (Zoo.enclosures z)) as [E _].
  destruct (Zoo.treat _ _ _ _) as [done encs]. exact E.
Qed.

Lemma heal_all_registered z :
  registered (Zoo.animals (Zoo.heal_all z)) = registered (Zoo.animals z).
Proof.
  unfold Zoo.heal_all.
  apply (fold_left_frame (fun s => registered (Zoo.animals s)) Zoo.heal_visit
           heal_visit_registered).
Qed.

Lemma after_ageing_registered z :
  registered (Zoo.animals (Zoo.after_ageing z)) = registered (Zoo.animals z).
Proof.
  unfold Zoo.after_ageing.
  rewrite heal_all_registered, sicken_all_registered. reflexivity.
Qed.

Lemma spared_dwindles g l : dwindled (spared g l) l.
Proof.
  unfold spared, rolled. split.
  - intros p Hp. apply in_map_iff in Hp as (a & <- & Ha).
    apply in_map_iff in Ha as ([a' r] & <- & Ha).
    apply filter_In in Ha as [Ha _]. apply in_combine_l in Ha.
    unfold registered. apply in_map_iff. now exists a'.
  - apply filter_combine_length.
Qed.

Lemma feed_all_dwindles z : dwindled (Zoo.animals (Zoo.feed_all z)) (Zoo.animals z).
Proof.
  destruct (feeding_at z) as [Hshort Hfed].
  destruct (Z.lt_ge_cases (Zoo.food z) (Zoo.foodNeeded (Zoo.animals z))) as [H|H].
  - destruct (Hshort H) as (_ & E & _). rewrite E. apply spared_dwindles.
  - rewrite (Hfed H). apply dwindled_refl.
Qed.

(** ** The registry and the food after a day *)

(** X22: a day advance adds no animal to the registry and moves none: every
    animal registered after it was registered before, with the same
    enclosure, and the registry is no longer than it was. *)
Theorem nextDay_adds_no_animal :
  forall z, dwindled (Zoo.animals (Zoo.nextDay z)) (Zoo.animals z).
Proof.
  intros z. rewrite nextDay_eq.
  rewrite (frame_after_feeding Zoo.animals) by reflexivity.
  eapply dwindled_trans; [apply feed_all_dwindles|].
  eapply dwindled_trans; [apply dwindled_same, after_ageing_registered|].
  eapply dwindled_trans; [apply age_all_dwindles|].
  rewrite animals_begin_day. apply dwindled_refl.
Qed.

Lemma foodNeeded_nonneg l : 0 <= Zoo.foodNeeded l.
Proof. rewrite foodNeeded_count. lia. Qed.

Lemma food_feed_all z :
  0 <= Zoo.food z -> 0 <= Zoo.food (Zoo.feed_all z) <= Zoo.food z.
Proof.
  intros H. unfold Zoo.feed_all.
  pose proof (foodNeeded_nonneg (Zoo.animals z)) as Hn.
  destruct (_ <=? _) eqn:E.
  - apply Z.leb_le in E. cbn. lia.
  - rewrite (frame_starving Zoo.food) by reflexivity. cbn. lia.
Qed.

Lemma food_nextDay z :
  0 <= Zoo.food z -> 0 <= Zoo.food (Zoo.nextDay z) <= Zoo.food z.
Proof.
  intros H. rewrite nextDay_eq.
  rewrite (frame_after_feeding Zoo.food) by reflexivity.
  assert (E : Zoo.food (Zoo.after_ageing (Zoo.age_all (Zoo.begin_day z)))
              = Zoo.food z).
  { rewrite (frame_after_ageing Zoo.food) by reflexivity.
    rewrite (frame_age_all Zoo.food) by reflexivity.
    now rewrite (frame_begin_day Zoo.food) by reflexivity. }
  pose proof (food_feed_all
                (Zoo.after_ageing (Zoo.age_all (Zoo.begin_day z)))) as Hf.
  rewrite E in Hf. exact (Hf H).
Qed.

(** What one menu entry does to the stock: only an order adds to it, by the
    amount ordered at most. *)
Lemma food_run a z :
  valid_input z a = true ->
  0 <= Zoo.food z ->
  0 <= food_ordered [a]
  /\ 0 <= Zoo.food (run a z) <= Zoo.food z + food_ordered [a].
Proof.
  intros Hv H. destruct a; cbn [run food_ordered fold_right].
  - rewrite (frame_purchase Zoo.food) by reflexivity. lia.
  - rewrite (frame_sell Zoo.food) by reflexivity. lia.
  - rewrite (frame_rename Zoo.food) by reflexivity. lia.
  - rewrite (frame_refresh_for_fee Zoo.food) by reflexivity. lia.
  - rewrite (frame_hire Zoo.food) by reflexivity. lia.
  - rewrite (frame_fire Zoo.food) by reflexivity. lia.
  - rewrite (frame_assign Zoo.food) by reflexivity. lia.
  - cbn [valid_input] in Hv. unfold in_range in Hv. apply andb_prop in Hv.
    unfold Zoo.buyFood. destruct (_ >=? _)%D; cbn; lia.
  - unfold Zoo.advertise. destruct (_ >=? _)%D; cbn; lia.
  - rewrite (frame_borrow Zoo.food) by reflexivity. lia.
  - rewrite (frame_build Zoo.food) by reflexivity. lia.
  - rewrite (frame_breed Zoo.food) by reflexivity. lia.
  - pose proof (food_nextDay z H). lia.
Qed.

Lemma food_ordered_app l1 l2 :
  food_ordered (l1 ++ l2) = food_ordered l1 + food_ordered l2.
Proof.
  unfold food_ordered. induction l1 as [|a l1 IH]; [reflexivity|].
  cbn [app fold_right]. destruct a; rewrite ?IH; lia.
Qed.

Lemma food_play done :
  forall rest z,
    valid_play (done ++ rest) z = true ->
    0 <= Zoo.food z ->
    0 <= food_ordered done
    /\ valid_play rest (play done z) = true
    /\ 0 <= Zoo.food (play done z) <= Zoo.food z + food_ordered done.
Proof.
  unfold play.
  induction done as [|a done IH]; intros rest z Hv H.
  - cbn. split; [lia|]. split; [exact Hv|lia].
  - cbn [app valid_play] in Hv. apply andb_prop in Hv as [Ha Hv].
    destruct (food_run a z Ha H) as (Ho & Hlo & Hhi).
    destruct (IH rest (run a z) Hv Hlo) as (Ho' & Hv' & Hlo' & Hhi').
    change (a :: done) with ([a] ++ done). rewrite food_ordered_app.
    cbn [app fold_left]. split; [lia|]. split; [exact Hv'|lia].
Qed.

(** X23: in a game in which the food ordered adds up to no more than the
    [int] stock can hold, the stock is never negative and never above the
    opening stock plus the orders made so far, so that it stays within the
    range of [int] throughout: an order adds the amount or nothing, and a
    day on which the stock does not cover the needs leaves it untouched. *)
Theorem food_never_negative :
  forall script z,
    valid_play script z = true ->
    0 <= Zoo.food z ->
    Zoo.food z + food_ordered script <= Zoo.INT_MAX ->
    forall done rest,
      script = done ++ rest ->
      0 <= Zoo.food (play done z) <= Zoo.food z + food_ordered done
      /\ Zoo.food z + food_ordered done <= Zoo.INT_MAX.
Proof.
  intros script z Hv H Hmax done rest ->.
  destruct (food_play done rest z Hv H) as (Ho & Hv' & Hfood).
  split; [exact Hfood|].
  assert (Hrest : 0 <= food_ordered rest).
  { assert (H0 : 0 <= Zoo.food (play done z)) by lia.
    pose proof (food_play rest [] (play done z)) as Hr.
    rewrite app_nil_r in Hr. destruct (Hr Hv' H0) as (Hr' & _). exact Hr'. }
  rewrite food_ordered_app in Hmax. lia.
Qed.

Lemma food_never_negative_witness :
  0 <= Zoo.food (play [BuyFood 7; NextDay] deer_zoo) <= Zoo.food deer_zoo + 7.
Proof.
  assert (Hv : valid_play [BuyFood 7; NextDay] deer_zoo = true)
    by (vm_compute; reflexivity).
  assert (H0 : 0 <= Zoo.food deer_zoo) by (vm_compute; discriminate).
  assert (Hmax : Zoo.food deer_zoo + food_ordered [BuyFood 7; NextDay]
                 <= Zoo.INT_MAX) by (vm_compute; discriminate).
  exact (proj1 (food_never_negative [BuyFood 7; NextDay] deer_zoo Hv H0 Hmax
                  [BuyFood 7; NextDay] [] eq_refl)).
Defined.

(** X24: in a game a purchase either changes nothing or buys the chosen
    offer: the zoo could pay the price, the enclosure with the chosen
    identity could take the animal, the offer leaves the market and is
    appended to the registry and to that enclosure with the enclosure
    written into it, the price is paid and both counters go up by one.
    After day 10 a second purchase on the same day changes nothing. *)
Theorem purchase_outcome :
  forall animalChoice encId z,
    reachable z ->
    Zoo.purchase animalChoice encId z = z
    \/ exists selected l1 l2 enc,
        Zoo.marketAnimals z = l1 ++ selected :: l2
        /\ Z.of_nat (List.length l1) = animalChoice - 1
        /\ (10 <? Zoo.day z) && (1 <=? Zoo.animalsBoughtToday z) = false
        /\ (Zoo.money z >=? Double.of_int (Animal.price selected))%D = true
        /\ In enc (Zoo.enclosures z)
        /\ Enclosure.id enc = encId
        /\ Enclosure.canAddAnimal enc selected = true
        /\ Zoo.purchase animalChoice encId z
           = Zoo.set_marketAnimals (l1 ++ l2)
               (Zoo.set_animalsBoughtToday (Zoo.animalsBoughtToday z + 1)
                  (Zoo.set_totalAnimals (Zoo.totalAnimals z + 1)
                     (Zoo.set_money
                        (Zoo.money z - Double.of_int (Animal.price selected))%D
                        (Zoo.set_animals
                           (Zoo.animals z
                            ++ [Animal.setEnclosureId encId selected])
                           (Zoo.set_enclosures
                              (Zoo.on_enclosure encId
                                 (Enclosure.addAnimal
                                    (Animal.setEnclosureId encId selected))
                                 (Zoo.enclosures z))
                              z))))).
Proof.
  intros c e z Hz. unfold Zoo.purchase.
  destruct ((10 <? Zoo.day z) && (1 <=? Zoo.animalsBoughtToday z)) eqn:Eg;
    [now left|].
  destruct (Zoo.marketAnimals z) as [|m0 market0] eqn:Emarket; [now left|].
  rewrite <- Emarket.
  destruct ((1 <=? c)
            && (c <=? Z.of_nat (List.length (Zoo.marketAnimals z)))) eqn:Er;
    [|now left].
  destruct (nth_error _ _) as [selected|] eqn:Esel; [|now left].
  destruct (_ >=? _)%D eqn:Em; [|now left].
  destruct (existsb _ _); [|now left].
  destruct (Zoo.place _ _ _) as [encs|] eqn:Eplace; [|now left].
  right.
  apply reachable_Inv, Inv_on_NoDup in Hz as [Hencs _].
  apply place_on_enclosure in Eplace as Eencs; [|exact Hencs].
  apply place_In in Eplace as (enc & He & Hid & Hcan).
  destruct (erase_at_split _ _ _ Esel) as (l1 & l2 & E1 & E2 & Hl).
  exists selected, l1, l2, enc.
  apply andb_prop in Er as [Er _]. apply Z.leb_le in Er.
  split; [exact E1|]. split; [lia|]. split; [reflexivity|].
  split; [exact Em|]. split; [exact He|]. split; [exact Hid|].
  split; [exact Hcan|]. rewrite E2, Eencs. reflexivity.
Qed.

Lemma purchase_outcome_witness :
  let z := Zoo.make "Z" (fun _ => 0%nat) (fun _ => 0%nat) in
  Zoo.purchase 2 1 z = z
  \/ exists selected l1 l2 enc,
      Zoo.marketAnimals z = l1 ++ selected :: l2
      /\ Z.of_nat (List.length l1) = 2 - 1
      /\ (10 <? Zoo.day z) && (1 <=? Zoo.animalsBoughtToday z) = false
      /\ (Zoo.money z >=? Double.of_int (Animal.price selected))%D = true
      /\ In enc (Zoo.enclosures z)
      /\ Enclosure.id enc = 1
      /\ Enclosure.canAddAnimal enc selected = true
      /\ Zoo.purchase 2 1 z
         = Zoo.set_marketAnimals (l1 ++ l2)
             (Zoo.set_animalsBoughtToday (Zoo.animalsBoughtToday z + 1)
                (Zoo.set_totalAnimals (Zoo.totalAnimals z + 1)
                   (Zoo.set_money
                      (Zoo.money z - Double.of_int (Animal.price selected))%D
                      (Zoo.set_animals
                         (Zoo.animals z ++ [Animal.setEnclosureId 1 selected])
                         (Zoo.set_enclosures
                            (Zoo.on_enclosure 1
                               (Enclosure.addAnimal
                                  (Animal.setEnclosureId 1 selected))
                               (Zoo.enclosures z))
                            z))))).
Proof.
  cbv zeta. apply purchase_outcome. apply reach_make.
Defined.

(** X25: a breeding either changes nothing or adds one newborn: the two
    choices are different animals of the registry that [operator+]
    accepts, the enclosure of the first has room for one more of its kind,
    the newborn takes the next identity, joins the registry and that
    enclosure, and the counter goes up by one; nothing is paid. *)
Theorem breed_outcome :
  forall first second z,
    Zoo.breed first second z = z
    \/ exists a b newborn enc,
        nth_error (Zoo.animals z) (Z.to_nat (first - 1)) = Some a
        /\ nth_error (Zoo.animals z) (Z.to_nat (second - 1)) = Some b
        /\ first <> second
        /\ ~ ineligible a b
        /\ In enc (Zoo.enclosures z)
        /\ Enclosure.id enc = Animal.enclosureId a
        /\ Enclosure.canAddAnimal enc a = true
        /\ Animal.uniqueId newborn = Zoo.nextId z
        /\ Animal.enclosureId newborn = Animal.enclosureId a
        /\ Zoo.breed first second z
           = Zoo.set_totalAnimals (Zoo.totalAnimals z + 1)
               (Zoo.set_animals (Zoo.animals z ++ [newborn])
                  (Zoo.set_enclosures
                     (Zoo.on_enclosure (Animal.enclosureId a)
                        (Enclosure.addAnimal newborn) (Zoo.enclosures z))
                     (Zoo.set_crand (snd (draw (Zoo.crand z)))
                        (Zoo.set_nextId (Zoo.nextId z + 1) z)))).
Proof.
  intros first second z. unfold Zoo.breed.
  destruct (_ <? 2); [now left|].
  destruct (first =? 0); [now left|].
  destruct (second =? 0); [now left|].
  destruct (first =? second) eqn:Efs; [now left|].
  destruct (nth_error (Zoo.animals z) (Z.to_nat (first - 1))) as [a|] eqn:Ea;
    [|now left].
  destruct (nth_error (Zoo.animals z) (Z.to_nat (second - 1))) as [b|] eqn:Eb;
    [|now left].
  destruct (negb (Animal.enclosureId a =? Animal.enclosureId b)); [now left|].
  destruct (existsb _ _) eqn:Eex; cbn [negb]; [|now left].
  destruct (Animal.operator_plus _ _ _ _) as [[[newborn id'] g]|] eqn:Eplus;
    [|now left].
  right.
  apply operator_plus_ok in Eplus as (Hok & -> & -> & Enew).
  apply existsb_at_id in Eex as (enc & He & Hid & Hcan).
  exists a, b, newborn, enc.
  split; [reflexivity|]. split; [reflexivity|].
  split; [now apply Z.eqb_neq|]. split; [exact Hok|].
  split; [exact He|]. split; [exact Hid|]. split; [exact Hcan|].
  assert (Hu : Animal.uniqueId newborn = Zoo.nextId z)
    by (rewrite Enew; reflexivity).
  assert (Hn : Animal.enclosureId newborn = Animal.enclosureId a)
    by (rewrite Enew; reflexivity).
  split; [exact Hu|]. split; [exact Hn|]. now rewrite Hn.
Qed.
(** ** The accounts of an opening day *)

(** The staff after the loops of the day. *)
Lemma workers_loops z :
  Zoo.workers (Zoo.feed_all (Zoo.after_ageing (Zoo.age_all z)))
  = map Zoo.worker_day (Zoo.workers z).
Proof.
  rewrite workers_feed_all, workers_after_ageing.
  now rewrite (frame_age_all Zoo.workers) by reflexivity.
Qed.

(** Every death of the day is counted: the counter goes down by as much
    as the registry gets shorter. *)
Lemma starved_spared_length g l :
  (List.length (starved g l) + List.length (spared g l))%nat = List.length l.
Proof.
  revert g. induction l as [|it l IH]; intros g; [reflexivity|].
  rewrite starved_cons, spared_cons.
  destruct (starve_roll g 0 <? 30); cbn [List.length]; rewrite <- (IH (advance 1 g));
    lia.
Qed.

Lemma feed_all_count z :
  Zoo.totalAnimals (Zoo.feed_all z)
  = Zoo.totalAnimals z
    - (Z.of_nat (List.length (Zoo.animals z))
       - Z.of_nat (List.length (Zoo.animals (Zoo.feed_all z)))).
Proof.
  destruct (feeding_at z) as [Hshort Hfed].
  destruct (Z.lt_ge_cases (Zoo.food z) (Zoo.foodNeeded (Zoo.animals z))) as [H|H].
  - destruct (Hshort H) as (_ & Ea & _ & Et & _). rewrite Ea, Et.
    pose proof (starved_spared_length (Zoo.crand z) (Zoo.animals z)). lia.
  - rewrite (Hfed H). cbn. lia.
Qed.

Lemma registered_length l l' :
  registered l' = registered l -> List.length l' = List.length l.
Proof.
  intros E.
  rewrite <- (length_map (fun a => (Animal.enclosureId a, Animal.uniqueId a)) l').
  rewrite <- (length_map (fun a => (Animal.enclosureId a, Animal.uniqueId a)) l).
  unfold registered in E. now rewrite E.
Qed.

Lemma loops_count z :
  let s := Zoo.feed_all (Zoo.after_ageing (Zoo.age_all z)) in
  Zoo.totalAnimals s
  = Zoo.totalAnimals z
    - (Z.of_nat (List.length (Zoo.animals z))
       - Z.of_nat (List.length (Zoo.animals s))).
Proof.
  cbv zeta. rewrite feed_all_count.
  rewrite (registered_length _ _ (after_ageing_registered (Zoo.age_all z))).
  assert (Et : Zoo.totalAnimals (Zoo.after_ageing (Zoo.age_all z))
               = Zoo.totalAnimals (Zoo.age_all z)).
  { unfold Zoo.after_ageing.
    rewrite (frame_heal_all Zoo.totalAnimals) by reflexivity.
    rewrite (frame_sicken_all Zoo.totalAnimals) by reflexivity.
    reflexivity. }
  rewrite Et, age_all_count. lia.
Qed.

(** With cash 1488, the opening staff and the one enclosure, the sums of the
    day are exact: revenue, salaries and upkeep are whole numbers far
    within the range where [double] holds integers. *)
Lemma opening_cash r t :
  -10 <= r <= 10 -> 0 <= t <= 5 ->
  let visitors :=
    Double.to_int
      (Double.of_int 50
       * (Double.of_int 1 + Double.of_int r / Double.of_int 100))%D in
  (fold_left (fun m worker => (m - Double.of_int (Worker.salary worker))%D)
     (map Zoo.worker_day Zoo.initial_workers)
     (Double.of_int 1488 + Double.of_int (visitors * t))
   - Double.of_int 10)%D
  = Double.of_int (1488 + (visitors * t - 180 - 10)).
Proof.
  intros Hr Ht.
  assert (H : r = -10 \/ r = -9 \/ r = -8 \/ r = -7 \/ r = -6 \/ r = -5
              \/ r = -4 \/ r = -3 \/ r = -2 \/ r = -1 \/ r = 0 \/ r = 1
              \/ r = 2 \/ r = 3 \/ r = 4 \/ r = 5 \/ r = 6 \/ r = 7
              \/ r = 8 \/ r = 9 \/ r = 10) by lia.
  assert (H' : t = 0 \/ t = 1 \/ t = 2 \/ t = 3 \/ t = 4 \/ t = 5) by lia.
  clear Hr Ht.
  repeat (destruct H as [->|H]);
    try subst r;
    (repeat (destruct H' as [->|H'])); try subst t;
    vm_compute; reflexivity.
Qed.

Lemma upkeep_of_deeds (encs : list Enclosure.t) m :
  map deed encs = [(1, 5, HERBIVORE, TEMPERATE, 10)] ->
  fold_left (fun m enc => (m - Double.of_int (Enclosure.dailyCost enc))%D) encs m
  = (m - Double.of_int 10)%D
  /\ fold_right Z.add 0 (map Enclosure.dailyCost encs) = 10.
Proof.
  destruct encs as [|e [|e' encs]]; try discriminate.
  cbn [map]. unfold deed. intros H. injection H as _ _ _ _ Hc.
  cbn. rewrite Hc. split; reflexivity.
Qed.

Lemma opening_make n rand_tape mt_tape : opening (Zoo.make n rand_tape mt_tape).
Proof.
  destruct (make_fields n rand_tape mt_tape)
    as (Ha & He & Ht & _ & Hm & Hp & Hw & Hl).
  unfold opening. rewrite Ha, He, Ht, Hm, Hp, Hw, Hl.
  assert (Hf : Zoo.food (Zoo.make n rand_tape mt_tape) = 100).
  { unfold Zoo.make.
    now rewrite (frame_refreshMarket Zoo.food) by reflexivity. }
  rewrite Hf. repeat split; lia.
Qed.

(** The accounts when the loops of the day are over, the position being
    the opening one but for the staff, a day older. *)
Lemma opening_closing s :
  Zoo.money s = Double.of_int 1488 ->
  Zoo.popularity s = Double.of_int 50 ->
  Zoo.loans s = [] ->
  Zoo.workers s = map Zoo.worker_day Zoo.initial_workers ->
  map deed (Zoo.enclosures s) = [(1, 5, HERBIVORE, TEMPERATE, 10)] ->
  0 <= Zoo.totalAnimals s <= 5 ->
  Zoo.sickCount (Zoo.animals s) = 0 ->
  Zoo.specialVisitorType (Zoo.after_feeding s) = "None" ->
  let r := fst (random (-10) 10 (Zoo.crand s)) in
  -10 <= r <= 10
  /\ Zoo.totalAnimals (Zoo.after_feeding s) = Zoo.totalAnimals s
  /\ Zoo.popularity (Zoo.after_feeding s)
     = (Double.of_int 50
        * (Double.of_int 1 + Double.of_int r / Double.of_int 100))%D
  /\ Zoo.visitors (Zoo.after_feeding s)
     = Double.to_int (Zoo.popularity (Zoo.after_feeding s))
  /\ Zoo.money (Zoo.after_feeding s)
     = Double.of_int
         (1488 + (Zoo.visitors (Zoo.after_feeding s)
                  * Zoo.totalAnimals (Zoo.after_feeding s) - 180 - 10)).
Proof.
  intros Hm Hp Hl Hw Hd Ht Hs Hquiet. cbv zeta.
  destruct (closing_accounts s Hs Hl Hquiet) as (_ & Ht1 & Hp1 & Hv1 & Hm1).
  assert (Hr : -10 <= fst (random (-10) 10 (Zoo.crand s)) <= 10)
    by (apply random_range; lia).
  rewrite Hp, (drift_from_50 _ Hr) in Hp1.
  rewrite Hm, Hw in Hm1.
  destruct (upkeep_of_deeds (Zoo.enclosures s)
              (fold_left
                 (fun m worker => (m - Double.of_int (Worker.salary worker))%D)
                 (map Zoo.worker_day Zoo.initial_workers)
                 (Double.of_int 1488
                  + Double.of_int
                      (Zoo.visitors (Zoo.after_feeding s)
                       * Zoo.totalAnimals s))%D) Hd)
    as [Hup _].
  rewrite Hup in Hm1. clear Hup.
  split; [exact Hr|]. split; [exact Ht1|]. split; [exact Hp1|].
  split; [exact Hv1|].
  rewrite Hm1, Ht1, Hv1, Hp1. apply opening_cash; assumption.
Qed.

(** The loops of the day leave cash, popularity, loans and enclosures as
    they were, make the staff a day older, and count every death. *)
Lemma loops_accounts x :
  let s := Zoo.feed_all (Zoo.after_ageing (Zoo.age_all x)) in
  Zoo.money s = Zoo.money x
  /\ Zoo.popularity s = Zoo.popularity x
  /\ Zoo.loans s = Zoo.loans x
  /\ Zoo.workers s = map Zoo.worker_day (Zoo.workers x)
  /\ map deed (Zoo.enclosures s) = map deed (Zoo.enclosures x)
  /\ (List.length (Zoo.animals s) = List.length (Zoo.animals x) ->
      Zoo.totalAnimals s = Zoo.totalAnimals x).
Proof.
  cbv zeta.
  split; [apply (frame_loops Zoo.money); reflexivity|].
  split; [apply (frame_loops Zoo.popularity); reflexivity|].
  split; [apply (frame_loops Zoo.loans); reflexivity|].
  split; [apply workers_loops|].
  split.
  - change (deeds (Zoo.feed_all (Zoo.after_ageing (Zoo.age_all x))) = deeds x).
    unfold Zoo.feed_all. destruct (_ <=? _).
    + change (deeds (Zoo.after_ageing (Zoo.age_all x)) = deeds x).
      unfold Zoo.after_ageing, Zoo.heal_all.
      rewrite (fold_left_frame deeds Zoo.heal_visit deeds_heal_visit).
      unfold Zoo.sicken_all.
      rewrite (fold_left_frame deeds Zoo.sicken_visit deeds_sicken_visit).
      change (deeds (Zoo.age_all x) = deeds x). unfold Zoo.age_all.
      now rewrite (fold_left_frame deeds Zoo.age_visit deeds_age_visit).
    + rewrite (fold_left_frame deeds Zoo.starve_visit deeds_starve_visit).
      change (deeds (Zoo.after_ageing (Zoo.age_all x)) = deeds x).
      unfold Zoo.after_ageing, Zoo.heal_all.
      rewrite (fold_left_frame deeds Zoo.heal_visit deeds_heal_visit).
      unfold Zoo.sicken_all.
      rewrite (fold_left_frame deeds Zoo.sicken_visit deeds_sicken_visit).
      change (deeds (Zoo.age_all x) = deeds x). unfold Zoo.age_all.
      now rewrite (fold_left_frame deeds Zoo.age_visit deeds_age_visit).
  - intros Hlen. pose proof (loops_count x) as H. cbv zeta in H. lia.
Qed.

Lemma opening_begin_day z :
  opening z ->
  let x := Zoo.begin_day z in
  Zoo.money x = Double.of_int 1488
  /\ Zoo.popularity x = Double.of_int 50
  /\ Zoo.loans x = []
  /\ Zoo.workers x = Zoo.initial_workers
  /\ map deed (Zoo.enclosures x) = [(1, 5, HERBIVORE, TEMPERATE, 10)]
  /\ Zoo.animals x = Zoo.animals z
  /\ Zoo.totalAnimals x = Zoo.totalAnimals z.
Proof.
  intros (Hm & _ & Hp & Hd & Hw & Hl & Ht & Hs). cbv zeta.
  rewrite (frame_begin_day Zoo.money), (frame_begin_day Zoo.popularity),
    (frame_begin_day Zoo.loans), (frame_begin_day Zoo.workers),
    (frame_begin_day Zoo.enclosures), animals_begin_day,
    totalAnimals_begin_day by reflexivity.
  repeat split; assumption.
Qed.

(** C7.  A day advance from the opening position (cash 1488, food 100,
    popularity 50, the one herbivore enclosure of capacity 5, the four
    workers of the constructor, no loan), whatever animals the registry
    holds within that capacity, the constructor's own state being the case
    of the empty registry.  When the day brings no death, no new sickness
    and no special guests, the popularity is 50 scaled by the drawn factor,
    the visitor count is its truncation, and the cash goes from 1488 to
    1488 plus visitors times the counter of animals, minus the salaries
    (180), minus the upkeep (10). *)
Theorem first_day_accounts :
  forall z,
    opening z ->
    let z1 := Zoo.nextDay z in
    let s := Zoo.feed_all (Zoo.after_ageing (Zoo.age_all (Zoo.begin_day z))) in
    let r := fst (random (-10) 10 (Zoo.crand s)) in
    let salaries := fold_right Z.add 0 (map Worker.salary (Zoo.workers z)) in
    let upkeep :=
      fold_right Z.add 0 (map Enclosure.dailyCost (Zoo.enclosures z)) in
    List.length (Zoo.animals z1) = List.length (Zoo.animals z) ->
    Zoo.sickCount (Zoo.animals z1) = Zoo.sickCount (Zoo.animals z) ->
    Zoo.specialVisitorType z1 = "None" ->
    -10 <= r <= 10
    /\ Zoo.totalAnimals z1 = Zoo.totalAnimals z
    /\ Zoo.popularity z1
       = (Double.of_int 50
          * (Double.of_int 1 + Double.of_int r / Double.of_int 100))%D
    /\ Zoo.visitors z1 = Double.to_int (Zoo.popularity z1)
    /\ salaries = 180 /\ upkeep = 10
    /\ Zoo.money z = Double.of_int 1488
    /\ Zoo.money z1
       = Double.of_int
           (1488 + (Zoo.visitors z1 * Zoo.totalAnimals z1 - salaries - upkeep)).
Proof.
  intros z Hopen. cbv zeta. rewrite nextDay_eq. intros Hlen Hsick Hquiet.
  pose proof Hopen as (Hm & _ & _ & Hd & Hw & _ & Ht & Hs).
  destruct (opening_begin_day z Hopen) as (Hm0 & Hp0 & Hl0 & Hw0 & Hd0 & Ha0 & Ht0).
  destruct (loops_accounts (Zoo.begin_day z))
    as (Hm1 & Hp1 & Hl1 & Hw1 & Hd1 & Hc1).
  rewrite (frame_after_feeding Zoo.animals) in Hlen, Hsick by reflexivity.
  rewrite <- Ha0 in Hlen. apply Hc1 in Hlen.
  destruct (opening_closing
              (Zoo.feed_all (Zoo.after_ageing (Zoo.age_all (Zoo.begin_day z)))))
    as (Hr & Ht2 & Hp2 & Hv2 & Hm2).
  - now rewrite Hm1.
  - now rewrite Hp1.
  - now rewrite Hl1.
  - now rewrite Hw1, Hw0.
  - now rewrite Hd1.
  - now rewrite Hlen, Ht0.
  - now rewrite Hsick.
  - exact Hquiet.
  - destruct (upkeep_of_deeds _ (Double.of_int 0) Hd) as [_ Hupkeep].
    split; [exact Hr|]. split; [now rewrite Ht2, Hlen|].
    split; [exact Hp2|]. split; [exact Hv2|].
    rewrite Hw, Hupkeep.
    split; [reflexivity|]. split; [reflexivity|]. split; [exact Hm|].
    exact Hm2.
Qed.

Lemma first_day_accounts_witness :
  opening deer_opening
  /\ Zoo.totalAnimals (Zoo.nextDay deer_opening) = 1
  /\ Zoo.visitors (Zoo.nextDay deer_opening) = 54
  /\ Zoo.money (Zoo.nextDay deer_opening) = Double.of_int 1352.
Proof.
  assert (Hopen : opening deer_opening).
  { unfold opening.
    split; [vm_compute; reflexivity|]. split; [vm_compute; reflexivity|].
    split; [vm_compute; reflexivity|]. split; [vm_compute; reflexivity|].
    split; [vm_compute; reflexivity|]. split; [vm_compute; reflexivity|].
    split; [|vm_compute; reflexivity].
    assert (E : Zoo.totalAnimals deer_opening = 1) by (vm_compute; reflexivity).
    rewrite E. lia. }
  assert (Hlen : List.length (Zoo.animals (Zoo.nextDay deer_opening))
                 = List.length (Zoo.animals deer_opening))
    by (vm_compute; reflexivity).
  assert (Hsick : Zoo.sickCount (Zoo.animals (Zoo.nextDay deer_opening))
                  = Zoo.sickCount (Zoo.animals deer_opening))
    by (vm_compute; reflexivity).
  assert (Hquiet : Zoo.specialVisitorType (Zoo.nextDay deer_opening) = "None")
    by (vm_compute; reflexivity).
  assert (Hv : Zoo.visitors (Zoo.nextDay deer_opening) = 54)
    by (vm_compute; reflexivity).
  assert (Ht : Zoo.totalAnimals (Zoo.nextDay deer_opening) = 1)
    by (vm_compute; reflexivity).
  split; [exact Hopen|]. split; [exact Ht|]. split; [exact Hv|].
  destruct (first_day_accounts deer_opening Hopen Hlen Hsick Hquiet)
    as (_ & _ & _ & _ & _ & _ & _ & Hm).
  rewrite Hm, Hv, Ht. reflexivity.
Defined.
